(** * DIMO-Network/certificates: token authorization and SSH signing handlers

    A shallow embedding of [authority/authorize.go] and [api/ssh.go].

    Conventions.
    - A Go [string] and a Go [[]byte] are both sequences of bytes; both are
      modelled by [string], whose characters ([ascii]) are exactly the 256
      byte values.
    - Go integers that only hold small values here ([uint] accumulators of
      the base64 codec, [int64] seconds) are modelled by [N] or [Z].
    - A Go function returning [(T, error)] returns [result T].
    - The replay guard [ottMap] (a [sync.Map]) is a [gmap string idUsed];
      code that touches it is written in a state monad that also logs the
      calls made to collaborators, so that "is called" and "is called before"
      are statements about the log. *)

From Stdlib Require Import ZArith NArith Ascii String List Lia Bool.
From stdpp Require Import base option list strings gmap fin_maps.

Local Open Scope string_scope.
Local Open Scope list_scope.

(** ** Go values shared by both packages *)

(** The Go [error] values the two files build or pass through.  A collaborator
    (a provisioner, the authority behind the HTTP handlers, a library) may
    return any of them.  [library_error pkg] is an error made inside the
    library [pkg] whose text is not tracked. *)
Inductive error : Type :=
| errors_New (msg : string)
| errors_Wrap (cause : error) (msg : string)
| apiError (err : error) (code : Z) (context : gmap string string)
| library_error (pkg : string).

Inductive result (A : Type) : Type :=
| Ok (a : A)
| Err (e : error).
Arguments Ok {A} a.
Arguments Err {A} e.

(** [http.StatusX] *)
Definition StatusOK : Z := 200.
Definition StatusCreated : Z := 201.
Definition StatusUnauthorized : Z := 401.

(** ** Package [strings] (the functions used below) *)
Module strings.

Fixpoint HasPrefix (s p : string) : bool :=
  match p, s with
  | EmptyString, _ => true
  | String c p', String d s' => if Ascii.eqb c d then HasPrefix s' p' else false
  | String _ _, EmptyString => false
  end.

(** [strings.Index]: position of the first occurrence, [None] for Go's -1. *)
Fixpoint Index (s sep : string) : option nat :=
  if HasPrefix s sep then Some 0%nat
  else match s with
       | EmptyString => None
       | String _ s' => S <$> Index s' sep
       end.

(** [strings.LastIndex] *)
Fixpoint LastIndex (s sep : string) : option nat :=
  match s with
  | EmptyString => if HasPrefix s sep then Some 0%nat else None
  | String _ s' =>
      match LastIndex s' sep with
      | Some i => Some (S i)
      | None => if HasPrefix s sep then Some 0%nat else None
      end
  end.

Definition Contains (s sep : string) : bool :=
  match Index s sep with Some _ => true | None => false end.

Fixpoint Count (s : string) (c : ascii) : nat :=
  match s with
  | EmptyString => 0
  | String d s' => (if Ascii.eqb c d then 1 else 0) + Count s' c
  end.

(** [s[:i]] and [s[i:]] *)
Fixpoint take (i : nat) (s : string) : string :=
  match i, s with
  | S i', String c s' => String c (take i' s')
  | _, _ => EmptyString
  end.

Fixpoint drop (i : nat) (s : string) : string :=
  match i, s with
  | S i', String _ s' => drop i' s'
  | _, _ => s
  end.

Definition HasSuffix (s p : string) : bool :=
  (String.length p <=? String.length s)%nat
  && String.eqb (drop (String.length s - String.length p) s) p.

Definition is_upper (c : ascii) : bool :=
  (65 <=? N_of_ascii c)%N && (N_of_ascii c <=? 90)%N.

Fixpoint ToLower (s : string) : string :=
  match s with
  | EmptyString => EmptyString
  | String c s' =>
      String (if is_upper c then ascii_of_N (N_of_ascii c + 32) else c) (ToLower s')
  end.

End strings.

(** ** Package [net/url]: [Parse], [Hostname] and [String]

    [stripPort] of [authorize.go] is written with these three library
    functions.  The model follows the library's code path by path, in the
    form the library has had since Go 1.19: [Hostname] cuts a valid port at
    the last colon, a URL remembers that it was written without an authority
    ([OmitHost]) and keeps the raw form of its fragment ([RawFragment]).  The
    only thing the model drops is which error a failing [Parse] reports
    ([stripPort] ignores it), so a failure is [None].  A host in square
    brackets is taken as [parseHost] took it in those releases, without the
    later requirement that it be an IPv6 address; no statement below is about
    such hosts. *)
Module url.

Definition byte_in (lo hi c : ascii) : bool :=
  (N_of_ascii lo <=? N_of_ascii c)%N && (N_of_ascii c <=? N_of_ascii hi)%N.

Fixpoint elem (c : ascii) (set : string) : bool :=
  match set with
  | EmptyString => false
  | String d set' => Ascii.eqb c d || elem c set'
  end.

Definition dquote : ascii := ascii_of_N 34.

Definition is_alpha (c : ascii) : bool := byte_in "a" "z" c || byte_in "A" "Z" c.
Definition is_digit (c : ascii) : bool := byte_in "0" "9" c.

Inductive encoding : Type :=
| encodePath | encodePathSegment | encodeHost | encodeZone
| encodeUserPassword | encodeQueryComponent | encodeFragment.

Definition is_host_mode (mode : encoding) : bool :=
  match mode with encodeHost | encodeZone => true | _ => false end.

Definition ishex (c : ascii) : bool :=
  byte_in "0" "9" c || byte_in "a" "f" c || byte_in "A" "F" c.

Definition unhex (c : ascii) : N :=
  if byte_in "0" "9" c then N_of_ascii c - N_of_ascii "0"
  else if byte_in "a" "f" c then N_of_ascii c - N_of_ascii "a" + 10
  else if byte_in "A" "F" c then N_of_ascii c - N_of_ascii "A" + 10
  else 0.

(** [shouldEscape]: must [c] be percent-escaped in the part [mode] of a URL? *)
Definition shouldEscape (c : ascii) (mode : encoding) : bool :=
  if is_alpha c || is_digit c then false
  else if is_host_mode mode && (elem c "!$&'()*+,;=:[]<>" || Ascii.eqb c dquote) then false
  else if elem c "-_.~" then false
  else if elem c "$&+,/:;=?@" then
    match mode with
    | encodePath => Ascii.eqb c "?"
    | encodePathSegment => elem c "/;,?"
    | encodeUserPassword => elem c "@/?:"
    | encodeQueryComponent => true
    | encodeFragment => false
    | encodeHost | encodeZone => true
    end
  else if match mode with encodeFragment => elem c "!()*" | _ => false end then false
  else true.

Definition unhex2 (h1 h2 : ascii) : ascii :=
  ascii_of_N (N.lor (N.shiftl (unhex h1) 4) (unhex h2)).

(** [unescape]: [None] is Go's [EscapeError] or [InvalidHostError]. *)
Fixpoint unescape (s : string) (mode : encoding) : option string :=
  match s with
  | EmptyString => Some EmptyString
  | String c rest =>
      if Ascii.eqb c "%" then
        match rest with
        | String h1 (String h2 rest') =>
            let is25 := Ascii.eqb h1 "2" && Ascii.eqb h2 "5" in
            if negb (ishex h1 && ishex h2) then None
            else if match mode with
                    | encodeHost => (unhex h1 <? 8)%N && negb is25
                    | encodeZone =>
                        negb is25 && negb (Ascii.eqb (unhex2 h1 h2) " ")
                        && shouldEscape (unhex2 h1 h2) encodeHost
                    | _ => false
                    end then None
            else String (unhex2 h1 h2) <$> unescape rest' mode
        | _ => None
        end
      else if Ascii.eqb c "+" then
        String (match mode with encodeQueryComponent => " " | _ => "+" end)%char
          <$> unescape rest mode
      else if is_host_mode mode && (N_of_ascii c <? 128)%N && shouldEscape c encodeHost
      then None
      else String c <$> unescape rest mode
  end.

Definition upperhex (n : N) : ascii :=
  match String.get (N.to_nat n) "0123456789ABCDEF" with
  | Some c => c
  | None => "0"%char
  end.

Fixpoint escape (s : string) (mode : encoding) : string :=
  match s with
  | EmptyString => EmptyString
  | String c rest =>
      if Ascii.eqb c " " && match mode with encodeQueryComponent => true | _ => false end
      then String "+" (escape rest mode)
      else if shouldEscape c mode then
        String "%" (String (upperhex (N.shiftr (N_of_ascii c) 4))
                      (String (upperhex (N.land (N_of_ascii c) 15)) (escape rest mode)))
      else String c (escape rest mode)
  end.

Record Userinfo : Type := mkUserinfo {
  username : string;
  password : string;
  passwordSet : bool;
}.

Record URL : Type := mkURL {
  Scheme : string;
  Opaque : string;
  User : option Userinfo;
  Host : string;
  Path : string;
  RawPath : string;
  OmitHost : bool;
  ForceQuery : bool;
  RawQuery : string;
  Fragment : string;
  RawFragment : string;
}.

(** [split(s, c, cutc)] *)
Definition split (s c : string) (cutc : bool) : string * string :=
  match strings.Index s c with
  | None => (s, "")
  | Some i =>
      (strings.take i s,
       strings.drop (if cutc then i + String.length c else i)%nat s)
  end.

(** [getscheme]: [Some (scheme, rest)], or [None] for "missing protocol scheme". *)
Fixpoint getscheme_from (i : nat) (rawurl suffix : string) : option (string * string) :=
  match suffix with
  | EmptyString => Some ("", rawurl)
  | String c suffix' =>
      if is_alpha c then getscheme_from (S i) rawurl suffix'
      else if is_digit c || elem c "+-." then
        match i with
        | O => Some ("", rawurl)
        | S _ => getscheme_from (S i) rawurl suffix'
        end
      else if Ascii.eqb c ":" then
        match i with
        | O => None
        | S _ => Some (strings.take i rawurl, suffix')
        end
      else Some ("", rawurl)
  end.

Definition getscheme (rawurl : string) : option (string * string) :=
  getscheme_from 0 rawurl rawurl.

Fixpoint all_bytes (p : ascii -> bool) (s : string) : bool :=
  match s with
  | EmptyString => true
  | String c s' => p c && all_bytes p s'
  end.

Definition stringContainsCTLByte (s : string) : bool :=
  negb (all_bytes (fun c => negb ((N_of_ascii c <? 32)%N || (N_of_ascii c =? 127)%N)) s).

Definition validOptionalPort (port : string) : bool :=
  match port with
  | EmptyString => true
  | String c digits => Ascii.eqb c ":" && all_bytes is_digit digits
  end.

Definition validUserinfo (s : string) : bool :=
  all_bytes (fun c => is_alpha c || is_digit c || elem c "-._:~!$&'()*+,;=%@") s.

Definition validEncodedPath (s : string) : bool :=
  all_bytes (fun c => elem c "!$&'()*+,;=:@[]%" || negb (shouldEscape c encodePath)) s.

(** [validEncoded(s, mode)] *)
Definition validEncoded (s : string) (mode : encoding) : bool :=
  all_bytes (fun c => elem c "!$&'()*+,;=:@[]%" || negb (shouldEscape c mode)) s.

Definition parseHost (host : string) : option string :=
  if strings.HasPrefix host "[" then
    match strings.LastIndex host "]" with
    | None => None
    | Some i =>
        if negb (validOptionalPort (strings.drop (S i) host)) then None
        else
          match strings.Index (strings.take i host) "%25" with
          | Some zone =>
              host1 ← unescape (strings.take zone host) encodeHost;
              host2 ← unescape (strings.drop zone (strings.take i host)) encodeZone;
              host3 ← unescape (strings.drop i host) encodeHost;
              Some (host1 +:+ host2 +:+ host3)
          | None => unescape host encodeHost
          end
    end
  else
    match strings.LastIndex host ":" with
    | Some i =>
        if negb (validOptionalPort (strings.drop i host)) then None
        else unescape host encodeHost
    | None => unescape host encodeHost
    end.

Definition parseUserinfo (userinfo : string) : option Userinfo :=
  if negb (validUserinfo userinfo) then None
  else if negb (strings.Contains userinfo ":") then
    u ← unescape userinfo encodeUserPassword;
    Some (mkUserinfo u "" false)
  else
    let '(username, password) := split userinfo ":" true in
    u ← unescape username encodeUserPassword;
    p ← unescape password encodeUserPassword;
    Some (mkUserinfo u p true).

Definition parseAuthority (authority : string) : option (option Userinfo * string) :=
  match strings.LastIndex authority "@" with
  | None => host ← parseHost authority; Some (None, host)
  | Some i =>
      host ← parseHost (strings.drop (S i) authority);
      user ← parseUserinfo (strings.take i authority);
      Some (Some user, host)
  end.

(** [URL.setPath] *)
Definition setPath (u : URL) (p : string) : option URL :=
  path ← unescape p encodePath;
  Some (mkURL (Scheme u) (Opaque u) (User u) (Host u) path
          (if String.eqb p (escape path encodePath) then "" else p)
          (OmitHost u) (ForceQuery u) (RawQuery u) (Fragment u) (RawFragment u)).

(** [URL.setFragment] *)
Definition setFragment (u : URL) (f : string) : option URL :=
  frag ← unescape f encodeFragment;
  Some (mkURL (Scheme u) (Opaque u) (User u) (Host u) (Path u) (RawPath u)
          (OmitHost u) (ForceQuery u) (RawQuery u) frag
          (if String.eqb f (escape frag encodeFragment) then "" else f)).

(** [parse(rawurl, viaRequest = false)] *)
Definition parse (rawurl : string) : option URL :=
  if stringContainsCTLByte rawurl then None
  else if String.eqb rawurl "*" then
    Some (mkURL "" "" None "" "*" "" false false "" "" "")
  else
    '(scheme, rest) ← getscheme rawurl;
    let scheme := strings.ToLower scheme in
    let '(rest, forceQuery, rawQuery) :=
      if strings.HasSuffix rest "?" && (strings.Count rest "?" =? 1)%nat
      then (strings.take (String.length rest - 1) rest, true, "")
      else let '(r, q) := split rest "?" true in (r, false, q) in
    let u := mkURL scheme "" None "" "" "" false forceQuery rawQuery "" "" in
    if negb (strings.HasPrefix rest "/") && negb (String.eqb scheme "") then
      Some (mkURL scheme rest None "" "" "" false forceQuery rawQuery "" "")
    else if negb (strings.HasPrefix rest "/")
            && match strings.Index rest ":", strings.Index rest "/" with
               | Some colon, Some slash => (colon <? slash)%nat
               | Some _, None => true
               | None, _ => false
               end then None
    else if (negb (String.eqb scheme "") || negb (strings.HasPrefix rest "///"))
            && strings.HasPrefix rest "//" then
      let '(authority, rest) := split (strings.drop 2 rest) "/" false in
      '(user, host) ← parseAuthority authority;
      setPath (mkURL scheme "" user host "" "" false forceQuery rawQuery "" "") rest
    else if negb (String.eqb scheme "") && strings.HasPrefix rest "/" then
      setPath (mkURL scheme "" None "" "" "" true forceQuery rawQuery "" "") rest
    else setPath u rest.

(** [url.Parse] *)
Definition Parse (rawurl : string) : option URL :=
  let '(u, frag) := split rawurl "#" true in
  url ← parse u;
  if String.eqb frag "" then Some url
  else setFragment url frag.

(** [splitHostPort]: a valid port is cut at the last colon, and the
    brackets of an IPv6 literal are removed. *)
Definition splitHostPort (hostPort : string) : string * string :=
  let '(host, port) :=
    match strings.LastIndex hostPort ":" with
    | Some colon =>
        if validOptionalPort (strings.drop colon hostPort)
        then (strings.take colon hostPort, strings.drop (S colon) hostPort)
        else (hostPort, "")
    | None => (hostPort, "")
    end in
  (if strings.HasPrefix host "[" && strings.HasSuffix host "]"
   then strings.take (String.length host - 2) (strings.drop 1 host)
   else host,
   port).

(** [URL.Hostname] *)
Definition Hostname (u : URL) : string := (splitHostPort (Host u)).1.

Definition Userinfo_String (ui : Userinfo) : string :=
  escape (username ui) encodeUserPassword
  +:+ (if passwordSet ui then ":" +:+ escape (password ui) encodeUserPassword else "").

(** [URL.EscapedFragment] *)
Definition EscapedFragment (u : URL) : string :=
  if negb (String.eqb (RawFragment u) "") && validEncoded (RawFragment u) encodeFragment
     && match unescape (RawFragment u) encodeFragment with
        | Some f => String.eqb f (Fragment u)
        | None => false
        end
  then RawFragment u
  else escape (Fragment u) encodeFragment.

Definition EscapedPath (u : URL) : string :=
  if negb (String.eqb (RawPath u) "") && validEncodedPath (RawPath u)
     && match unescape (RawPath u) encodePath with
        | Some p => String.eqb p (Path u)
        | None => false
        end
  then RawPath u
  else if String.eqb (Path u) "*" then "*"
  else escape (Path u) encodePath.

Definition is_Some_b {A} (o : option A) : bool :=
  match o with Some _ => true | None => false end.

(** [URL.String] *)
Definition String_ (u : URL) : string :=
  let buf0 := if String.eqb (Scheme u) "" then "" else Scheme u +:+ ":" in
  let buf1 :=
    if negb (String.eqb (Opaque u) "") then buf0 +:+ Opaque u
    else
      let has_host := negb (String.eqb (Host u) "") in
      let auth :=
        if negb (String.eqb (Scheme u) "") || has_host || is_Some_b (User u) then
          if OmitHost u && negb has_host && negb (is_Some_b (User u)) then ""
          else
            (if has_host || negb (String.eqb (Path u) "") || is_Some_b (User u)
             then "//" else "")
            +:+ match User u with Some ui => Userinfo_String ui +:+ "@" | None => "" end
            +:+ (if has_host then escape (Host u) encodeHost else "")
        else "" in
      let buf := buf0 +:+ auth in
      let path := EscapedPath u in
      let buf :=
        if negb (String.eqb path "") && negb (strings.HasPrefix path "/") && has_host
        then buf +:+ "/" else buf in
      let buf :=
        if String.eqb buf ""
           && match strings.Index path ":" with
              | Some i => negb (strings.Contains (strings.take i path) "/")
              | None => false
              end
        then buf +:+ "./" else buf in
      buf +:+ path in
  let buf2 :=
    if ForceQuery u || negb (String.eqb (RawQuery u) "")
    then buf1 +:+ "?" +:+ RawQuery u else buf1 in
  if String.eqb (Fragment u) "" then buf2
  else buf2 +:+ "#" +:+ EscapedFragment u.

End url.

(** ** A monad for Go function bodies

    [M St Ev X A] is a computation over a mutable state [St] that logs events
    [Ev] (the calls it makes to collaborators) and either yields an [A] or
    leaves the enclosing function early with an [X] (Go's [return] in the
    middle of a body). *)
Section Monad.
Context {St Ev X : Type}.

Definition M (A : Type) : Type := St -> (A + X) * St * list Ev.

Definition ret {A} (a : A) : M A := fun s => (inl a, s, []).

Definition bind {A B} (m : M A) (k : A -> M B) : M B :=
  fun s =>
    match m s with
    | (inl a, s', l) => let '(r, s'', l') := k a s' in (r, s'', l ++ l')
    | (inr x, s', l) => (inr x, s', l)
    end.

(** [return x] out of the function body *)
Definition exit {A} (x : X) : M A := fun s => (inr x, s, []).

Definition get : M St := fun s => (inl s, s, []).
Definition put (s : St) : M unit := fun _ => (inl tt, s, []).
Definition emit (e : Ev) : M unit := fun s => (inl tt, s, [e]).

(** [if c { return x }] *)
Definition exit_if (c : bool) (x : X) : M unit :=
  if c then exit x else ret tt.

(** [v, err := f(); if err != nil { return handler(err) }] *)
Definition try {A} (r : result A) (handler : error -> X) : M A :=
  match r with
  | Ok a => ret a
  | Err e => exit (handler e)
  end.

End Monad.
Arguments M : clear implicits.

Notation "x <- m ;; k" := (bind m (fun x => k))
  (at level 20, m at level 99, k at level 200, only parsing).
Notation "' x <- m ;; k" := (bind m (fun x => k))
  (at level 20, x pattern, m at level 99, k at level 200, only parsing).

(** Running a body whose normal and early results have the same type. *)
Definition run {St Ev A} (m : M St Ev A A) (s : St) : A * St * list Ev :=
  match m s with
  | (inl a, s', l) => (a, s', l)
  | (inr a, s', l) => (a, s', l)
  end.

(** ** Package [time]

    A [Time] is an instant: whole seconds since January 1 of year 1 (an
    [int64], as the library keeps them) and the nanoseconds within the
    second.  The monotonic clock reading plays no part here: [time.Unix]
    carries none, so [Before] compares wall-clock instants. *)
Module time.

(** The value of an [int64] after an addition that may wrap around. *)
Definition wrap64 (z : Z) : Z :=
  ((z + 9223372036854775808) mod 18446744073709551616 - 9223372036854775808)%Z.

Record Time : Type := mkTime {
  sec : Z;
  nsec : Z;
}.

Definition unixToInternal : Z := 62135596800.

(** [time.Unix(sec, nsec)] for [0 <= nsec < 1e9] *)
Definition Unix (s ns : Z) : Time := mkTime (wrap64 (s + unixToInternal)) ns.

(** [t.Before(u)] *)
Definition Before (t u : Time) : bool :=
  (sec t <? sec u)%Z || ((sec t =? sec u)%Z && (nsec t <? nsec u)%Z).

(** [t.Unix()] *)
Definition Unix_of (t : Time) : Z := wrap64 (sec t - unixToInternal).

End time.

(** ** Package [jose]: registered claims and the unverified token parse *)
Module jose.

(** [jose.NumericDate] is an [int64] count of seconds; 0 means "not set". *)
Definition NumericDate : Type := Z.
(** [n.Time()] *)
Definition NumericDate_Time (n : NumericDate) : time.Time := time.Unix n 0.

Record Claims : Type := mkClaims {
  Issuer : string;
  Subject : string;
  Audience : list string;
  Expiry : NumericDate;
  NotBefore : NumericDate;
  IssuedAt : NumericDate;
  ID : string;
}.

(** The two library calls [Authorize] makes before any check of its own: the
    structural parse of the compact serialization, and the read of the
    payload without signature verification.  [C] is the claims structure
    the payload is read into. *)
Class Lib (C : Type) : Type := {
  JSONWebToken : Type;
  ParseSigned : string -> result JSONWebToken;
  UnsafeClaimsWithoutVerification : JSONWebToken -> result C;
}.

End jose.

(** ** Package [provisioner]: what [Authorize] uses of it *)
Module provisioner.

(** Modelled from the spec: the provisioner kinds.  Package [provisioner] is
    not among the sources; the spec names a single-use-token kind (JWK) and
    an audience-bound kind (OIDC) and leaves the set open, which [TypeOther]
    stands for. *)
Inductive Type_ : Type :=
| TypeJWK
| TypeOIDC
| TypeOther (tag : nat).

Definition Type_eqb (a b : Type_) : bool :=
  match a, b with
  | TypeJWK, TypeJWK | TypeOIDC, TypeOIDC => true
  | TypeOther m, TypeOther n => Nat.eqb m n
  | _, _ => false
  end.

(** [provisioner.Interface], with [SignOption] opaque *)
Record Interface (SignOption : Type) : Type := mkInterface {
  GetName : string;
  GetType : Type_;
  Authorize : string -> result (list SignOption);
}.
Arguments mkInterface {SignOption}.
Arguments GetName {SignOption}.
Arguments GetType {SignOption}.
Arguments Authorize {SignOption}.

Definition SSHUserCert : string := "user".
Definition SSHHostCert : string := "host".

End provisioner.

(** ** [authority/authorize.go] *)
Module authority.

Record idUsed : Type := mkIdUsed {
  UsedAt : Z;
  idSubject : string;
}.

(** [Claims] extends [jose.Claims] with step attributes. *)
Record Claims : Type := mkClaims {
  Claims_ : jose.Claims;
  SANs : list string;
  Email : string;
  Nonce : string;
}.

(** [stripPort]: [url.Parse], then [u.Host = u.Hostname()], then
    [u.String()]; the argument itself when parsing fails. *)
Definition stripPort (rawurl : string) : string :=
  match url.Parse rawurl with
  | None => rawurl
  | Some u =>
      url.String_
        (url.mkURL (url.Scheme u) (url.Opaque u) (url.User u) (url.Hostname u)
           (url.Path u) (url.RawPath u) (url.OmitHost u) (url.ForceQuery u)
           (url.RawQuery u) (url.Fragment u) (url.RawFragment u))
  end.

(** The inner loop of [matchesAudience]: [for _, a := range as]. *)
Fixpoint matchesAudience_inner (b : string) (as_ : list string) : bool :=
  match as_ with
  | [] => false
  | a :: as' =>
      if String.eqb b a || String.eqb (stripPort a) (stripPort b) then true
      else matchesAudience_inner b as'
  end.

(** The outer loop: [for _, b := range bs]. *)
Fixpoint matchesAudience_outer (as_ bs : list string) : bool :=
  match bs with
  | [] => false
  | b :: bs' =>
      if matchesAudience_inner b as_ then true
      else matchesAudience_outer as_ bs'
  end.

(** [matchesAudience] returns true if A and B share at least one element. *)
Definition matchesAudience (as_ bs : list string) : bool :=
  if (length bs =? 0)%nat || (length as_ =? 0)%nat then false
  else matchesAudience_outer as_ bs.

Section Authorize.
Context {SignOption : Type} `{JL : jose.Lib Claims}.

Local Abbreviation Provisioner := (provisioner.Interface SignOption).

Record AuthConfig : Type := mkAuthConfig {
  DisableIssuedAtCheck : bool;
}.

Record Config : Type := mkConfig {
  AuthorityConfig : option AuthConfig;
}.

(** [provisioner.Collection], of which only [LoadByToken] is used *)
Record Collection : Type := mkCollection {
  LoadByToken : jose.JSONWebToken -> jose.Claims -> option Provisioner;
}.

Record Authority : Type := mkAuthority {
  config : Config;
  startTime : time.Time;
  provisioners : Collection;
  ottMap : gmap string idUsed;
}.

Definition set_ottMap (a : Authority) (m : gmap string idUsed) : Authority :=
  mkAuthority (config a) (startTime a) (provisioners a) m.

(** What [Authorize] does to its collaborators, in order. *)
Inductive Event : Type :=
| EvLoadOrStore (key : string) (value : idUsed) (loaded : bool)
| EvProvisionerAuthorize (p : Provisioner) (ott : string).

(** [sync.Map.LoadOrStore]: one atomic step on the map. *)
Definition LoadOrStore (m : gmap string idUsed) (key : string) (value : idUsed)
  : gmap string idUsed * idUsed * bool :=
  match m !! key with
  | Some actual => (m, actual, true)
  | None => (<[key := value]> m, value, false)
  end.

Definition ottMap_LoadOrStore (key : string) (value : idUsed)
  : M Authority Event error bool :=
  a <- get ;;
  let '(m, _, loaded) := LoadOrStore (ottMap a) key value in
  _ <- put (set_ottMap a m) ;;
  _ <- emit (EvLoadOrStore key value loaded) ;;
  ret loaded.

Definition errContext (ott : string) : gmap string string := {[ "ott" := ott ]}.

(** The two nested conditions of lines 76-77: the check is configured and
    not disabled, and the token has a positive issued-at that lies before the
    start of the CA. *)
Definition issuedAtCheck (a : Authority) : bool :=
  match AuthorityConfig (config a) with
  | Some ac => negb (DisableIssuedAtCheck ac)
  | None => false
  end.

Definition issuedBeforeStart (a : Authority) (claims : Claims) : bool :=
  (jose.IssuedAt (Claims_ claims) >? 0)%Z
  && time.Before (jose.NumericDate_Time (jose.IssuedAt (Claims_ claims))) (startTime a).

(** Lines 59-89 of [Authorize]: parse, read the claims without verification,
    the issued-at check, the provisioner lookup.  Nothing here writes. *)
Definition Authorize_route (ott : string)
  : M Authority Event error (Provisioner * Claims) :=
  token <- try (jose.ParseSigned ott)
             (fun err => apiError (errors_Wrap err "authorize: error parsing token")
                           StatusUnauthorized (errContext ott)) ;;
  claims <- try (jose.UnsafeClaimsWithoutVerification token)
              (fun err => apiError err StatusUnauthorized (errContext ott)) ;;
  a <- get ;;
  _ <- exit_if (issuedAtCheck a && issuedBeforeStart a claims)
         (apiError (errors_New "token issued before the bootstrap of certificate authority")
            StatusUnauthorized (errContext ott)) ;;
  match LoadByToken (provisioners a) token (Claims_ claims) with
  | None =>
      exit (apiError (errors_New "authorize: provisioner not found")
              StatusUnauthorized (errContext ott))
  | Some p => ret (p, claims)
  end.

(** Lines 91-101: store the token to protect against reuse. *)
Definition Authorize_replay (ott : string) (now : time.Time)
    (p : Provisioner) (claims : Claims) : M Authority Event error unit :=
  if provisioner.Type_eqb (provisioner.GetType p) provisioner.TypeJWK
     && negb (String.eqb (jose.ID (Claims_ claims)) "")
  then
    ok <- ottMap_LoadOrStore (jose.ID (Claims_ claims))
            (mkIdUsed (time.Unix_of now) (jose.Subject (Claims_ claims))) ;;
    exit_if ok
      (apiError (errors_New "token already used") StatusUnauthorized (errContext ott))
  else ret tt.

(** Line 103: [return p.Authorize(ott)]. *)
Definition Authorize_delegate (ott : string) (p : Provisioner)
  : M Authority Event error (list SignOption) :=
  _ <- emit (EvProvisionerAuthorize p ott) ;;
  try (provisioner.Authorize p ott) (fun err => err).

(** [Authorize] authorizes a signature request by validating and
    authenticating a OTT that must be sent w/ the request.  [now] is what
    [time.Now()] reads during this call. *)
Definition Authorize_body (ott : string) (now : time.Time)
  : M Authority Event error (list SignOption) :=
  '(p, claims) <- Authorize_route ott ;;
  _ <- Authorize_replay ott now p claims ;;
  Authorize_delegate ott p.

Definition Authorize (a : Authority) (ott : string) (now : time.Time)
  : result (list SignOption) * Authority * list Event :=
  match Authorize_body ott now a with
  | (inl opts, a', log) => (Ok opts, a', log)
  | (inr err, a', log) => (Err err, a', log)
  end.

(** The authority after a sequence of [Authorize] calls, one after the
    other; each call comes with its token and its clock reading. *)
Definition after_calls (a : Authority) (calls : list (string * time.Time)) : Authority :=
  fold_left (fun a c => (Authorize a c.1 c.2).1.2) calls a.

Definition set_startTime (a : Authority) (t : time.Time) : Authority :=
  mkAuthority (config a) t (provisioners a) (ottMap a).

(** Two authorities that differ at most in the replay guard. *)
Definition same_setup (a a' : Authority) : Prop :=
  config a = config a' /\ startTime a = startTime a' /\ provisioners a = provisioners a'.

(** *** Concurrent requests

    Every request runs [Authorize] on a goroutine of its own against the one
    [Authority].  The fields read before the replay guard are never written
    after start-up, and the guard touches the shared map in a single atomic
    [LoadOrStore]; so a goroutine moves in three steps (route, guard,
    delegate) and an execution is an interleaving of such steps.  A goroutine
    keeps the log of its own calls. *)
Inductive Thread : Type :=
| TStart (ott : string) (now : time.Time)
| TRouted (ott : string) (now : time.Time) (p : Provisioner) (claims : Claims)
| TGuarded (ott : string) (p : Provisioner)
| TDone (r : result (list SignOption)).

Definition thread_body (t : Thread) : M Authority Event error Thread :=
  match t with
  | TStart ott now =>
      '(p, claims) <- Authorize_route ott ;; ret (TRouted ott now p claims)
  | TRouted ott now p claims =>
      _ <- Authorize_replay ott now p claims ;; ret (TGuarded ott p)
  | TGuarded ott p =>
      opts <- Authorize_delegate ott p ;; ret (TDone (Ok opts))
  | TDone r => ret (TDone r)
  end.

Definition thread_step (a : Authority) (t : Thread) : Thread * Authority * list Event :=
  match thread_body t a with
  | (inl t', a', l) => (t', a', l)
  | (inr err, a', l) => (TDone (Err err), a', l)
  end.

Record Pool : Type := mkPool {
  shared : Authority;
  threads : list (Thread * list Event);
}.

(** Goroutine [i] takes its next step. *)
Definition pool_step (P : Pool) (i : nat) : Pool :=
  match threads P !! i with
  | None => P
  | Some (t, evs) =>
      let '(t', a', l) := thread_step (shared P) t in
      mkPool a' (<[i := (t', evs ++ l)]> (threads P))
  end.

(** A schedule names the goroutine that moves at each step. *)
Definition run_schedule (P : Pool) (schedule : list nat) : Pool :=
  fold_left pool_step schedule P.

Definition start_pool (a : Authority) (requests : list (string * time.Time)) : Pool :=
  mkPool a ((fun r => (TStart r.1 r.2, [])) <$> requests).

Definition is_done (t : Thread * list Event) : bool :=
  match t.1 with TDone _ => true | _ => false end.

(** The steps a goroutine has still to take, at most. *)
Definition steps_left (t : Thread) : nat :=
  match t with
  | TStart _ _ => 3
  | TRouted _ _ _ _ => 2
  | TGuarded _ _ => 1
  | TDone _ => 0
  end.

Definition pool_steps_left (P : Pool) (i : nat) : nat :=
  match threads P !! i with
  | Some (t, _) => steps_left t
  | None => 0
  end.

(** The number of steps a schedule gives to goroutine [i]. *)
Fixpoint turns (i : nat) (schedule : list nat) : nat :=
  match schedule with
  | [] => 0
  | j :: schedule => (if Nat.eqb i j then 1 else 0) + turns i schedule
  end.

(** A schedule is fair to [n] goroutines when it gives each of them the
    three steps a request takes at most, in whatever order. *)
Definition fair (n : nat) (schedule : list nat) : bool :=
  forallb (fun i => Nat.leb 3 (turns i schedule)) (seq 0 n).

(** One fair schedule: three rounds in the order of arrival. *)
Definition round_robin (n : nat) : list nat := seq 0 n ++ seq 0 n ++ seq 0 n.

(** Does a request present a token that [Authorize] routes to a provisioner
    of the JWK kind and whose id is [id]? *)
Definition submits (a : Authority) (id : string) (ott : string) : bool :=
  match Authorize_route ott a with
  | (inl (p, claims), _, _) =>
      provisioner.Type_eqb (provisioner.GetType p) provisioner.TypeJWK
      && String.eqb (jose.ID (Claims_ claims)) id
  | _ => false
  end.

(** The record [Authorize] stores for a token at clock reading [now]. *)
Definition usage (claims : Claims) (now : time.Time) : idUsed :=
  mkIdUsed (time.Unix_of now) (jose.Subject (Claims_ claims)).

(** Is the replay guard applied to a token routed to [p] with [claims]? *)
Definition guarded (p : Provisioner) (claims : Claims) : bool :=
  provisioner.Type_eqb (provisioner.GetType p) provisioner.TypeJWK
  && negb (String.eqb (jose.ID (Claims_ claims)) "").

(** The id under which the replay guard records a token, for the tokens it
    applies to: those routed to a JWK provisioner with a non-empty id. *)
Definition guarded_id (a : Authority) (ott : string) : option string :=
  match Authorize_route ott a with
  | (inl (p, claims), _, _) =>
      if guarded p claims then Some (jose.ID (Claims_ claims)) else None
  | _ => None
  end.

(** A goroutine has won the race for [id] when its own [LoadOrStore] of [id]
    stored the record. *)
Definition won (id : string) (evs : list Event) : Prop :=
  exists value, EvLoadOrStore id value false ∈ evs.

(** What is known of the goroutine that serves the request [(ott, now)]
    against the authority [a], in each of its states: where it stands in
    [Authorize] and what it has logged so far. *)
Definition thread_inv (a : Authority) (ott : string) (now : time.Time)
    (t : Thread) (evs : list Event) : Prop :=
  match t with
  | TStart ott' now' => ott' = ott /\ now' = now /\ evs = []
  | TRouted ott' now' p claims =>
      ott' = ott /\ now' = now /\ evs = []
      /\ Authorize_route ott a = (inl (p, claims), a, [])
  | TGuarded ott' p =>
      ott' = ott
      /\ exists claims,
           Authorize_route ott a = (inl (p, claims), a, [])
           /\ evs = if guarded p claims
                    then [EvLoadOrStore (jose.ID (Claims_ claims)) (usage claims now) false]
                    else []
  | TDone r =>
      (exists err, Authorize_route ott a = (inr err, a, []) /\ r = Err err /\ evs = [])
      \/ (exists p claims,
            Authorize_route ott a = (inl (p, claims), a, [])
            /\ guarded p claims = true
            /\ r = Err (apiError (errors_New "token already used") StatusUnauthorized
                          (errContext ott))
            /\ evs = [EvLoadOrStore (jose.ID (Claims_ claims)) (usage claims now) true])
      \/ (exists p claims,
            Authorize_route ott a = (inl (p, claims), a, [])
            /\ r = provisioner.Authorize p ott
            /\ evs = (if guarded p claims
                      then [EvLoadOrStore (jose.ID (Claims_ claims)) (usage claims now) false]
                      else [])
                     ++ [EvProvisionerAuthorize p ott])
  end.

(** The invariant of a pool that serves [requests] against an authority
    that started as [a], with respect to one token id. *)
Record pool_inv (a : Authority) (id : string) (requests : list (string * time.Time))
    (P : Pool) : Prop := mkPoolInv {
  inv_setup : same_setup a (shared P);
  inv_length : length (threads P) = length requests;
  inv_threads :
    forall i ott now, requests !! i = Some (ott, now) ->
      exists t evs, threads P !! i = Some (t, evs) /\ thread_inv a ott now t evs;
  inv_recorded :
    forall i t evs value loaded,
      threads P !! i = Some (t, evs) -> EvLoadOrStore id value loaded ∈ evs ->
      is_Some (ottMap (shared P) !! id);
  inv_unique :
    forall i j ti tj evi evj,
      threads P !! i = Some (ti, evi) -> threads P !! j = Some (tj, evj) ->
      won id evi -> won id evj -> i = j;
  inv_winner :
    is_Some (ottMap (shared P) !! id) ->
    exists w t evs, threads P !! w = Some (t, evs) /\ won id evs;
}.

(** The records the goroutines of a pool have stored: a [LoadOrStore] that
    found the key free is in the log of one of them. *)
Definition stored_by_request (P : Pool) (key : string) (value : idUsed) : Prop :=
  exists w t evs,
    threads P !! w = Some (t, evs) /\ EvLoadOrStore key value false ∈ evs.

(** The guard of a pool holds what it held at the start and what the
    goroutines have stored, and nothing else. *)
Definition guard_inv (a : Authority) (P : Pool) : Prop :=
  forall k v,
    ottMap (shared P) !! k = Some v
    <-> ottMap a !! k = Some v \/ stored_by_request P k v.

End Authorize.
End authority.

(** ** Package [encoding/base64]: [StdEncoding] *)
Module base64.

Definition encodeStd : string :=
  "ABCDEFGHIJKLMNOPQRSTUVWXYZabcdefghijklmnopqrstuvwxyz0123456789+/".

Definition padChar : ascii := "="%char.

(** [enc.encode[v]] *)
Definition encode (v : N) : ascii :=
  match String.get (N.to_nat v) encodeStd with
  | Some c => c
  | None => "A"%char
  end.

Fixpoint find_from (i : N) (c : ascii) (s : string) : option N :=
  match s with
  | EmptyString => None
  | String d s' => if Ascii.eqb c d then Some i else find_from (i + 1) c s'
  end.

(** [enc.decodeMap[c]]: the 6-bit value of [c], 0xFF outside the alphabet. *)
Definition decodeMap (c : ascii) : N :=
  match find_from 0 c encodeStd with
  | Some i => i
  | None => 255
  end.

(** A group of three source bytes as one 24-bit value. *)
Definition val3 (b0 b1 b2 : ascii) : N :=
  N.lor (N.lor (N.shiftl (N_of_ascii b0) 16) (N.shiftl (N_of_ascii b1) 8)) (N_of_ascii b2).

Definition sextet (val : N) (shift : N) : ascii :=
  encode (N.land (N.shiftr val shift) 63).

(** [StdEncoding.EncodeToString] *)
Fixpoint EncodeToString (src : string) : string :=
  match src with
  | EmptyString => EmptyString
  | String b0 EmptyString =>
      let val := N.shiftl (N_of_ascii b0) 16 in
      String (sextet val 18) (String (sextet val 12)
        (String padChar (String padChar EmptyString)))
  | String b0 (String b1 EmptyString) =>
      let val := N.lor (N.shiftl (N_of_ascii b0) 16) (N.shiftl (N_of_ascii b1) 8) in
      String (sextet val 18) (String (sextet val 12)
        (String (sextet val 6) (String padChar EmptyString)))
  | String b0 (String b1 (String b2 rest)) =>
      let val := val3 b0 b1 b2 in
      String (sextet val 18) (String (sextet val 12)
        (String (sextet val 6) (String (sextet val 0) (EncodeToString rest))))
  end.

Definition is_newline (c : ascii) : bool :=
  (N_of_ascii c =? 10)%N || (N_of_ascii c =? 13)%N.

Fixpoint skip_newlines (s : string) : string :=
  match s with
  | String c s' => if is_newline c then skip_newlines s' else s
  | EmptyString => EmptyString
  end.

(** The 24-bit value of a quantum whose digits are [dbuf] (missing digits
    are zero), and its bytes. *)
Definition quantum (dbuf : list N) : N :=
  N.lor (N.lor (N.lor (N.shiftl (nth 0 dbuf 0%N) 18) (N.shiftl (nth 1 dbuf 0%N) 12))
           (N.shiftl (nth 2 dbuf 0%N) 6)) (nth 3 dbuf 0%N).

(** [byte(val >> shift)]: the conversion keeps the low eight bits. *)
Definition byte_of (val shift : N) : ascii :=
  ascii_of_N (N.land (N.shiftr val shift) 255).

(** [Decode]: [decodeQuantum] repeated until the input is used up.  [dbuf]
    holds the digits of the quantum being read.  Line feeds and carriage
    returns are skipped, padding is required and only accepted at the end,
    trailing bits are not checked (the encoding is not strict).  [None] is
    [CorruptInputError]. *)
Fixpoint Decode (src : string) (dbuf : list N) : option string :=
  match src with
  | EmptyString => match dbuf with [] => Some EmptyString | _ => None end
  | String c rest =>
      if negb (decodeMap c =? 255)%N then
        match dbuf with
        | [d0; d1; d2] =>
            let val := quantum [d0; d1; d2; decodeMap c] in
            (fun t => String (byte_of val 16) (String (byte_of val 8)
                        (String (byte_of val 0) t))) <$> Decode rest []
        | _ => Decode rest (dbuf ++ [decodeMap c])
        end
      else if is_newline c then Decode rest dbuf
      else if negb (Ascii.eqb c padChar) then None
      else
        match dbuf with
        | [d0; d1] =>
            match skip_newlines rest with
            | String c' rest' =>
                if Ascii.eqb c' padChar && String.eqb (skip_newlines rest') ""
                then Some (String (byte_of (quantum dbuf) 16) EmptyString)
                else None
            | EmptyString => None
            end
        | [d0; d1; d2] =>
            if String.eqb (skip_newlines rest) ""
            then Some (String (byte_of (quantum dbuf) 16)
                         (String (byte_of (quantum dbuf) 8) EmptyString))
            else None
        | _ => None
        end
  end.

(** [StdEncoding.DecodeString] *)
Definition DecodeString (s : string) : option string := Decode s [].

End base64.

(** ** Package [unicode/utf8], as [encoding/json] uses it *)
Module utf8.

Definition cont (lo hi : N) (c : ascii) : bool :=
  (lo <=? N_of_ascii c)%N && (N_of_ascii c <=? hi)%N.

(** The length (2, 3 or 4) of the well-formed sequence that [s] starts with
    when its first byte is [c0 >= 0x80]; 1 for [RuneError]. *)
Definition seq_len (c0 : ascii) (s : string) : nat :=
  let n := N_of_ascii c0 in
  let '(sz, lo, hi) :=
    if (n <? 194)%N then (1, 0, 0)%N
    else if (n <=? 223)%N then (2, 128, 191)%N
    else if (n =? 224)%N then (3, 160, 191)%N
    else if (n =? 237)%N then (3, 128, 159)%N
    else if (n <=? 239)%N then (3, 128, 191)%N
    else if (n =? 240)%N then (4, 144, 191)%N
    else if (n <=? 243)%N then (4, 128, 191)%N
    else if (n =? 244)%N then (4, 128, 143)%N
    else (1, 0, 0)%N in
  match sz, s with
  | 2%N, String c1 _ => if cont lo hi c1 then 2 else 1
  | 3%N, String c1 (String c2 _) =>
      if cont lo hi c1 && cont 128 191 c2 then 3 else 1
  | 4%N, String c1 (String c2 (String c3 _)) =>
      if cont lo hi c1 && cont 128 191 c2 && cont 128 191 c3 then 4 else 1
  | _, _ => 1
  end%nat.

Definition RuneError : N := 65533.

(** [utf8.EncodeRune] *)
Definition EncodeRune (r : N) : string :=
  let b (n : N) := ascii_of_N n in
  let r := if (55296 <=? r)%N && (r <=? 57343)%N || (1114111 <? r)%N then RuneError else r in
  if (r <? 128)%N then String (b r) ""
  else if (r <? 2048)%N then
    String (b (N.lor 192 (N.shiftr r 6))) (String (b (N.lor 128 (N.land r 63))) "")
  else if (r <? 65536)%N then
    String (b (N.lor 224 (N.shiftr r 12)))
      (String (b (N.lor 128 (N.land (N.shiftr r 6) 63)))
         (String (b (N.lor 128 (N.land r 63))) ""))
  else
    String (b (N.lor 240 (N.shiftr r 18)))
      (String (b (N.lor 128 (N.land (N.shiftr r 12) 63)))
         (String (b (N.lor 128 (N.land (N.shiftr r 6) 63)))
            (String (b (N.lor 128 (N.land r 63))) ""))).

End utf8.

(** ** Package [encoding/json]: [Unmarshal] into a Go [string] *)
Module json.

Definition isSpace (c : ascii) : bool := url.elem c " " || (N_of_ascii c =? 9)%N
  || (N_of_ascii c =? 10)%N || (N_of_ascii c =? 13)%N.

Fixpoint skip_space (s : string) : string :=
  match s with
  | String c s' => if isSpace c then skip_space s' else s
  | EmptyString => EmptyString
  end.

Definition backslash : ascii := "\"%char.

(** [getu4]: the value of a leading [\uXXXX] and what follows it. *)
Definition getu4 (s : string) : option (N * string) :=
  match s with
  | String e (String u (String h1 (String h2 (String h3 (String h4 rest))))) =>
      if Ascii.eqb e backslash && Ascii.eqb u "u"
         && url.ishex h1 && url.ishex h2 && url.ishex h3 && url.ishex h4
      then Some (url.unhex h1 * 4096 + url.unhex h2 * 256 + url.unhex h3 * 16 + url.unhex h4,
                 rest)%N
      else None
  | _ => None
  end.

Definition IsSurrogate (r : N) : bool := (55296 <=? r)%N && (r <? 57344)%N.

(** [utf16.DecodeRune] *)
Definition utf16_DecodeRune (r1 r2 : N) : N :=
  if (55296 <=? r1)%N && (r1 <? 56320)%N && (56320 <=? r2)%N && (r2 <? 57344)%N
  then (N.lor (N.shiftl (r1 - 55296) 10) (r2 - 56320) + 65536)%N
  else utf8.RuneError.

(** The body of a string literal, after its opening quote: the decoded text
    and what follows the closing quote.  [None]: the literal is not valid
    JSON.  Escapes are decoded and text that is not well-formed UTF-8 is
    coerced, as [unquote] does.  [fuel] bounds the number of steps; the
    length of the input is enough. *)
Fixpoint unquote_body (fuel : nat) (s : string) : option (string * string) :=
  match fuel with
  | O => None
  | S fuel' =>
      match s with
      | EmptyString => None
      | String c rest =>
          if Ascii.eqb c url.dquote then Some ("", rest)
          else if (N_of_ascii c <? 32)%N then None
          else if Ascii.eqb c backslash then
            match rest with
            | EmptyString => None
            | String e rest' =>
                if Ascii.eqb e "u" then
                  match getu4 s with
                  | None => None
                  | Some (rr, after) =>
                      let '(rr, after) :=
                        if IsSurrogate rr then
                          match getu4 after with
                          | Some (rr1, after1) =>
                              if (utf16_DecodeRune rr rr1 =? utf8.RuneError)%N
                              then (utf8.RuneError, after)
                              else (utf16_DecodeRune rr rr1, after1)
                          | None => (utf8.RuneError, after)
                          end
                        else (rr, after) in
                      '(t, k) ← unquote_body fuel' after;
                      Some (utf8.EncodeRune rr +:+ t, k)
                  end
                else
                  let simple (d : ascii) :=
                    '(t, k) ← unquote_body fuel' rest';
                    Some (String d t, k) in
                  if Ascii.eqb e url.dquote || Ascii.eqb e backslash || Ascii.eqb e "/"
                  then simple e
                  else if Ascii.eqb e "b" then simple (ascii_of_N 8)
                  else if Ascii.eqb e "f" then simple (ascii_of_N 12)
                  else if Ascii.eqb e "n" then simple (ascii_of_N 10)
                  else if Ascii.eqb e "r" then simple (ascii_of_N 13)
                  else if Ascii.eqb e "t" then simple (ascii_of_N 9)
                  else None
            end
          else if (N_of_ascii c <? 128)%N then
            '(t, k) ← unquote_body fuel' rest;
            Some (String c t, k)
          else
            let n := utf8.seq_len c rest in
            '(t, k) ← unquote_body fuel' (strings.drop n s);
            Some ((if (n =? 1)%nat then utf8.EncodeRune utf8.RuneError
                   else strings.take n s) +:+ t, k)
      end
  end.

(** A byte that stands for itself inside a JSON string literal: printable
    ASCII other than the quote and the backslash. *)
Definition plain (c : ascii) : bool :=
  negb (Ascii.eqb c url.dquote) && negb (N_of_ascii c <? 32)%N
  && negb (Ascii.eqb c backslash) && (N_of_ascii c <? 128)%N.

(** [json.Unmarshal(data, &s)] for a fresh [var s string].  [Some s]: no
    error, and [s] afterwards.  The input must be one JSON value between
    optional white space; [null] leaves [s] empty, a string literal sets it,
    and every other value or text is an error ([None]; a syntax error and a
    type error are not told apart). *)
Definition Unmarshal_string (data : string) : option string :=
  match skip_space data with
  | String c rest =>
      if Ascii.eqb c url.dquote then
        '(t, k) ← unquote_body (String.length rest) rest;
        if String.eqb (skip_space k) "" then Some t else None
      else if strings.HasPrefix (String c rest) "null"
              && String.eqb (skip_space (strings.drop 4 (String c rest))) ""
      then Some ""
      else None
  | EmptyString => None
  end.

End json.

(** ** Package [golang.org/x/crypto/ssh]: what [api/ssh.go] uses of it *)
Module ssh.

(** [ssh.UserCert], [ssh.HostCert] *)
Definition UserCert : Z := 1.
Definition HostCert : Z := 2.

(** The dynamic type of an [ssh.PublicKey]: a certificate, or a bare key of
    one of the library's key types. *)
Inductive PublicKey (K C : Type) : Type :=
| PKKey (k : K)
| PKCert (c : C).
Arguments PKKey {K C} k.
Arguments PKCert {K C} c.

(** The library, as an interface: its key and certificate types, the two
    certificate fields the sign handler reads, the wire serialization and its
    parser.  [Key_GoType k] is the Go type name of [k], as [%T] prints it. *)
Class Lib : Type := {
  Key : Type;
  Certificate : Type;
  CertType : Certificate -> Z;
  ValidPrincipals : Certificate -> list string;
  Certificate_Marshal : Certificate -> string;
  Key_GoType : Key -> string;
  ParsePublicKey : string -> result (PublicKey Key Certificate);
}.

(** [Marshal] of the bare keys, which [Lib] leaves out: the wire
    serialization of a key of one of the library's key types. *)
Class KeyWire `{Lib} : Type := {
  Key_Marshal : Key -> string;
}.

(** [pub.Marshal()] through the interface [ssh.PublicKey] *)
Definition PublicKey_Marshal `{KeyWire} (pub : PublicKey Key Certificate) : string :=
  match pub with
  | PKKey k => Key_Marshal k
  | PKCert c => Certificate_Marshal c
  end.

End ssh.

(** ** [api/ssh.go] *)
Module api.

(** [api.Error] and its constructors are declared in [api/errors.go],
    which is not among the sources: they are parameters of the model.  The
    handlers only choose the constructor; the status line that a constructor
    leads to is settled in that file, and no property below depends on it. *)
Class Errors : Type := {
  Error : Type;
  BadRequest : error -> Error;
  Unauthorized : error -> Error;
  Forbidden : error -> Error;
  NotFound : error -> Error;
  InternalServerError : error -> Error;
}.

(** What a handler writes to its [http.ResponseWriter]: [WriteError(w, e)],
    or a status line followed by [JSON(w, v)]. *)
Inductive Response `{Errors} (P : Type) : Type :=
| WriteError (e : Error)
| JSON (status : Z) (v : P).
Arguments WriteError {_ P} e.
Arguments JSON {_ P} status v.

(** [provisioner.Method], carried by the context given to [Authorize] *)
Inductive Method : Type := SignMethod | SignSSHMethod | RevokeMethod.

Section api.
Context `{SL : ssh.Lib} {SignOption TimeDuration Template : Type}.
Context `{EL : Errors}.

Local Abbreviation PublicKey := (ssh.PublicKey ssh.Key ssh.Certificate).

(** [provisioner.SSHOptions] *)
Record SSHOptions : Type := mkSSHOptions {
  opt_CertType : string;
  opt_Principals : list string;
  opt_ValidAfter : TimeDuration;
  opt_ValidBefore : TimeDuration;
}.

(** [authority.SSHKeys] *)
Record SSHKeys : Type := mkSSHKeys {
  keys_UserKey : option PublicKey;
  keys_HostKey : option PublicKey;
}.

(** The authority behind the handlers: [Authorize] and the [SSHAuthority]
    interface.  A handler calls each method at most once, so a method is
    modelled by the function from its arguments to what that call returns. *)
Record Authority : Type := mkAuthority {
  Authorize : Method -> string -> result (list SignOption);
  SignSSH : PublicKey -> SSHOptions -> list SignOption -> result ssh.Certificate;
  SignSSHAddUser : PublicKey -> ssh.Certificate -> result ssh.Certificate;
  GetSSHKeys : result SSHKeys;
  GetSSHConfig : string -> gmap string string -> result (list Template);
}.

(** The calls a handler makes to the authority, in order. *)
Inductive Call : Type :=
| CallAuthorize (m : Method) (ott : string)
| CallSignSSH (key : PublicKey) (opts : SSHOptions) (signOpts : list SignOption)
| CallSignSSHAddUser (key : PublicKey) (cert : ssh.Certificate)
| CallGetSSHKeys
| CallGetSSHConfig (typ : string) (data : gmap string string).

(** [SignSSHRequest] is the request body of an SSH certificate request.
    [AddUserPublicKey] is [None] for a nil slice. *)
Record SignSSHRequest : Type := mkSignSSHRequest {
  PublicKey_ : string;
  OTT : string;
  CertType : string;
  Principals : list string;
  ValidAfter : TimeDuration;
  ValidBefore : TimeDuration;
  AddUserPublicKey : option string;
}.

(** [Validate] validates the [SignSSHRequest]; [None] is [nil]. *)
Definition SignSSHRequest_Validate (s : SignSSHRequest) : option error :=
  if negb (String.eqb (CertType s) "")
     && negb (String.eqb (CertType s) provisioner.SSHUserCert)
     && negb (String.eqb (CertType s) provisioner.SSHHostCert)
  then Some (errors_New ("unknown certType " +:+ CertType s))
  else if (String.length (PublicKey_ s) =? 0)%nat
  then Some (errors_New "missing or empty publicKey")
  else if (String.length (OTT s) =? 0)%nat
  then Some (errors_New "missing or empty ott")
  else None.

(** [SSHCertificate] represents the response SSH certificate: a struct that
    embeds a [*ssh.Certificate]. *)
Record SSHCertificate : Type := mkSSHCertificate {
  Certificate : option ssh.Certificate;
}.

(** [SignSSHResponse] is the response object that returns the SSH
    certificate. *)
Record SignSSHResponse : Type := mkSignSSHResponse {
  resp_Certificate : SSHCertificate;
  resp_AddUserCertificate : option SSHCertificate;
}.

Definition quote (s : string) : string :=
  String url.dquote s +:+ String url.dquote "".

(** [MarshalJSON] returns a quoted, base64 encoded, openssh wire format
    version of the certificate. *)
Definition SSHCertificate_MarshalJSON (c : SSHCertificate) : result string :=
  match Certificate c with
  | None => Ok "null"
  | Some cert => Ok (quote (base64.EncodeToString (ssh.Certificate_Marshal cert)))
  end.

(** [UnmarshalJSON]: the receiver after the call and the error returned
    ([None] is [nil]).  A failing call leaves the receiver as it was. *)
Definition SSHCertificate_UnmarshalJSON (c : SSHCertificate) (data : string)
  : SSHCertificate * option error :=
  match json.Unmarshal_string data with
  | None =>
      (c, Some (errors_Wrap (library_error "encoding/json") "error decoding certificate"))
  | Some s =>
      if String.eqb s "" then (mkSSHCertificate None, None)
      else
        match base64.DecodeString s with
        | None =>
            (c, Some (errors_Wrap (library_error "encoding/base64")
                        "error decoding ssh certificate"))
        | Some certData =>
            match ssh.ParsePublicKey certData with
            | Err err => (c, Some (errors_Wrap err "error parsing ssh certificate"))
            | Ok (ssh.PKKey k) =>
                (c, Some (errors_New ("error decoding ssh certificate: "
                                      +:+ ssh.Key_GoType k
                                      +:+ " is not an *ssh.Certificate")))
            | Ok (ssh.PKCert cert) => (mkSSHCertificate (Some cert), None)
            end
        end
  end.

(** [SSHConfigRequest] is the request body used to get the SSH configuration
    templates. *)
Record SSHConfigRequest : Type := mkSSHConfigRequest {
  Type_ : string;
  Data : gmap string string;
}.

(** [Validate] checks the values of the [SSHConfigRequest]: the request
    after the call (an empty type is rewritten) and the error returned. *)
Definition SSHConfigRequest_Validate (r : SSHConfigRequest)
  : SSHConfigRequest * option error :=
  if String.eqb (Type_ r) "" then
    (mkSSHConfigRequest provisioner.SSHUserCert (Data r), None)
  else if String.eqb (Type_ r) provisioner.SSHUserCert
          || String.eqb (Type_ r) provisioner.SSHHostCert then (r, None)
  else (r, Some (errors_New ("unsupported type " +:+ Type_ r))).

(** [SSHConfigResponse] is the response that returns the rendered
    templates. *)
Record SSHConfigResponse : Type := mkSSHConfigResponse {
  UserTemplates : list Template;
  HostTemplates : list Template;
}.

(** Lines 282-291 of [SSHConfig]: the switch on the request type that fills
    the response; [None] is its [default] branch. *)
Definition SSHConfig_switch (typ : string) (ts : list Template)
  : option SSHConfigResponse :=
  let config := mkSSHConfigResponse [] [] in
  if String.eqb typ provisioner.SSHUserCert
  then Some (mkSSHConfigResponse ts (HostTemplates config))
  else if String.eqb typ provisioner.SSHHostCert
  then Some (mkSSHConfigResponse ts (HostTemplates config))
  else None.

Definition Handler (P : Type) : Type := M unit Call (Response P) (Response P).

(** A call to the authority: logged, and its error handled at once. *)
Definition call {P A} (c : Call) (r : result A) (handler : error -> Response P)
  : M unit Call (Response P) A :=
  _ <- emit c ;;
  try r handler.

(** [SignSSH] is an HTTP handler that reads an [SignSSHRequest] with a
    one-time-token (ott) from the body and creates a new SSH certificate with
    the information in the request.  [read] is what [ReadJSON(r.Body, &body)]
    produced. *)
Definition SignSSH_body (h : Authority) (read : result SignSSHRequest)
  : Handler SignSSHResponse :=
  body <- try read
            (fun err => WriteError (BadRequest (errors_Wrap err "error reading request body"))) ;;
  _ <- match SignSSHRequest_Validate body with
       | Some err => exit (WriteError (BadRequest err))
       | None => ret tt
       end ;;
  publicKey <- try (ssh.ParsePublicKey (PublicKey_ body))
                 (fun err => WriteError (BadRequest (errors_Wrap err "error parsing publicKey"))) ;;
  addUserPublicKey <-
    match AddUserPublicKey body with
    | Some bytes =>
        k <- try (ssh.ParsePublicKey bytes)
               (fun err => WriteError
                             (BadRequest (errors_Wrap err "error parsing addUserPublicKey"))) ;;
        ret (Some k)
    | None => ret None
    end ;;
  let opts := mkSSHOptions (CertType body) (Principals body)
                (ValidAfter body) (ValidBefore body) in
  signOpts <- call (CallAuthorize SignSSHMethod (OTT body))
                (Authorize h SignSSHMethod (OTT body))
                (fun err => WriteError (Unauthorized err)) ;;
  cert <- call (CallSignSSH publicKey opts signOpts)
            (SignSSH h publicKey opts signOpts)
            (fun err => WriteError (Forbidden err)) ;;
  addUserCertificate <-
    match addUserPublicKey with
    | Some key =>
        if (ssh.CertType cert =? ssh.UserCert)%Z
           && (length (ssh.ValidPrincipals cert) =? 1)%nat
        then
          addUserCert <- call (CallSignSSHAddUser key cert)
                           (SignSSHAddUser h key cert)
                           (fun err => WriteError (Forbidden err)) ;;
          ret (Some (mkSSHCertificate (Some addUserCert)))
        else ret None
    | None => ret None
    end ;;
  ret (JSON StatusCreated
         (mkSignSSHResponse (mkSSHCertificate (Some cert)) addUserCertificate)).

Definition SignSSH_handler (h : Authority) (read : result SignSSHRequest)
  : Response SignSSHResponse * list Call :=
  let '(resp, _, calls) := run (SignSSH_body h read) tt in (resp, calls).

(** [SSHConfig] is an HTTP handler that returns rendered templates for ssh
    clients and servers. *)
Definition SSHConfig_body (h : Authority) (read : result SSHConfigRequest)
  : Handler SSHConfigResponse :=
  body <- try read
            (fun err => WriteError (BadRequest (errors_Wrap err "error reading request body"))) ;;
  let '(body, verr) := SSHConfigRequest_Validate body in
  _ <- match verr with
       | Some err => exit (WriteError (BadRequest err))
       | None => ret tt
       end ;;
  ts <- call (CallGetSSHConfig (Type_ body) (Data body))
          (GetSSHConfig h (Type_ body) (Data body))
          (fun err => WriteError (InternalServerError err)) ;;
  config <-
    match SSHConfig_switch (Type_ body) ts with
    | Some config => ret config
    | None => exit (WriteError (InternalServerError (errors_New "it should hot get here")))
    end ;;
  ret (JSON StatusOK config).

Definition SSHConfig_handler (h : Authority) (read : result SSHConfigRequest)
  : Response SSHConfigResponse * list Call :=
  let '(resp, _, calls) := run (SSHConfig_body h read) tt in (resp, calls).

Context `{KW : !ssh.KeyWire}.

(** [SSHPublicKey] represents a public key in a response object: a struct
    that embeds an [ssh.PublicKey]; [None] is the nil interface value. *)
Record SSHPublicKey : Type := mkSSHPublicKey {
  pk_PublicKey : option PublicKey;
}.

(** [MarshalJSON] returns a quoted, base64 encoded, openssh wire format
    version of the public key.  The receiver is a pointer; [None] is nil. *)
Definition SSHPublicKey_MarshalJSON (p : option SSHPublicKey) : result string :=
  match p with
  | None => Ok "null"
  | Some p =>
      match pk_PublicKey p with
      | None => Ok "null"
      | Some pub => Ok (quote (base64.EncodeToString (ssh.PublicKey_Marshal pub)))
      end
  end.

(** [UnmarshalJSON]: the receiver after the call and the error returned
    ([None] is [nil]).  A failing call leaves the receiver as it was. *)
Definition SSHPublicKey_UnmarshalJSON (p : SSHPublicKey) (data : string)
  : SSHPublicKey * option error :=
  match json.Unmarshal_string data with
  | None =>
      (p, Some (errors_Wrap (library_error "encoding/json") "error decoding ssh public key"))
  | Some s =>
      if String.eqb s "" then (mkSSHPublicKey None, None)
      else
        match base64.DecodeString s with
        | None =>
            (p, Some (errors_Wrap (library_error "encoding/base64")
                        "error decoding ssh public key"))
        | Some data =>
            match ssh.ParsePublicKey data with
            | Err err => (p, Some (errors_Wrap err "error parsing ssh public key"))
            | Ok pub => (mkSSHPublicKey (Some pub), None)
            end
        end
  end.

(** [SSHKeysResponse] represents the response object that returns the SSH
    user and host keys. *)
Record SSHKeysResponse : Type := mkSSHKeysResponse {
  UserKey : option SSHPublicKey;
  HostKey : option SSHPublicKey;
}.

(** [SSHKeys] is an HTTP handler that returns the SSH public keys for user
    and host certificates. *)
Definition SSHKeys_body (h : Authority) : Handler SSHKeysResponse :=
  keys <- call CallGetSSHKeys (GetSSHKeys h)
            (fun err => WriteError (NotFound err)) ;;
  let host :=
    match keys_HostKey keys with
    | Some k => Some (mkSSHPublicKey (Some k))
    | None => None
    end in
  let user :=
    match keys_UserKey keys with
    | Some k => Some (mkSSHPublicKey (Some k))
    | None => None
    end in
  ret (JSON StatusOK (mkSSHKeysResponse user host)).

Definition SSHKeys_handler (h : Authority) : Response SSHKeysResponse * list Call :=
  let '(resp, _, calls) := run (SSHKeys_body h) tt in (resp, calls).

End api.
End api.

(** ** Test doubles

    Small stand-ins for the collaborators, in the way the repository's tests
    use mock authorities; the examples below are evaluated on them. *)
Module fixtures.

Fixpoint assoc {A} (k : string) (tbl : list (string * A)) : option A :=
  match tbl with
  | [] => None
  | (k', v) :: tbl' => if String.eqb k k' then Some v else assoc k tbl'
  end.

(** A token library over a table of known tokens: a token parses when the
    table has it, and its claims are the table's. *)
Definition table_lib (tbl : list (string * authority.Claims)) : jose.Lib authority.Claims :=
  {| jose.JSONWebToken := authority.Claims;
     jose.ParseSigned ott :=
       match assoc ott tbl with
       | Some c => Ok c
       | None => Err (library_error "jose")
       end;
     jose.UnsafeClaimsWithoutVerification token := Ok token |}.

Definition claims_of (iat : Z) (id : string) : authority.Claims :=
  authority.mkClaims
    (jose.mkClaims "step-cli" "alice@example.com" ["https://ca.example/sign"] 0%Z 0%Z iat id)
    [] "" "".

(** Four tokens: issued after the start of the CA (second 1000), with no
    issued-at, with an issued-at one second before the Unix epoch, and issued
    at second 500. *)
Definition tokens : list (string * authority.Claims) :=
  [("fresh", claims_of 2000%Z "id-1");
   ("undated", claims_of 0%Z "id-2");
   ("ancient", claims_of (-1)%Z "id-3");
   ("stale", claims_of 500%Z "id-4")].

Definition lib : jose.Lib authority.Claims := table_lib tokens.

(** A JWK provisioner that accepts every token, and one that refuses all. *)
Definition jwk : provisioner.Interface unit :=
  provisioner.mkInterface "admin" provisioner.TypeJWK (fun _ => Ok [tt]).

Definition strict_jwk : provisioner.Interface unit :=
  provisioner.mkInterface "strict" provisioner.TypeJWK
    (fun _ => Err (errors_New "invalid signature")).

(** A CA started at second 1000 with the issued-at check on (the default)
    and the replay guard [m]. *)
Definition ca_with (p : provisioner.Interface unit) (m : gmap string authority.idUsed)
  : @authority.Authority unit lib :=
  authority.mkAuthority
    (authority.mkConfig (Some (authority.mkAuthConfig false)))
    (time.Unix 1000 0)
    (authority.mkCollection (fun _ _ => Some p))
    m.

Definition ca : @authority.Authority unit lib := ca_with jwk ∅.

(** The same CA with the issued-at check disabled. *)
Definition ca_unchecked : @authority.Authority unit lib :=
  authority.mkAuthority
    (authority.mkConfig (Some (authority.mkAuthConfig true)))
    (time.Unix 1000 0)
    (authority.mkCollection (fun _ _ => Some jwk))
    ∅.

(** An SSH library over a table of known wire strings.  A certificate
    carries its own wire form, its type, its principals and the name of the
    key it is bound to; a bare key is its name. *)
Record cert : Type := mkCert {
  wire : string;
  ctype : Z;
  cprincipals : list string;
  ckey : string;
}.

Definition key_name (k : ssh.PublicKey string cert) : string :=
  match k with
  | ssh.PKKey name => name
  | ssh.PKCert c => ckey c
  end.

Definition alice_cert : cert := mkCert "wire:alice-cert" ssh.UserCert ["alice"] "alice-key".

Definition known_keys : list (string * ssh.PublicKey string cert) :=
  [("wire:alice-key", ssh.PKKey "alice-key");
   ("wire:adduser-key", ssh.PKKey "adduser-key");
   ("wire:alice-cert", ssh.PKCert alice_cert)].

Definition ssh_lib : ssh.Lib :=
  {| ssh.Key := string;
     ssh.Certificate := cert;
     ssh.CertType := ctype;
     ssh.ValidPrincipals := cprincipals;
     ssh.Certificate_Marshal := wire;
     ssh.Key_GoType _ := "ssh.ed25519PublicKey";
     ssh.ParsePublicKey data :=
       match assoc data known_keys with
       | Some k => Ok k
       | None => Err (library_error "ssh")
       end |}.

(** Errors that record the constructor that made them. *)
#[global] Instance errors : api.Errors := {|
  api.Error := string * error;
  api.BadRequest err := ("BadRequest", err);
  api.Unauthorized err := ("Unauthorized", err);
  api.Forbidden err := ("Forbidden", err);
  api.NotFound err := ("NotFound", err);
  api.InternalServerError err := ("InternalServerError", err);
|}.

(** An authority behind the handlers: it accepts the token "good", signs the
    certificate the options ask for, and renders one template per request. *)
Definition api_authority
  : @api.Authority ssh_lib unit unit string :=
  @api.mkAuthority ssh_lib unit unit string
    (fun _ ott => if String.eqb ott "good" then Ok [tt] else Err (errors_New "bad token"))
    (fun key opts _ =>
       Ok (mkCert "wire:issued"
             (if String.eqb (api.opt_CertType opts) "host" then ssh.HostCert else ssh.UserCert)
             (api.opt_Principals opts) (key_name key)))
    (fun key c =>
       Ok (mkCert "wire:adduser" ssh.UserCert (cprincipals c) (key_name key)))
    (Err (errors_New "no keys"))
    (fun typ data =>
       Ok ["rendered " +:+ typ +:+ " template for " +:+ default "" (data !! "Name")]).

(** An OIDC provisioner and a second JWK provisioner, both accepting every
    token. *)
Definition oidc : provisioner.Interface unit :=
  provisioner.mkInterface "google" provisioner.TypeOIDC (fun _ => Ok [tt]).

Definition ops_jwk : provisioner.Interface unit :=
  provisioner.mkInterface "ops" provisioner.TypeJWK (fun _ => Ok [tt]).

(** The tokens above and one of another issuer, "ops-token", that carries
    the id of "fresh". *)
Definition claims_by (issuer : string) (iat : Z) (id : string) : authority.Claims :=
  authority.mkClaims
    (jose.mkClaims issuer "bob@example.com" ["https://ca.example/sign"] 0%Z 0%Z iat id)
    [] "" "".

Definition lib2 : jose.Lib authority.Claims :=
  table_lib (tokens ++ [("ops-token", claims_by "ops-cli" 3000%Z "id-1")]).

(** A CA with two JWK provisioners, chosen by the issuer of the token,
    started at [start], with the issued-at check on. *)
Definition ca2 (start : time.Time) (m : gmap string authority.idUsed)
  : @authority.Authority unit lib2 :=
  authority.mkAuthority
    (authority.mkConfig (Some (authority.mkAuthConfig false)))
    start
    (authority.mkCollection
       (fun _ c => if String.eqb (jose.Issuer c) "ops-cli" then Some ops_jwk
                   else if String.eqb (jose.Issuer c) "step-cli" then Some jwk
                   else None))
    m.

(** A token dated 1024 seconds before the end of the [int64] range, and a
    CA for it, started at second 1000 with the issued-at check on. *)
Definition far_lib : jose.Lib authority.Claims :=
  table_lib [("far", claims_of (2 ^ 63 - 1024)%Z "id-5")].

Definition far_ca : @authority.Authority unit far_lib :=
  authority.mkAuthority
    (authority.mkConfig (Some (authority.mkAuthConfig false)))
    (time.Unix 1000 0)
    (authority.mkCollection (fun _ _ => Some jwk))
    ∅.

(** The bare key of alice, as the SSH library returns it. *)
Definition alice_key : ssh.PublicKey string cert := ssh.PKKey "alice-key".

(** The wire form of a bare key of the table: its name after "wire:". *)
Definition key_wire : @ssh.KeyWire ssh_lib :=
  @ssh.Build_KeyWire ssh_lib (fun name : string => "wire:" +:+ name).

(** An authority that holds a user key and no host key. *)
Definition keys_authority
  : @api.Authority ssh_lib unit unit string :=
  @api.mkAuthority ssh_lib unit unit string
    (fun _ _ => Err (errors_New "bad token"))
    (fun _ _ _ => Err (errors_New "no signer"))
    (fun _ _ => Err (errors_New "no signer"))
    (Ok (api.mkSSHKeys (SL := ssh_lib) (Some alice_key) None))
    (fun _ _ => Ok []).

End fixtures.

(** ** Plain URLs

    The shape of URL that audiences have, scheme://host[:port][/path], is
    described by classes of bytes: the statements about [stripPort] range
    over every string built from them. *)

(** Bytes of a host name: letters, digits, hyphen and dot. *)
Definition host_byte (c : ascii) : bool :=
  url.is_alpha c || url.is_digit c || url.elem c "-.".

(** Bytes of a path that needs no escaping. *)
Definition path_byte (c : ascii) : bool :=
  url.is_alpha c || url.is_digit c || url.elem c "-._~/".

(** Bytes of a scheme that [Parse] does not have to lower. *)
Definition lower_byte (c : ascii) : bool := url.byte_in "a" "z" c.

(** Bytes that [Parse] and [String] leave alone wherever they stand. *)
Definition inert_byte (c : ascii) : bool :=
  url.is_alpha c || url.is_digit c || url.elem c "-._~/:".

(** The 256 bytes, to decide a property of bytes by enumeration. *)
Definition all_ascii : list ascii := map ascii_of_nat (seq 0 256).

Definition is_not (x : ascii) (c : ascii) : bool := negb (Ascii.eqb c x).

(** Bytes that [unescape] copies in the part [mode]. *)
Definition copied (mode : url.encoding) (c : ascii) : bool :=
  negb (Ascii.eqb c "%") && negb (Ascii.eqb c "+")
  && negb (url.is_host_mode mode && (N_of_ascii c <? 128)%N
           && url.shouldEscape c url.encodeHost).

(** Bytes that [escape] copies in the part [mode]. *)
Definition kept (mode : url.encoding) (c : ascii) : bool :=
  negb (url.shouldEscape c mode) && negb (Ascii.eqb c " ").

(** The port part of an authority: [":" port], or nothing. *)
Definition port_suffix (port : option string) : string :=
  match port with
  | Some p => ":" +:+ p
  | None => ""
  end.

(** The URL scheme://host[:port]path. *)
Definition plain_url (scheme host : string) (port : option string) (path : string) : string :=
  scheme +:+ "://" +:+ (host +:+ port_suffix port) +:+ path.

(** The parts of a plain URL: a scheme of letters, a host name, a decimal
    port if any, and a path that is empty or starts with a slash and needs no
    escaping. *)
Definition is_plain (scheme host : string) (port : option string) (path : string) : bool :=
  negb (String.eqb scheme "") && url.all_bytes url.is_alpha scheme
  && negb (String.eqb host "") && url.all_bytes host_byte host
  && match port with Some p => url.all_bytes url.is_digit p | None => true end
  && (String.eqb path "" || strings.HasPrefix path "/")
  && url.all_bytes path_byte path.

(** A name, or a path without scheme and authority: unreserved bytes and
    slashes, not starting with two slashes. *)
Definition is_name (s : string) : bool :=
  url.all_bytes path_byte s && negb (strings.HasPrefix s "//").

(** ** Proof automation *)

(** Unfold the monad to the state-passing function it stands for. *)
Ltac monad_unfold :=
  unfold bind, try, exit, ret, get, put, emit, exit_if in *.

(** Membership in a list that is written out. *)
Ltac elem_of_cases H :=
  repeat (apply elem_of_cons in H as [H|H]; [try discriminate H|]);
  try (by apply elem_of_nil in H).

(** Linear arithmetic with division and remainder by constants. *)
Ltac div_lia := zify; Z.to_euclidean_division_equations; lia.

(** The runs of the sign handler, one goal for each. *)
Ltac SignSSH_cases h read :=
  unfold api.SignSSH_handler, api.SignSSH_body, api.call, run; monad_unfold;
  destruct read as [?body|?err]; simpl; [|];
  [ destruct (api.SignSSHRequest_Validate body) eqn:?Hvalid; simpl; [|];
    [ | destruct (ssh.ParsePublicKey (api.PublicKey_ body)) as [?pk|?e] eqn:?Hkey; simpl;
        [ destruct (api.AddUserPublicKey body) as [?bytes|] eqn:?Hadd; simpl;
          [ destruct (ssh.ParsePublicKey bytes) as [?key|?e] eqn:?Haddkey; simpl; [|] | ];
          [ destruct (api.Authorize h api.SignSSHMethod (api.OTT body)) as [?so|?e] eqn:?Hauth;
            simpl;
            [ match goal with
              | |- context [api.SignSSH h ?k ?o ?s] =>
                  destruct (api.SignSSH h k o s) as [?cert|?e] eqn:?Hsign; simpl
              end;
              [ match goal with
                | |- context [(ssh.CertType ?c =? ssh.UserCert)%Z && ?l] =>
                    destruct ((ssh.CertType c =? ssh.UserCert)%Z && l) eqn:?Hcond; simpl;
                    [ match goal with
                      | |- context [api.SignSSHAddUser h ?k c] =>
                          destruct (api.SignSSHAddUser h k c) as [?add|?e] eqn:?Hadduser;
                          simpl
                      end | ]
                end | ]
            | ]
          | 
          | destruct (api.Authorize h api.SignSSHMethod (api.OTT body)) as [?so|?e] eqn:?Hauth;
            simpl;
            [ match goal with
              | |- context [api.SignSSH h ?k ?o ?s] =>
                  destruct (api.SignSSH h k o s) as [?cert|?e] eqn:?Hsign; simpl
              end
            | ] ]
        | ] ]
  | ].

(** * Properties *)

(** ** The token authorization pipeline *)
Section AuthorizeFacts.
Context {SignOption : Type} `{JL : jose.Lib authority.Claims}.

Local Abbreviation Authority := (@authority.Authority SignOption JL).
Local Abbreviation Provisioner := (provisioner.Interface SignOption).

Implicit Types (a : Authority) (p : Provisioner) (claims : authority.Claims).
Implicit Types (ott id : string) (now : time.Time).

Lemma set_ottMap_same a : authority.set_ottMap a (authority.ottMap a) = a.
Proof. by destruct a. Qed.

Lemma same_setup_refl a : authority.same_setup a a.
Proof. by repeat split. Qed.

Lemma same_setup_trans a1 a2 a3 :
  authority.same_setup a1 a2 -> authority.same_setup a2 a3 -> authority.same_setup a1 a3.
Proof. intros (?&?&?) (?&?&?). repeat split; congruence. Qed.

Lemma same_setup_set_ottMap a m : authority.same_setup a (authority.set_ottMap a m).
Proof. by repeat split. Qed.

(** The routing part of [Authorize] writes nothing and calls no collaborator
    that is logged. *)
Lemma Authorize_route_pure ott a :
  exists r, authority.Authorize_route ott a = (r, a, []).
Proof.
  unfold authority.Authorize_route. monad_unfold.
  destruct (jose.ParseSigned ott) as [token|e]; [|by eexists].
  destruct (jose.UnsafeClaimsWithoutVerification token) as [claims|e]; [|by eexists].
  destruct (authority.issuedAtCheck a && authority.issuedBeforeStart a claims);
    [by eexists|].
  destruct (authority.LoadByToken _ token _); by eexists.
Qed.

(** It reads the configuration, the start time and the registry only. *)
Lemma Authorize_route_setup ott a a' r :
  authority.same_setup a a' ->
  authority.Authorize_route ott a = (r, a, []) ->
  authority.Authorize_route ott a' = (r, a', []).
Proof.
  intros (Hc & Hs & Hp). unfold authority.Authorize_route. monad_unfold.
  destruct (jose.ParseSigned ott) as [token|e]; [|by intros [= <-]].
  destruct (jose.UnsafeClaimsWithoutVerification token) as [claims|e];
    [|by intros [= <-]].
  unfold authority.issuedAtCheck, authority.issuedBeforeStart.
  rewrite <- Hc, <- Hs, <- Hp.
  destruct (_ && _); [by intros [= <-]|].
  destruct (authority.LoadByToken _ token _); by intros [= <-].
Qed.

(** What the replay guard does, case by case. *)
Lemma Authorize_replay_spec ott now p claims a :
  let id := jose.ID (authority.Claims_ claims) in
  let rec := authority.mkIdUsed (time.Unix_of now)
               (jose.Subject (authority.Claims_ claims)) in
  authority.Authorize_replay ott now p claims a =
    if provisioner.Type_eqb (provisioner.GetType p) provisioner.TypeJWK
       && negb (String.eqb id "")
    then match authority.ottMap a !! id with
         | Some _ =>
             (inr (apiError (errors_New "token already used") StatusUnauthorized
                     (authority.errContext ott)),
              a, [authority.EvLoadOrStore id rec true])
         | None =>
             (inl tt, authority.set_ottMap a (<[id := rec]> (authority.ottMap a)),
              [authority.EvLoadOrStore id rec false])
         end
    else (inl tt, a, []).
Proof.
  intros id rec. unfold authority.Authorize_replay. fold id. fold rec.
  destruct (_ && _); [|done].
  unfold authority.ottMap_LoadOrStore, authority.LoadOrStore. monad_unfold.
  destruct (authority.ottMap a !! id) eqn:Hid; simpl.
  - by rewrite set_ottMap_same.
  - done.
Qed.

Lemma Type_eqb_eq (t u : provisioner.Type_) :
  provisioner.Type_eqb t u = true <-> t = u.
Proof.
  destruct t, u; simpl; try (split; [done|congruence]); try done.
  rewrite Nat.eqb_eq. split; congruence.
Qed.

Lemma String_eqb_empty_false (s : string) : s <> "" -> String.eqb s "" = false.
Proof. intros H. by apply String.eqb_neq. Qed.

(** [Authorize], unfolded along a token that is routed to [p]. *)
Lemma Authorize_routed a ott now p claims :
  authority.Authorize_route ott a = (inl (p, claims), a, []) ->
  authority.Authorize a ott now =
    match authority.Authorize_replay ott now p claims a with
    | (inl _, a', l) =>
        (provisioner.Authorize p ott, a',
         l ++ [authority.EvProvisionerAuthorize p ott])
    | (inr err, a', l) => (Err err, a', l)
    end.
Proof.
  intros Hr. unfold authority.Authorize, authority.Authorize_body.
  unfold bind at 1. rewrite Hr. unfold bind at 1.
  destruct (authority.Authorize_replay ott now p claims a) as [[[[]|err] a'] l]; [|done].
  unfold authority.Authorize_delegate. monad_unfold. simpl.
  destruct (provisioner.Authorize p ott); by rewrite ?app_nil_r.
Qed.

(** A token that is not routed is rejected without touching anything. *)
Lemma Authorize_unrouted a ott now err :
  authority.Authorize_route ott a = (inr err, a, []) ->
  authority.Authorize a ott now = (Err err, a, []).
Proof.
  intros Hr. unfold authority.Authorize, authority.Authorize_body.
  unfold bind at 1. by rewrite Hr.
Qed.

(** [Authorize] never changes the set-up and never drops or overwrites a
    record of the replay guard: there is no "unuse". *)
Lemma Authorize_keeps a ott now :
  let a' := (authority.Authorize a ott now).1.2 in
  authority.same_setup a a'
  /\ forall id u, authority.ottMap a !! id = Some u -> authority.ottMap a' !! id = Some u.
Proof.
  destruct (Authorize_route_pure ott a) as [[[p claims]|err] Hr].
  - rewrite (Authorize_routed _ _ _ _ _ Hr), Authorize_replay_spec.
    destruct (_ && _); [|by split; [apply same_setup_refl|]].
    destruct (authority.ottMap a !! _) eqn:Hid; simpl.
    + by split; [apply same_setup_refl|].
    + split; [apply same_setup_set_ottMap|]. intros id u Hu. simpl.
      rewrite lookup_insert_ne; [done|]. intros Heq. rewrite Heq in Hid. congruence.
  - rewrite (Authorize_unrouted _ _ _ _ Hr). by split; [apply same_setup_refl|].
Qed.

Lemma after_calls_keeps a calls :
  authority.same_setup a (authority.after_calls a calls)
  /\ forall id u, authority.ottMap a !! id = Some u ->
       authority.ottMap (authority.after_calls a calls) !! id = Some u.
Proof.
  revert a. induction calls as [|[ott now] calls IH]; intros a; simpl.
  - by split; [apply same_setup_refl|].
  - destruct (Authorize_keeps a ott now) as [Hs Hk].
    destruct (IH (authority.Authorize a ott now).1.2) as [Hs' Hk'].
    split; [by eapply same_setup_trans|]. intros id u Hu. by apply Hk', Hk.
Qed.

End AuthorizeFacts.

Section AuthorizeClaims.
Context {SignOption : Type} `{JL : jose.Lib authority.Claims}.

Local Abbreviation Authority := (@authority.Authority SignOption JL).
Local Abbreviation Provisioner := (provisioner.Interface SignOption).

Implicit Types (a : Authority) (p : Provisioner) (claims : authority.Claims).
Implicit Types (ott id : string) (now : time.Time).

(** C3.  A token that [Authorize] routes to a provisioner of the JWK kind and
    whose non-empty id is already in the replay guard is rejected with the
    401 error "token already used"; the authority is left as it was, and the
    only call logged is the [LoadOrStore] that found the id, so the
    provisioner's own [Authorize] is not called. *)
Theorem Authorize_rejects_replayed_token a ott now p claims used :
  authority.Authorize_route ott a = (inl (p, claims), a, []) ->
  provisioner.GetType p = provisioner.TypeJWK ->
  jose.ID (authority.Claims_ claims) <> "" ->
  authority.ottMap a !! jose.ID (authority.Claims_ claims) = Some used ->
  authority.Authorize a ott now =
    (Err (apiError (errors_New "token already used") StatusUnauthorized
            (authority.errContext ott)),
     a,
     [authority.EvLoadOrStore (jose.ID (authority.Claims_ claims))
        (authority.mkIdUsed (time.Unix_of now) (jose.Subject (authority.Claims_ claims)))
        true]).
Proof.
  intros Hroute Hjwk Hid Hused.
  rewrite (Authorize_routed _ _ _ _ _ Hroute), Authorize_replay_spec.
  rewrite Hjwk, (String_eqb_empty_false _ Hid), Hused. reflexivity.
Qed.

(** C4.  A token routed to a JWK provisioner with a non-empty id that the
    replay guard has not seen: [Authorize] stores the id first and calls the
    provisioner second, returns the provisioner's answer as it is, and leaves
    the id stored whatever that answer was.  After any further calls the id
    is still there, and the same token is rejected as already used. *)
Theorem Authorize_records_before_delegating a ott now p claims :
  authority.Authorize_route ott a = (inl (p, claims), a, []) ->
  provisioner.GetType p = provisioner.TypeJWK ->
  jose.ID (authority.Claims_ claims) <> "" ->
  authority.ottMap a !! jose.ID (authority.Claims_ claims) = None ->
  let id := jose.ID (authority.Claims_ claims) in
  let subject := jose.Subject (authority.Claims_ claims) in
  let rec := authority.mkIdUsed (time.Unix_of now) subject in
  let a' := authority.set_ottMap a (<[id := rec]> (authority.ottMap a)) in
  authority.Authorize a ott now =
    (provisioner.Authorize p ott, a',
     [authority.EvLoadOrStore id rec false; authority.EvProvisionerAuthorize p ott])
  /\ forall calls now',
       let a'' := authority.after_calls a' calls in
       authority.ottMap a'' !! id = Some rec
       /\ authority.Authorize a'' ott now' =
            (Err (apiError (errors_New "token already used") StatusUnauthorized
                    (authority.errContext ott)),
             a'',
             [authority.EvLoadOrStore id
                (authority.mkIdUsed (time.Unix_of now') subject) true]).
Proof.
  intros Hroute Hjwk Hid Hfresh id subject rec a'. split.
  - rewrite (Authorize_routed _ _ _ _ _ Hroute), Authorize_replay_spec.
    by rewrite Hjwk, (String_eqb_empty_false _ Hid), Hfresh.
  - intros calls now' a''.
    destruct (after_calls_keeps a' calls) as [Hsetup Hkeep]. fold a'' in Hsetup, Hkeep.
    assert (Hrec : authority.ottMap a'' !! id = Some rec).
    { apply Hkeep. subst a'. simpl. apply lookup_insert_eq. }
    split; [done|].
    assert (Hroute'' : authority.Authorize_route ott a'' = (inl (p, claims), a'', [])).
    { eapply Authorize_route_setup; [|exact Hroute].
      eapply same_setup_trans; [apply same_setup_set_ottMap|exact Hsetup]. }
    rewrite (Authorize_routed _ _ _ _ _ Hroute''), Authorize_replay_spec.
    rewrite Hjwk, (String_eqb_empty_false _ Hid). fold id. by rewrite Hrec.
Qed.

(** Past the issued-at check.  A token the check lets through goes to the
    provisioner lookup, and from there to the replay guard and the
    provisioner. *)
Lemma Authorize_check_passed a ott now token claims :
  jose.ParseSigned ott = Ok token ->
  jose.UnsafeClaimsWithoutVerification token = Ok claims ->
  authority.issuedAtCheck a && authority.issuedBeforeStart a claims = false ->
  let id := jose.ID (authority.Claims_ claims) in
  let rec := authority.usage claims now in
  authority.Authorize_route ott a =
    (match authority.LoadByToken (authority.provisioners a) token
             (authority.Claims_ claims) with
     | Some p => inl (p, claims)
     | None => inr (apiError (errors_New "authorize: provisioner not found")
                      StatusUnauthorized (authority.errContext ott))
     end, a, [])
  /\ authority.Authorize a ott now =
       match authority.LoadByToken (authority.provisioners a) token
               (authority.Claims_ claims) with
       | None =>
           (Err (apiError (errors_New "authorize: provisioner not found")
                   StatusUnauthorized (authority.errContext ott)),
            a, [])
       | Some p =>
           if authority.guarded p claims
           then match authority.ottMap a !! id with
                | Some _ =>
                    (Err (apiError (errors_New "token already used")
                            StatusUnauthorized (authority.errContext ott)),
                     a, [authority.EvLoadOrStore id rec true])
                | None =>
                    (provisioner.Authorize p ott,
                     authority.set_ottMap a (<[id := rec]> (authority.ottMap a)),
                     [authority.EvLoadOrStore id rec false;
                      authority.EvProvisionerAuthorize p ott])
                end
           else (provisioner.Authorize p ott, a,
                 [authority.EvProvisionerAuthorize p ott])
       end.
Proof.
  intros Hparse Hclaims Hpass id rec.
  assert (Hroute : authority.Authorize_route ott a =
    (match authority.LoadByToken (authority.provisioners a) token
             (authority.Claims_ claims) with
     | Some p => inl (p, claims)
     | None => inr (apiError (errors_New "authorize: provisioner not found")
                      StatusUnauthorized (authority.errContext ott))
     end, a, [])).
  { unfold authority.Authorize_route. monad_unfold.
    rewrite Hparse, Hclaims, Hpass.
    by destruct (authority.LoadByToken _ token _). }
  split; [exact Hroute|].
  destruct (authority.LoadByToken _ token _) as [p|].
  - rewrite (Authorize_routed _ _ _ _ _ Hroute), Authorize_replay_spec.
    subst id rec. unfold authority.guarded, authority.usage.
    destruct (provisioner.Type_eqb _ _ && _); [|done].
    by destruct (authority.ottMap a !! _).
  - by rewrite (Authorize_unrouted _ _ _ _ Hroute).
Qed.

(** The start time is read by the issued-at check only: when the check lets
    a token through under two start times, the rest of [Authorize] runs the
    same under both. *)
Lemma Authorize_start_time_unused a ott now token claims t :
  jose.ParseSigned ott = Ok token ->
  jose.UnsafeClaimsWithoutVerification token = Ok claims ->
  authority.issuedAtCheck a && authority.issuedBeforeStart a claims = false ->
  authority.issuedAtCheck a
    && authority.issuedBeforeStart (authority.set_startTime a t) claims = false ->
  authority.Authorize (authority.set_startTime a t) ott now =
    (let '(r, a', log) := authority.Authorize a ott now in
     (r, authority.set_startTime a' t, log)).
Proof.
  intros Hparse Hclaims Hoff Hoff'.
  unfold authority.Authorize, authority.Authorize_body, authority.Authorize_route.
  monad_unfold. rewrite Hparse, Hclaims.
  change (authority.issuedAtCheck (authority.set_startTime a t))
    with (authority.issuedAtCheck a).
  rewrite Hoff, Hoff'. simpl.
  destruct (authority.LoadByToken _ token _) as [p|]; [|done].
  rewrite !Authorize_replay_spec.
  destruct (provisioner.Type_eqb _ _ && _); simpl.
  - destruct (authority.ottMap a !! _); simpl; [done|].
    unfold authority.Authorize_delegate. monad_unfold.
    by destruct (provisioner.Authorize p ott).
  - unfold authority.Authorize_delegate. monad_unfold.
    by destruct (provisioner.Authorize p ott).
Qed.

(** C5, as amended.  With the issued-at check on, a token whose issued-at is
    strictly positive and strictly before the start of the CA is rejected
    with the 401 bootstrap error, and nothing else happens.  With the check
    off (disabled, or no authority configuration), the token is not rejected
    on this ground: it reaches the provisioner lookup, and [Authorize]
    answers with the lookup error, the replay error of a guarded token
    already recorded, or what the provisioner answers; the bootstrap error
    is not among them.  [Authorize] then runs as it would under any other
    start time. *)
Theorem Authorize_bootstrap_guard a ott now token claims :
  jose.ParseSigned ott = Ok token ->
  jose.UnsafeClaimsWithoutVerification token = Ok claims ->
  (authority.issuedAtCheck a = true ->
   (0 < jose.IssuedAt (authority.Claims_ claims))%Z ->
   time.Before (jose.NumericDate_Time (jose.IssuedAt (authority.Claims_ claims)))
     (authority.startTime a) = true ->
   authority.Authorize a ott now =
     (Err (apiError
             (errors_New "token issued before the bootstrap of certificate authority")
             StatusUnauthorized (authority.errContext ott)),
      a, []))
  /\ (authority.issuedAtCheck a = false ->
      let id := jose.ID (authority.Claims_ claims) in
      let rec := authority.usage claims now in
      authority.Authorize_route ott a =
        (match authority.LoadByToken (authority.provisioners a) token
                 (authority.Claims_ claims) with
         | Some p => inl (p, claims)
         | None => inr (apiError (errors_New "authorize: provisioner not found")
                          StatusUnauthorized (authority.errContext ott))
         end, a, [])
      /\ authority.Authorize a ott now =
           match authority.LoadByToken (authority.provisioners a) token
                   (authority.Claims_ claims) with
           | None =>
               (Err (apiError (errors_New "authorize: provisioner not found")
                       StatusUnauthorized (authority.errContext ott)),
                a, [])
           | Some p =>
               if authority.guarded p claims
               then match authority.ottMap a !! id with
                    | Some _ =>
                        (Err (apiError (errors_New "token already used")
                                StatusUnauthorized (authority.errContext ott)),
                         a, [authority.EvLoadOrStore id rec true])
                    | None =>
                        (provisioner.Authorize p ott,
                         authority.set_ottMap a (<[id := rec]> (authority.ottMap a)),
                         [authority.EvLoadOrStore id rec false;
                          authority.EvProvisionerAuthorize p ott])
                    end
               else (provisioner.Authorize p ott, a,
                     [authority.EvProvisionerAuthorize p ott])
           end
      /\ forall t,
           authority.Authorize (authority.set_startTime a t) ott now =
             (let '(r, a', log) := authority.Authorize a ott now in
              (r, authority.set_startTime a' t, log))).
Proof.
  intros Hparse Hclaims. split.
  - intros Hon Hpos Hbefore.
    unfold authority.Authorize, authority.Authorize_body, authority.Authorize_route.
    monad_unfold. rewrite Hparse, Hclaims, Hon.
    unfold authority.issuedBeforeStart. rewrite Hbefore.
    by replace (_ >? 0)%Z with true by (symmetry; apply Z.gtb_lt; lia).
  - intros Hoff id rec.
    destruct (Authorize_check_passed a ott now token claims Hparse Hclaims)
      as [Hroute Hrun]; [by rewrite Hoff|].
    split; [exact Hroute|]. split; [exact Hrun|]. intros t.
    eapply Authorize_start_time_unused; eauto; by rewrite Hoff.
Qed.

(** C9.  A token with no issued-at (zero; any value that is not strictly
    positive) is never stopped by the bootstrap guard, check on or off: the
    comparison with the start time is not made, the token reaches the
    provisioner lookup, and [Authorize] answers with the lookup error, the
    replay error of a guarded token already recorded, or what the
    provisioner answers; it runs as it would under any other start time.
    Only a strictly positive issued-at is compared with the start time. *)
Theorem Authorize_undated_token_passes_guard a ott now token claims :
  jose.ParseSigned ott = Ok token ->
  jose.UnsafeClaimsWithoutVerification token = Ok claims ->
  (jose.IssuedAt (authority.Claims_ claims) <= 0)%Z ->
  let id := jose.ID (authority.Claims_ claims) in
  let rec := authority.usage claims now in
  authority.issuedBeforeStart a claims = false
  /\ (forall t,
        authority.Authorize (authority.set_startTime a t) ott now =
          (let '(r, a', log) := authority.Authorize a ott now in
           (r, authority.set_startTime a' t, log)))
  /\ (
      authority.Authorize_route ott a =
        (match authority.LoadByToken (authority.provisioners a) token
                 (authority.Claims_ claims) with
         | Some p => inl (p, claims)
         | None => inr (apiError (errors_New "authorize: provisioner not found")
                          StatusUnauthorized (authority.errContext ott))
         end, a, [])
      /\ authority.Authorize a ott now =
           match authority.LoadByToken (authority.provisioners a) token
                   (authority.Claims_ claims) with
           | None =>
               (Err (apiError (errors_New "authorize: provisioner not found")
                       StatusUnauthorized (authority.errContext ott)),
                a, [])
           | Some p =>
               if authority.guarded p claims
               then match authority.ottMap a !! id with
                    | Some _ =>
                        (Err (apiError (errors_New "token already used")
                                StatusUnauthorized (authority.errContext ott)),
                         a, [authority.EvLoadOrStore id rec true])
                    | None =>
                        (provisioner.Authorize p ott,
                         authority.set_ottMap a (<[id := rec]> (authority.ottMap a)),
                         [authority.EvLoadOrStore id rec false;
                          authority.EvProvisionerAuthorize p ott])
                    end
               else (provisioner.Authorize p ott, a,
                     [authority.EvProvisionerAuthorize p ott])
           end)
  /\ (forall claims',
        (0 < jose.IssuedAt (authority.Claims_ claims'))%Z ->
        authority.issuedBeforeStart a claims' =
          time.Before (jose.NumericDate_Time (jose.IssuedAt (authority.Claims_ claims')))
            (authority.startTime a)).
Proof.
  intros Hparse Hclaims Hiat id rec.
  assert (Hoff : forall a', authority.issuedBeforeStart a' claims = false).
  { intros a'. unfold authority.issuedBeforeStart.
    rewrite Z.gtb_ltb. by rewrite (proj2 (Z.ltb_ge _ _)) by lia. }
  split; [apply Hoff|]. split; [|split].
  - intros t.
    eapply Authorize_start_time_unused; eauto; rewrite Hoff; apply andb_false_r.
  - apply (Authorize_check_passed a ott now token claims Hparse Hclaims).
    rewrite Hoff. apply andb_false_r.
  - intros claims' Hpos. unfold authority.issuedBeforeStart.
    by rewrite (proj2 (Z.gtb_lt _ _)) by lia.
Qed.

End AuthorizeClaims.

(** *** The pipeline on the test doubles *)

(** C3 at a concrete input: the token "fresh" (id "id-1") against a CA whose
    replay guard already holds "id-1". *)
Lemma Authorize_rejects_replayed_token_witness :
  let used := authority.mkIdUsed 1500 "alice@example.com" in
  let a := fixtures.ca_with fixtures.jwk {[ "id-1" := used ]} in
  authority.Authorize a "fresh" (time.Unix 5000 0) =
    (Err (apiError (errors_New "token already used") StatusUnauthorized
            (authority.errContext "fresh")),
     a,
     [authority.EvLoadOrStore "id-1"
        (authority.mkIdUsed 5000 "alice@example.com") true]).
Proof.
  intros used a.
  apply (@Authorize_rejects_replayed_token unit fixtures.lib a "fresh"
           (time.Unix 5000 0) fixtures.jwk (fixtures.claims_of 2000 "id-1") used).
  - reflexivity.
  - reflexivity.
  - discriminate.
  - reflexivity.
Defined.

(** C4 at a concrete input: the token "fresh" against a CA with an empty
    replay guard and a provisioner that refuses every token.  The id is
    stored although verification fails, and the token is rejected as used
    from then on. *)
Lemma Authorize_records_before_delegating_witness :
  let a := fixtures.ca_with fixtures.strict_jwk ∅ in
  let rec := authority.mkIdUsed 5000 "alice@example.com" in
  let a' := fixtures.ca_with fixtures.strict_jwk {[ "id-1" := rec ]} in
  authority.Authorize a "fresh" (time.Unix 5000 0) =
    (Err (errors_New "invalid signature"), a',
     [authority.EvLoadOrStore "id-1" rec false;
      authority.EvProvisionerAuthorize fixtures.strict_jwk "fresh"])
  /\ forall calls now',
       let a'' := authority.after_calls a' calls in
       authority.ottMap a'' !! "id-1" = Some rec
       /\ authority.Authorize a'' "fresh" now' =
            (Err (apiError (errors_New "token already used") StatusUnauthorized
                    (authority.errContext "fresh")),
             a'',
             [authority.EvLoadOrStore "id-1"
                (authority.mkIdUsed (time.Unix_of now') "alice@example.com") true]).
Proof.
  intros a rec a'.
  apply (@Authorize_records_before_delegating unit fixtures.lib a "fresh"
           (time.Unix 5000 0) fixtures.strict_jwk (fixtures.claims_of 2000 "id-1")).
  - reflexivity.
  - reflexivity.
  - discriminate.
  - reflexivity.
Defined.

(** C5 as stated fails: with the check on and the CA started at second 1000,
    the token "ancient" (issued-at -1, one second before the epoch) and the
    token "undated" (issued-at 0) both lie strictly before the start time,
    and [Authorize] accepts both. *)
Lemma Authorize_bootstrap_guard_counterexample :
  authority.issuedAtCheck fixtures.ca = true
  /\ time.Before (jose.NumericDate_Time (-1)%Z) (authority.startTime fixtures.ca) = true
  /\ time.Before (jose.NumericDate_Time 0%Z) (authority.startTime fixtures.ca) = true
  /\ authority.Authorize fixtures.ca "ancient" (time.Unix 5000 0) =
       (Ok [tt],
        fixtures.ca_with fixtures.jwk
          {[ "id-3" := authority.mkIdUsed 5000 "alice@example.com" ]},
        [authority.EvLoadOrStore "id-3"
           (authority.mkIdUsed 5000 "alice@example.com") false;
         authority.EvProvisionerAuthorize fixtures.jwk "ancient"])
  /\ authority.Authorize fixtures.ca "undated" (time.Unix 5000 0) =
       (Ok [tt],
        fixtures.ca_with fixtures.jwk
          {[ "id-2" := authority.mkIdUsed 5000 "alice@example.com" ]},
        [authority.EvLoadOrStore "id-2"
           (authority.mkIdUsed 5000 "alice@example.com") false;
         authority.EvProvisionerAuthorize fixtures.jwk "undated"]).
Proof. repeat split; reflexivity. Qed.

(** C5 as amended, at concrete inputs: "stale" (issued at second 500) is
    rejected by the CA started at second 1000; the unchecked CA accepts it,
    records its id and hands it to the provisioner, and runs as under any
    other start time. *)
Lemma Authorize_bootstrap_guard_witness :
  authority.Authorize fixtures.ca "stale" (time.Unix 5000 0) =
    (Err (apiError
            (errors_New "token issued before the bootstrap of certificate authority")
            StatusUnauthorized (authority.errContext "stale")),
     fixtures.ca, [])
  /\ authority.Authorize fixtures.ca_unchecked "stale" (time.Unix 5000 0) =
       (Ok [tt],
        authority.set_ottMap fixtures.ca_unchecked
          {[ "id-4" := authority.mkIdUsed 5000 "alice@example.com" ]},
        [authority.EvLoadOrStore "id-4"
           (authority.mkIdUsed 5000 "alice@example.com") false;
         authority.EvProvisionerAuthorize fixtures.jwk "stale"])
  /\ forall t,
       authority.Authorize (authority.set_startTime fixtures.ca_unchecked t) "stale"
         (time.Unix 5000 0) =
         (let '(r, a', log) :=
            authority.Authorize fixtures.ca_unchecked "stale" (time.Unix 5000 0) in
          (r, authority.set_startTime a' t, log)).
Proof.
  split.
  - apply (proj1 (@Authorize_bootstrap_guard unit fixtures.lib fixtures.ca "stale"
                    (time.Unix 5000 0) (fixtures.claims_of 500 "id-4")
                    (fixtures.claims_of 500 "id-4") eq_refl eq_refl));
      [reflexivity | simpl; lia | reflexivity].
  - destruct (proj2 (@Authorize_bootstrap_guard unit fixtures.lib fixtures.ca_unchecked
                       "stale" (time.Unix 5000 0) (fixtures.claims_of 500 "id-4")
                       (fixtures.claims_of 500 "id-4") eq_refl eq_refl) eq_refl)
      as (_ & Hrun & Hany).
    split; [|exact Hany]. rewrite Hrun. reflexivity.
Defined.

(** C9 at a concrete input: "undated" against the CA with the check on is
    accepted, recorded and handed to the provisioner. *)
Lemma Authorize_undated_token_passes_guard_witness :
  authority.issuedBeforeStart fixtures.ca (fixtures.claims_of 0 "id-2") = false
  /\ (forall t,
        authority.Authorize (authority.set_startTime fixtures.ca t) "undated"
          (time.Unix 5000 0) =
          (let '(r, a', log) := authority.Authorize fixtures.ca "undated" (time.Unix 5000 0) in
           (r, authority.set_startTime a' t, log)))
  /\ authority.Authorize fixtures.ca "undated" (time.Unix 5000 0) =
       (Ok [tt],
        fixtures.ca_with fixtures.jwk
          {[ "id-2" := authority.mkIdUsed 5000 "alice@example.com" ]},
        [authority.EvLoadOrStore "id-2"
           (authority.mkIdUsed 5000 "alice@example.com") false;
         authority.EvProvisionerAuthorize fixtures.jwk "undated"]).
Proof.
  destruct (@Authorize_undated_token_passes_guard unit fixtures.lib fixtures.ca "undated"
              (time.Unix 5000 0) (fixtures.claims_of 0 "id-2") (fixtures.claims_of 0 "id-2"))
    as (Hguard & Hany & (_ & Hrun) & _).
  - reflexivity.
  - reflexivity.
  - simpl. lia.
  - split; [exact Hguard|]. split; [exact Hany|]. rewrite Hrun. reflexivity.
Defined.

(** ** Audience matching *)

(** *** [stripPort] on plain URLs *)

Lemma all_ascii_complete (c : ascii) : In c all_ascii.
Proof.
  unfold all_ascii. apply in_map_iff. exists (nat_of_ascii c).
  split; [apply ascii_nat_embedding|]. apply in_seq.
  pose proof (nat_ascii_bounded c). lia.
Qed.

(** A property of bytes holds when it holds of each of the 256. *)
Lemma forall_ascii (P : ascii -> bool) :
  forallb P all_ascii = true -> forall c, P c = true.
Proof. intros H c. eapply forallb_forall in H; [exact H|apply all_ascii_complete]. Qed.

Lemma class_implies (P Q : ascii -> bool) :
  forallb (fun c => negb (P c) || Q c) all_ascii = true ->
  forall c, P c = true -> Q c = true.
Proof.
  intros H c Hc. apply (forall_ascii _ H c) in Hc || idtac.
  pose proof (forall_ascii _ H c) as H'. simpl in H'. by rewrite Hc in H'.
Qed.

Lemma HasPrefix_empty (s : string) : strings.HasPrefix s "" = true.
Proof. by destruct s. Qed.

Lemma append_cons (c : ascii) (s t : string) : String c s +:+ t = String c (s +:+ t).
Proof. reflexivity. Qed.

Lemma append_nil (t : string) : "" +:+ t = t.
Proof. reflexivity. Qed.

Lemma all_bytes_app (P : ascii -> bool) (s t : string) :
  url.all_bytes P (s +:+ t) = url.all_bytes P s && url.all_bytes P t.
Proof.
  induction s as [|c s IH]; [done|].
  change (String c s +:+ t) with (String c (s +:+ t)). simpl. by rewrite IH, andb_assoc.
Qed.

Lemma all_bytes_impl (P Q : ascii -> bool) (s : string) :
  (forall c, P c = true -> Q c = true) ->
  url.all_bytes P s = true -> url.all_bytes Q s = true.
Proof.
  intros HPQ. induction s as [|c s IH]; simpl; [done|].
  intros H; apply andb_true_iff in H as [Hc Hs]. by rewrite (HPQ c Hc), IH.
Qed.

Lemma all_bytes_drop (P : ascii -> bool) (n : nat) (s : string) :
  url.all_bytes P s = true -> url.all_bytes P (strings.drop n s) = true.
Proof.
  revert s. induction n as [|n IH]; intros [|c s]; simpl; try done.
  intros H; apply andb_true_iff in H as [_ Hs]. by apply IH.
Qed.

Lemma Index_absent (x : ascii) (s : string) :
  url.all_bytes (is_not x) s = true -> strings.Index s (String x "") = None.
Proof.
  induction s as [|c s IH]; simpl; [done|].
  intros H; apply andb_true_iff in H as [Hc Hs]. unfold is_not in Hc. apply negb_true_iff in Hc.
  rewrite Ascii.eqb_sym, Hc. by rewrite IH.
Qed.

Lemma Index_first (x : ascii) (s t : string) :
  url.all_bytes (is_not x) s = true ->
  strings.Index (s +:+ String x t) (String x "") = Some (String.length s).
Proof.
  induction s as [|c s IH]; rewrite ?append_nil, ?append_cons; simpl.
  - intros _. by rewrite Ascii.eqb_refl, HasPrefix_empty.
  - intros H; apply andb_true_iff in H as [Hc Hs]. unfold is_not in Hc. apply negb_true_iff in Hc.
    rewrite Ascii.eqb_sym, Hc. by rewrite IH.
Qed.

Lemma LastIndex_absent (x : ascii) (s : string) :
  url.all_bytes (is_not x) s = true -> strings.LastIndex s (String x "") = None.
Proof.
  induction s as [|c s IH]; simpl; [done|].
  intros H; apply andb_true_iff in H as [Hc Hs]. unfold is_not in Hc. apply negb_true_iff in Hc.
  by rewrite IH, Ascii.eqb_sym, Hc.
Qed.

Lemma LastIndex_last (x : ascii) (s t : string) :
  url.all_bytes (is_not x) t = true ->
  strings.LastIndex (s +:+ String x t) (String x "") = Some (String.length s).
Proof.
  intros Ht. induction s as [|c s IH]; rewrite ?append_nil, ?append_cons; simpl.
  - by rewrite (LastIndex_absent _ _ Ht), Ascii.eqb_refl, HasPrefix_empty.
  - by rewrite IH.
Qed.

Lemma string_take_app (s t : string) : strings.take (String.length s) (s +:+ t) = s.
Proof.
  induction s as [|c s IH]; rewrite ?append_nil, ?append_cons; simpl; [by destruct t|].
  by rewrite IH.
Qed.

Lemma string_drop_app (s t : string) : strings.drop (String.length s) (s +:+ t) = t.
Proof.
  induction s as [|c s IH]; rewrite ?append_nil, ?append_cons; simpl; [by destruct t|done].
Qed.

Lemma append_empty_r (s : string) : s +:+ "" = s.
Proof. induction s as [|c s IH]; [done|]. by rewrite append_cons, IH. Qed.

Lemma append_assoc (s t u : string) : (s +:+ t) +:+ u = s +:+ (t +:+ u).
Proof. induction s as [|c s IH]; [done|]. by rewrite !append_cons, IH. Qed.

Lemma is_not_of (P : ascii -> bool) (x : ascii) (s : string) :
  P x = false -> url.all_bytes P s = true -> url.all_bytes (is_not x) s = true.
Proof.
  intros Hx. apply all_bytes_impl. intros c Hc. unfold is_not.
  apply negb_true_iff, Ascii.eqb_neq. intros ->. congruence.
Qed.

Lemma getscheme_from_lower (sch raw rest : string) (i : nat) :
  url.all_bytes lower_byte sch = true ->
  0 < i + String.length sch ->
  url.getscheme_from i raw (sch +:+ String ":" rest)
  = Some (strings.take (i + String.length sch) raw, rest).
Proof.
  revert i. induction sch as [|c sch IH]; intros i Hl Hi.
  - rewrite append_nil. change (String.length "") with 0 in *. rewrite Nat.add_0_r in *.
    destruct i; [lia|]. done.
  - rewrite append_cons. simpl in Hl. apply andb_true_iff in Hl as [Hc Hl].
    cbn [url.getscheme_from].
    assert (url.is_alpha c = true) as ->.
    { revert Hc. apply (class_implies lower_byte url.is_alpha). by vm_compute. }
    rewrite IH; [|done|simpl; lia].
    change (String.length (String c sch)) with (S (String.length sch)).
    by rewrite Nat.add_succ_r.
Qed.

Lemma ToLower_lower (s : string) : url.all_bytes lower_byte s = true -> strings.ToLower s = s.
Proof.
  induction s as [|c s IH]; simpl; [done|].
  intros H. apply andb_true_iff in H as [Hc Hs].
  assert (strings.is_upper c = false) as ->.
  { apply negb_true_iff. revert Hc.
    apply (class_implies lower_byte (fun c => negb (strings.is_upper c))). by vm_compute. }
  by rewrite IH.
Qed.

Lemma unescape_copied (s : string) (mode : url.encoding) :
  url.all_bytes (copied mode) s = true -> url.unescape s mode = Some s.
Proof.
  induction s as [|c s IH]; simpl; [done|].
  intros H. apply andb_true_iff in H as [Hc Hs]. unfold copied in Hc.
  apply andb_true_iff in Hc as [Hc H3]. apply andb_true_iff in Hc as [H1 H2].
  apply negb_true_iff in H1, H2, H3. rewrite H1, H2, H3. by rewrite IH.
Qed.

Lemma escape_kept (s : string) (mode : url.encoding) :
  url.all_bytes (kept mode) s = true -> url.escape s mode = s.
Proof.
  induction s as [|c s IH]; simpl; [done|].
  intros H. apply andb_true_iff in H as [Hc Hs]. unfold kept in Hc.
  apply andb_true_iff in Hc as [H1 H2]. apply negb_true_iff in H1, H2.
  rewrite H2, H1. simpl. by rewrite IH.
Qed.

Lemma eqb_star (s : string) : url.all_bytes inert_byte s = true -> String.eqb s "*" = false.
Proof. intros H. apply String.eqb_neq. intros ->. discriminate H. Qed.

Lemma no_CTL (s : string) :
  url.all_bytes inert_byte s = true -> url.stringContainsCTLByte s = false.
Proof.
  intros H. unfold url.stringContainsCTLByte. apply negb_false_iff.
  revert H. apply all_bytes_impl. apply class_implies. by vm_compute.
Qed.

Lemma HasSuffix_absent (x : ascii) (s : string) :
  url.all_bytes (is_not x) s = true -> strings.HasSuffix s (String x "") = false.
Proof.
  intros H. unfold strings.HasSuffix. apply andb_false_iff. right.
  apply String.eqb_neq. intros Heq.
  apply (all_bytes_drop _ (String.length s - String.length (String x ""))) in H.
  rewrite Heq in H. simpl in H. unfold is_not in H. by rewrite Ascii.eqb_refl in H.
Qed.

Lemma eqb_empty_false (s : string) : s <> "" -> String.eqb s "" = false.
Proof. intros H. by apply String.eqb_neq. Qed.

Lemma HasPrefix_char (x c : ascii) (s : string) :
  strings.HasPrefix (String c s) (String x "") = Ascii.eqb x c.
Proof.
  change (strings.HasPrefix (String c s) (String x ""))
    with (if Ascii.eqb x c then strings.HasPrefix s "" else false).
  rewrite HasPrefix_empty. by destruct (Ascii.eqb x c).
Qed.

Lemma HasPrefix_app (p s : string) : strings.HasPrefix (p +:+ s) p = true.
Proof.
  induction p as [|c p IH]; [apply HasPrefix_empty|].
  rewrite append_cons. cbn [strings.HasPrefix]. by rewrite Ascii.eqb_refl.
Qed.

Lemma HasPrefix_bracket (host rest : string) :
  host <> "" -> url.all_bytes host_byte host = true ->
  strings.HasPrefix (host +:+ rest) "[" = false.
Proof.
  destruct host as [|c host]; [done|]. intros _ H.
  rewrite append_cons, HasPrefix_char.
  cbn [url.all_bytes] in H. apply andb_true_iff in H as [Hc _].
  apply Ascii.eqb_neq. intros <-. by vm_compute in Hc.
Qed.

Lemma parseHost_host (host : string) :
  host <> "" -> url.all_bytes host_byte host = true -> url.parseHost host = Some host.
Proof.
  intros Hne Hh. unfold url.parseHost.
  rewrite <- (append_empty_r host) at 1. rewrite (HasPrefix_bracket _ _ Hne Hh).
  rewrite LastIndex_absent by (revert Hh; by apply is_not_of).
  apply unescape_copied. revert Hh. apply all_bytes_impl, class_implies. by vm_compute.
Qed.

Lemma parseHost_port (host port : string) :
  host <> "" -> url.all_bytes host_byte host = true -> url.all_bytes url.is_digit port = true ->
  url.parseHost (host +:+ ":" +:+ port) = Some (host +:+ ":" +:+ port).
Proof.
  intros Hne Hh Hp. unfold url.parseHost.
  rewrite (HasPrefix_bracket _ _ Hne Hh).
  change (":" +:+ port) with (String ":" port).
  rewrite LastIndex_last by (revert Hp; by apply is_not_of).
  rewrite string_drop_app. cbn [url.validOptionalPort]. rewrite Ascii.eqb_refl, Hp. simpl.
  apply unescape_copied. rewrite all_bytes_app. apply andb_true_iff. split.
  - revert Hh. apply all_bytes_impl, class_implies. by vm_compute.
  - simpl. revert Hp. apply all_bytes_impl, class_implies. by vm_compute.
Qed.

(** [Parse] on a URL of the plain shape scheme://hostport/path. *)
Lemma Parse_plain (scheme hostport path : string) :
  scheme <> "" -> url.all_bytes lower_byte scheme = true ->
  url.all_bytes inert_byte hostport = true ->
  url.all_bytes (is_not "/") hostport = true ->
  url.parseHost hostport = Some hostport ->
  path = "" \/ (exists path', path = String "/" path') ->
  url.all_bytes path_byte path = true ->
  url.Parse (scheme +:+ "://" +:+ hostport +:+ path)
  = Some (url.mkURL scheme "" None hostport path "" false false "" "" "").
Proof.
  intros Hsne Hs Hhp Hslash Hhost Hshape Hp.
  set (rest := "//" +:+ hostport +:+ path).
  assert (Hrest : url.all_bytes inert_byte rest = true).
  { subst rest. change ("//" +:+ hostport +:+ path)
      with (String "/" (String "/" (hostport +:+ path))).
    simpl. rewrite all_bytes_app, Hhp. simpl.
    revert Hp. apply all_bytes_impl, class_implies. by vm_compute. }
  assert (Hraw : url.all_bytes inert_byte (scheme +:+ "://" +:+ hostport +:+ path) = true).
  { rewrite all_bytes_app. apply andb_true_iff. split.
    - revert Hs. apply all_bytes_impl, class_implies. by vm_compute.
    - exact Hrest. }
  unfold url.Parse, url.split.
  rewrite Index_absent by (revert Hraw; by apply is_not_of).
  unfold url.parse. rewrite (no_CTL _ Hraw), (eqb_star _ Hraw).
  unfold url.getscheme.
  change (scheme +:+ "://" +:+ hostport +:+ path) with (scheme +:+ String ":" rest).
  rewrite getscheme_from_lower by (done || (destruct scheme; [done|simpl; lia])).
  cbn [mbind option_bind]. rewrite Nat.add_0_l, string_take_app, (ToLower_lower _ Hs).
  rewrite HasSuffix_absent by (revert Hrest; by apply is_not_of). cbn [andb].
  unfold url.split. rewrite Index_absent by (revert Hrest; by apply is_not_of).
  assert (strings.HasPrefix rest "/" = true) as ->
    by (subst rest; apply (HasPrefix_app "/" ("/" +:+ hostport +:+ path))).
  assert (strings.HasPrefix rest "//" = true) as ->
    by (subst rest; apply (HasPrefix_app "//")).
  rewrite (eqb_empty_false _ Hsne). cbn [negb andb orb].
  assert (strings.drop 2 rest = hostport +:+ path) as -> by (subst rest; reflexivity).
  assert (Hsplit : match strings.Index (hostport +:+ path) "/" with
                   | Some i => (strings.take i (hostport +:+ path),
                                strings.drop i (hostport +:+ path))
                   | None => (hostport +:+ path, "")
                   end = (hostport, path)).
  { destruct Hshape as [->|[path' ->]].
    - rewrite append_empty_r, Index_absent by done. done.
    - rewrite Index_first by done. by rewrite string_take_app, string_drop_app. }
  rewrite Hsplit.
  unfold url.parseAuthority.
  assert (Hat : url.all_bytes (is_not "@") hostport = true)
    by (revert Hhp; by apply is_not_of).
  rewrite (LastIndex_absent _ _ Hat), Hhost. cbn [mbind option_bind].
  unfold url.setPath.
  assert (Hcopied : url.all_bytes (copied url.encodePath) path = true)
    by (revert Hp; apply all_bytes_impl, class_implies; by vm_compute).
  assert (Hkept : url.all_bytes (kept url.encodePath) path = true)
    by (revert Hp; apply all_bytes_impl, class_implies; by vm_compute).
  rewrite (unescape_copied _ _ Hcopied). cbn [mbind option_bind].
  by rewrite (escape_kept _ _ Hkept), !String.eqb_refl.
Qed.

(** [String] on the URL that [Parse] makes of scheme://host/path. *)
Lemma String_plain (scheme host path : string) :
  scheme <> "" -> host <> "" -> url.all_bytes host_byte host = true ->
  path = "" \/ (exists path', path = String "/" path') ->
  url.all_bytes path_byte path = true ->
  url.String_ (url.mkURL scheme "" None host path "" false false "" "" "")
  = scheme +:+ "://" +:+ host +:+ path.
Proof.
  intros Hsne Hhne Hh Hshape Hp.
  assert (Hkh : url.all_bytes (kept url.encodeHost) host = true)
    by (revert Hh; apply all_bytes_impl, class_implies; by vm_compute).
  assert (Hkp : url.all_bytes (kept url.encodePath) path = true)
    by (revert Hp; apply all_bytes_impl, class_implies; by vm_compute).
  assert (Hstar : String.eqb path "*" = false).
  { apply String.eqb_neq. by destruct Hshape as [->|[path' ->]]. }
  assert (Hslash : negb (String.eqb path "") && negb (strings.HasPrefix path "/") = false).
  { destruct Hshape as [->|[path' ->]]; [done|].
    by rewrite HasPrefix_char, Ascii.eqb_refl, andb_false_r. }
  unfold url.String_, url.EscapedPath. cbn [url.Scheme url.Opaque url.User url.Host
    url.Path url.RawPath url.OmitHost url.ForceQuery url.RawQuery url.Fragment
    url.is_Some_b].
  rewrite (eqb_empty_false _ Hsne), (eqb_empty_false _ Hhne), String.eqb_refl, Hstar.
  cbn [negb andb orb]. rewrite (escape_kept _ _ Hkh), (escape_kept _ _ Hkp).
  rewrite Hslash. cbn [andb].
  assert (String.eqb ((scheme +:+ ":") +:+ "//" +:+ "" +:+ host) "" = false) as ->.
  { apply String.eqb_neq. destruct scheme; [done|]. by rewrite !append_cons. }
  cbn [andb]. by rewrite !append_assoc.
Qed.

Lemma HasPrefix_bracket_host (host : string) :
  url.all_bytes host_byte host = true -> strings.HasPrefix host "[" = false.
Proof.
  destruct host as [|c host]; [done|]. intros H. rewrite HasPrefix_char.
  cbn [url.all_bytes] in H. apply andb_true_iff in H as [Hc _].
  apply Ascii.eqb_neq. intros <-. by vm_compute in Hc.
Qed.

Lemma Hostname_host (u : url.URL) (host : string) :
  url.Host u = host -> url.all_bytes host_byte host = true -> url.Hostname u = host.
Proof.
  intros E Hh. unfold url.Hostname, url.splitHostPort. rewrite E.
  rewrite LastIndex_absent by (revert Hh; by apply is_not_of).
  by rewrite (HasPrefix_bracket_host _ Hh).
Qed.

Lemma Hostname_port (u : url.URL) (host port : string) :
  url.Host u = host +:+ ":" +:+ port ->
  url.all_bytes host_byte host = true -> url.all_bytes url.is_digit port = true ->
  url.Hostname u = host.
Proof.
  intros E Hh Hp. unfold url.Hostname, url.splitHostPort. rewrite E.
  change (":" +:+ port) with (String ":" port).
  rewrite LastIndex_last by (revert Hp; by apply is_not_of).
  rewrite string_drop_app. cbn [url.validOptionalPort]. rewrite Ascii.eqb_refl, Hp.
  cbn [andb]. rewrite string_take_app. by rewrite (HasPrefix_bracket_host _ Hh).
Qed.

(** [stripPort] drops the port of a plain URL and leaves a plain URL without
    port as it is. *)
Lemma stripPort_plain (scheme host port path : string) :
  scheme <> "" -> url.all_bytes lower_byte scheme = true ->
  host <> "" -> url.all_bytes host_byte host = true ->
  url.all_bytes url.is_digit port = true ->
  path = "" \/ (exists path', path = String "/" path') ->
  url.all_bytes path_byte path = true ->
  authority.stripPort (scheme +:+ "://" +:+ (host +:+ ":" +:+ port) +:+ path)
  = scheme +:+ "://" +:+ host +:+ path
  /\ authority.stripPort (scheme +:+ "://" +:+ host +:+ path)
     = scheme +:+ "://" +:+ host +:+ path.
Proof.
  intros Hsne Hs Hhne Hh Hport Hshape Hp.
  assert (Hhi : url.all_bytes inert_byte host = true)
    by (revert Hh; apply all_bytes_impl, class_implies; by vm_compute).
  assert (Hhs : url.all_bytes (is_not "/") host = true)
    by (revert Hh; by apply is_not_of).
  assert (Hpi : url.all_bytes inert_byte (String ":" port) = true).
  { cbn [url.all_bytes]. apply andb_true_iff. split; [done|].
    revert Hport. apply all_bytes_impl, class_implies. by vm_compute. }
  assert (Hps : url.all_bytes (is_not "/") (String ":" port) = true).
  { cbn [url.all_bytes]. apply andb_true_iff. split; [done|].
    revert Hport. by apply is_not_of. }
  unfold authority.stripPort. split.
  - rewrite (Parse_plain scheme (host +:+ ":" +:+ port) path); try done.
    + cbn [url.Scheme url.Opaque url.User url.Path url.RawPath url.ForceQuery
           url.RawQuery url.Fragment].
      rewrite (Hostname_port _ host port); try done.
      by apply String_plain.
    + change (":" +:+ port) with (String ":" port). by rewrite all_bytes_app, Hhi, Hpi.
    + change (":" +:+ port) with (String ":" port). by rewrite all_bytes_app, Hhs, Hps.
    + by apply parseHost_port.
  - rewrite (Parse_plain scheme host path); try done.
    + cbn [url.Scheme url.Opaque url.User url.Path url.RawPath url.ForceQuery
           url.RawQuery url.Fragment].
      rewrite (Hostname_host _ host); try done.
      by apply String_plain.
    + by apply parseHost_host.
Qed.

(** *** [matchesAudience] *)

Lemma matchesAudience_inner_true b as_ :
  authority.matchesAudience_inner b as_ = true <->
  exists a, a ∈ as_ /\ authority.stripPort a = authority.stripPort b.
Proof.
  induction as_ as [|a as_ IH]; simpl.
  - split; [done|]. intros (a & Ha & _). by apply elem_of_nil in Ha.
  - destruct (String.eqb b a || _) eqn:Hhit.
    + split; [intros _|done]. exists a. split; [left|].
      apply orb_true_iff in Hhit as [Heq|Heq].
      * apply String.eqb_eq in Heq. by subst.
      * by apply String.eqb_eq in Heq.
    + apply orb_false_iff in Hhit as [_ Hne]. apply String.eqb_neq in Hne.
      rewrite IH. split.
      * intros (a' & Ha' & Heq). exists a'. split; [by right|done].
      * intros (a' & Ha' & Heq). apply elem_of_cons in Ha' as [->|Ha']; [done|].
        by exists a'.
Qed.

Lemma matchesAudience_outer_true as_ bs :
  authority.matchesAudience_outer as_ bs = true <->
  exists a b, a ∈ as_ /\ b ∈ bs /\ authority.stripPort a = authority.stripPort b.
Proof.
  induction bs as [|b bs IH]; simpl.
  - split; [done|]. intros (a & b & _ & Hb & _). by apply elem_of_nil in Hb.
  - destruct (authority.matchesAudience_inner b as_) eqn:Hin.
    + split; [intros _|done]. apply matchesAudience_inner_true in Hin as (a & Ha & Heq).
      exists a, b. split; [done|]. split; [left|done].
    + rewrite IH. split.
      * intros (a & b' & Ha & Hb' & Heq). exists a, b'. split; [done|].
        split; [by right|done].
      * intros (a & b' & Ha & Hb' & Heq).
        apply elem_of_cons in Hb' as [->|Hb']; [|by exists a, b'].
        assert (authority.matchesAudience_inner b as_ = true) as Hyes
          by (apply matchesAudience_inner_true; by exists a).
        congruence.
Qed.

Lemma matchesAudience_true as_ bs :
  authority.matchesAudience as_ bs = true <->
  exists a b, a ∈ as_ /\ b ∈ bs /\ authority.stripPort a = authority.stripPort b.
Proof.
  unfold authority.matchesAudience.
  destruct bs as [|b bs]; simpl.
  { split; [done|]. intros (a & b & _ & Hb & _). by apply elem_of_nil in Hb. }
  destruct as_ as [|a as_]; simpl.
  { split; [done|]. intros (a & b' & Ha & _). by apply elem_of_nil in Ha. }
  apply (matchesAudience_outer_true (a :: as_) (b :: bs)).
Qed.

(** C6.  [matchesAudience configured tokenAudiences] is true exactly when
    some configured audience and some token audience are equal after
    [stripPort], the normalization that drops the port of an entry that
    parses as a URL; it is symmetric in its two arguments.  For every URL
    scheme://host:port/path (lower-case scheme, host of letters, digits,
    hyphens and dots, decimal port, path of unreserved bytes and slashes)
    [stripPort] returns scheme://host/path, which it leaves as it is, so the
    two match whichever side each is on.  A provisioner
    configured with https://ca.example/sign accepts the token audience
    https://ca.example:8443/sign and rejects https://other.example/sign; and
    https://ca.example:443/foo matches https://ca.example/foo. *)
Theorem matchesAudience_port_insensitive :
  (forall configured tokenAudiences : list string,
     authority.matchesAudience configured tokenAudiences = true <->
     exists a b, a ∈ configured /\ b ∈ tokenAudiences
                 /\ authority.stripPort a = authority.stripPort b)
  /\ (forall as_ bs : list string,
        authority.matchesAudience as_ bs = authority.matchesAudience bs as_)
  /\ (forall scheme host port path : string,
        scheme <> "" -> url.all_bytes lower_byte scheme = true ->
        host <> "" -> url.all_bytes host_byte host = true ->
        url.all_bytes url.is_digit port = true ->
        path = "" \/ (exists path', path = String "/" path') ->
        url.all_bytes path_byte path = true ->
        let with_port := scheme +:+ "://" +:+ (host +:+ ":" +:+ port) +:+ path in
        let without := scheme +:+ "://" +:+ host +:+ path in
        authority.stripPort with_port = without
        /\ authority.stripPort without = without
        /\ authority.matchesAudience [without] [with_port] = true
        /\ authority.matchesAudience [with_port] [without] = true)
  /\ authority.stripPort "https://ca.example:8443/sign" = "https://ca.example/sign"
  /\ authority.matchesAudience ["https://ca.example/sign"]
       ["https://ca.example:8443/sign"] = true
  /\ authority.matchesAudience ["https://ca.example/sign"]
       ["https://other.example/sign"] = false
  /\ authority.matchesAudience ["https://ca.example:443/foo"]
       ["https://ca.example/foo"] = true.
Proof.
  split; [exact matchesAudience_true|].
  split; [|split; [|by vm_compute]].
  - intros as_ bs.
    destruct (authority.matchesAudience as_ bs) eqn:H1,
             (authority.matchesAudience bs as_) eqn:H2; try done.
    + apply matchesAudience_true in H1 as (a & b & Ha & Hb & Heq).
      assert (authority.matchesAudience bs as_ = true) as H3
        by (apply matchesAudience_true; by exists b, a).
      congruence.
    + apply matchesAudience_true in H2 as (b & a & Hb & Ha & Heq).
      assert (authority.matchesAudience as_ bs = true) as H3
        by (apply matchesAudience_true; by exists a, b).
      congruence.
  - intros scheme host port path Hsne Hs Hhne Hh Hport Hshape Hp with_port without.
    destruct (stripPort_plain scheme host port path) as [Hwith Hwithout]; try done.
    fold with_port in Hwith. fold without in Hwith, Hwithout.
    split; [done|]. split; [done|].
    split; apply matchesAudience_true.
    + exists without, with_port. repeat split; [by left..|congruence].
    + exists with_port, without. repeat split; [by left..|congruence].
Qed.

Lemma matchesAudience_port_insensitive_witness :
  authority.stripPort "wss://ca-1.corp.example:9443/v1/sign"
    = "wss://ca-1.corp.example/v1/sign"
  /\ authority.matchesAudience ["wss://ca-1.corp.example/v1/sign"]
       ["wss://ca-1.corp.example:9443/v1/sign"] = true.
Proof.
  destruct matchesAudience_port_insensitive as (_ & _ & H & _).
  destruct (H "wss" "ca-1.corp.example" "9443" "/v1/sign") as (H1 & _ & H2 & _).
  - discriminate.
  - reflexivity.
  - discriminate.
  - reflexivity.
  - reflexivity.
  - right. by exists "v1/sign".
  - reflexivity.
  - split; [exact H1|exact H2].
Defined.

(** ** The HTTP handlers *)
Section HandlerFacts.
Context `{SL : ssh.Lib} {SignOption TimeDuration Template : Type}.
Context `{EL : api.Errors}.

Local Abbreviation ApiAuthority :=
  (@api.Authority SL SignOption TimeDuration Template).
Local Abbreviation SignSSHRequest := (@api.SignSSHRequest TimeDuration).

Implicit Types (h : ApiAuthority).

(** C10.  When [Validate] returns nil the request type is "user" or "host"
    (an empty type has been rewritten to "user"), so the switch of the
    handler takes one of its two cases and never its default branch: the
    handler answers with what [GetSSHConfig] rendered, or with the error
    [GetSSHConfig] returned. *)
Theorem SSHConfig_default_unreachable h (r r' : api.SSHConfigRequest) :
  api.SSHConfigRequest_Validate r = (r', None) ->
  (api.Type_ r' = provisioner.SSHUserCert \/ api.Type_ r' = provisioner.SSHHostCert)
  /\ (api.Type_ r = "" -> api.Type_ r' = provisioner.SSHUserCert)
  /\ (forall ts : list Template, is_Some (api.SSHConfig_switch (api.Type_ r') ts))
  /\ api.SSHConfig_handler h (Ok r) =
       (match api.GetSSHConfig h (api.Type_ r') (api.Data r') with
        | Ok ts => api.JSON StatusOK (api.mkSSHConfigResponse ts [])
        | Err err => api.WriteError (api.InternalServerError err)
        end,
        [api.CallGetSSHConfig (api.Type_ r') (api.Data r')]).
Proof.
  intros Hv.
  assert (Htype : api.Type_ r' = provisioner.SSHUserCert
                  \/ api.Type_ r' = provisioner.SSHHostCert).
  { revert Hv. unfold api.SSHConfigRequest_Validate.
    destruct (String.eqb (api.Type_ r) "") eqn:He; [intros [= <-]; by left|].
    destruct (String.eqb (api.Type_ r) provisioner.SSHUserCert) eqn:Hu; simpl.
    { intros [= <-]. left. by apply String.eqb_eq. }
    destruct (String.eqb (api.Type_ r) provisioner.SSHHostCert) eqn:Hh; simpl.
    { intros [= <-]. right. by apply String.eqb_eq. }
    done. }
  assert (Hswitch : forall ts : list Template,
             api.SSHConfig_switch (api.Type_ r') ts
             = Some (api.mkSSHConfigResponse ts [])).
  { intros ts. unfold api.SSHConfig_switch. by destruct Htype as [-> | ->]. }
  split; [done|]. split.
  { intros He. revert Hv. unfold api.SSHConfigRequest_Validate.
    rewrite He. simpl. by intros [= <-]. }
  split; [intros ts; by rewrite Hswitch|].
  unfold api.SSHConfig_handler, api.SSHConfig_body, api.call, run. monad_unfold.
  rewrite Hv. simpl.
  destruct (api.GetSSHConfig h _ _) as [ts|err]; simpl; [|done].
  by rewrite Hswitch.
Qed.

(** C2.  Once the sign handler has obtained the primary certificate [cert]
    from [SignSSH], it calls [SignSSHAddUser] if and only if the request
    carried an add-user public key, [cert] is a user certificate and [cert]
    has exactly one principal.  When it calls, it passes the parsed add-user
    key and [cert] itself, whose one principal is the account to add, and
    answers 201 with both certificates (with the error of that call, made
    with [Forbidden], if it fails).  Otherwise
    (a host certificate, or several principals, or no add-user key) it makes
    no such call and answers 201 with the primary certificate alone. *)
Theorem SignSSH_add_user_rule h (body : SignSSHRequest) resp calls publicKey opts signOpts cert :
  api.SignSSH_handler h (Ok body) = (resp, calls) ->
  api.CallSignSSH publicKey opts signOpts ∈ calls ->
  api.SignSSH h publicKey opts signOpts = Ok cert ->
  let issue :=
    is_Some (api.AddUserPublicKey body)
    /\ ssh.CertType cert = ssh.UserCert
    /\ length (ssh.ValidPrincipals cert) = 1%nat in
  ((exists key c, api.CallSignSSHAddUser key c ∈ calls) <-> issue)
  /\ (forall key c,
        api.CallSignSSHAddUser key c ∈ calls ->
        c = cert
        /\ (exists bytes, api.AddUserPublicKey body = Some bytes
                          /\ ssh.ParsePublicKey bytes = Ok key)
        /\ (exists principal, ssh.ValidPrincipals cert = [principal])
        /\ resp = match api.SignSSHAddUser h key cert with
                  | Ok addUserCert =>
                      api.JSON StatusCreated
                        (api.mkSignSSHResponse (api.mkSSHCertificate (Some cert))
                           (Some (api.mkSSHCertificate (Some addUserCert))))
                  | Err err => api.WriteError (api.Forbidden err)
                  end)
  /\ (~ issue ->
      resp = api.JSON StatusCreated
               (api.mkSignSSHResponse (api.mkSSHCertificate (Some cert)) None)).
Proof.
  intros Hrun Hin Hsign issue. revert Hrun.
  unfold api.SignSSH_handler, api.SignSSH_body, api.call, run. monad_unfold.
  destruct (api.SignSSHRequest_Validate body); simpl;
    [intros [= <- <-]; elem_of_cases Hin|].
  destruct (ssh.ParsePublicKey (api.PublicKey_ body)) as [pk|e]; simpl;
    [|intros [= <- <-]; elem_of_cases Hin].
  destruct (api.AddUserPublicKey body) as [bytes|] eqn:Hadd; simpl.
  - destruct (ssh.ParsePublicKey bytes) as [key|e] eqn:Hkey; simpl;
      [|intros [= <- <-]; elem_of_cases Hin].
    destruct (api.Authorize h _ _) as [so|e]; simpl;
      [|intros [= <- <-]; elem_of_cases Hin].
    destruct (api.SignSSH h pk _ so) as [cert'|e] eqn:Hsign'; simpl.
    2: { intros [= <- <-]. elem_of_cases Hin. injection Hin as -> -> ->. congruence. }
    destruct ((ssh.CertType cert' =? ssh.UserCert)%Z
              && (length (ssh.ValidPrincipals cert') =? 1)%nat) eqn:Hcond; simpl.
    + apply andb_true_iff in Hcond as [Hty Hlen].
      apply Z.eqb_eq in Hty. apply Nat.eqb_eq in Hlen.
      intros Hrun.
      assert (resp = match api.SignSSHAddUser h key cert' with
                     | Ok addUserCert =>
                         api.JSON StatusCreated
                           (api.mkSignSSHResponse (api.mkSSHCertificate (Some cert'))
                              (Some (api.mkSSHCertificate (Some addUserCert))))
                     | Err err => api.WriteError (api.Forbidden err)
                     end
              /\ calls = [api.CallAuthorize api.SignSSHMethod (api.OTT body);
                          api.CallSignSSH pk
                            (api.mkSSHOptions (api.CertType body) (api.Principals body)
                               (api.ValidAfter body) (api.ValidBefore body)) so;
                          api.CallSignSSHAddUser key cert']) as [-> ->].
      { destruct (api.SignSSHAddUser h key cert'); simpl in Hrun;
          by injection Hrun as <- <-. }
      elem_of_cases Hin. injection Hin as -> -> ->.
      assert (cert' = cert) as -> by congruence.
      split; [|split].
      * split; [intros _; by repeat split|]. intros _. exists key, cert.
        do 2 right. by left.
      * intros key' c' Hc. elem_of_cases Hc. injection Hc as -> ->.
        split; [done|]. split; [by exists bytes|]. split; [|done].
        destruct (ssh.ValidPrincipals cert) as [|pr [|]]; try done. by exists pr.
      * intros Hn. exfalso. apply Hn. by repeat split.
    + intros [= <- <-]. elem_of_cases Hin. injection Hin as -> -> ->.
      assert (cert' = cert) as -> by congruence.
      assert (Hno : ~ issue).
      { intros (_ & Hty & Hlen). apply andb_false_iff in Hcond as [Hf|Hf].
        - by apply Z.eqb_neq in Hf.
        - by apply Nat.eqb_neq in Hf. }
      split; [|split]; [|intros k' c' Hc; elem_of_cases Hc|done].
      split; [|done]. intros (k' & c' & Hc). elem_of_cases Hc.
  - destruct (api.Authorize h _ _) as [so|e]; simpl;
      [|intros [= <- <-]; elem_of_cases Hin].
    destruct (api.SignSSH h pk _ so) as [cert'|e] eqn:Hsign'; simpl.
    2: { intros [= <- <-]. elem_of_cases Hin. injection Hin as -> -> ->. congruence. }
    intros [= <- <-]. elem_of_cases Hin. injection Hin as -> -> ->.
    assert (cert' = cert) as -> by congruence.
    assert (Hno : ~ issue) by (intros ([? [=]] & _)).
    split; [|split]; [|intros k' c' Hc; elem_of_cases Hc|done].
    split; [|done]. intros (k' & c' & Hc). elem_of_cases Hc.
Qed.

End HandlerFacts.

(** ** The base64 codec *)
Section Base64Facts.
Local Open Scope N_scope.

(** Bitwise or of two numbers with no bit in common is their sum. *)
Lemma N_lor_disjoint (x y k : N) :
  x mod 2 ^ k = 0 -> y < 2 ^ k -> N.lor x y = x + y.
Proof.
  intros Hx Hy.
  rewrite <- N.lxor_lor, <- N.add_nocarry_lxor; try reflexivity.
  all: apply N.bits_inj; intros n; rewrite N.land_spec, N.bits_0.
  all: destruct (N.lt_ge_cases n k) as [Hn|Hn].
  all: try (rewrite <- (N.mod_pow2_bits_low x k n Hn), Hx, N.bits_0; reflexivity).
  all: rewrite <- (N.mod_small y (2 ^ k) Hy), N.mod_pow2_bits_high by exact Hn.
  all: apply andb_false_r.
Qed.

Lemma N_of_ascii_lt (c : ascii) : N_of_ascii c < 256.
Proof. apply N_ascii_bounded. Qed.

Lemma land_63 (x : N) : N.land x 63 = x mod 64.
Proof. change 63 with (N.ones 6). by rewrite N.land_ones. Qed.

Lemma land_255 (x : N) : N.land x 255 = x mod 256.
Proof. change 255 with (N.ones 8). by rewrite N.land_ones. Qed.

Lemma val3_eq (b0 b1 b2 : ascii) :
  base64.val3 b0 b1 b2 = N_of_ascii b0 * 65536 + N_of_ascii b1 * 256 + N_of_ascii b2.
Proof.
  pose proof (N_of_ascii_lt b0). pose proof (N_of_ascii_lt b1).
  pose proof (N_of_ascii_lt b2).
  unfold base64.val3. rewrite !N.shiftl_mul_pow2.
  change (2 ^ 16) with 65536. change (2 ^ 8) with 256.
  rewrite (N_lor_disjoint _ (N_of_ascii b1 * 256) 16);
    [|change (2 ^ 16) with 65536; div_lia..].
  rewrite (N_lor_disjoint _ (N_of_ascii b2) 8);
    [done|change (2 ^ 8) with 256; div_lia..].
Qed.

Lemma quantum_eq (d0 d1 d2 d3 : N) :
  d0 < 64 -> d1 < 64 -> d2 < 64 -> d3 < 64 ->
  base64.quantum [d0; d1; d2; d3] = d0 * 262144 + d1 * 4096 + d2 * 64 + d3.
Proof.
  intros. unfold base64.quantum. simpl nth. rewrite !N.shiftl_mul_pow2.
  change (2 ^ 18) with 262144. change (2 ^ 12) with 4096. change (2 ^ 6) with 64.
  rewrite (N_lor_disjoint _ (d1 * 4096) 18); [|change (2 ^ 18) with 262144; div_lia..].
  rewrite (N_lor_disjoint _ (d2 * 64) 12); [|change (2 ^ 12) with 4096; div_lia..].
  rewrite (N_lor_disjoint _ d3 6); [done|change (2 ^ 6) with 64; div_lia..].
Qed.

Lemma quantum_eq3 (d0 d1 d2 : N) :
  d0 < 64 -> d1 < 64 -> d2 < 64 ->
  base64.quantum [d0; d1; d2] = d0 * 262144 + d1 * 4096 + d2 * 64.
Proof.
  intros. change (base64.quantum [d0; d1; d2]) with (base64.quantum [d0; d1; d2; 0]).
  rewrite quantum_eq; lia.
Qed.

Lemma quantum_eq2 (d0 d1 : N) :
  d0 < 64 -> d1 < 64 -> base64.quantum [d0; d1] = d0 * 262144 + d1 * 4096.
Proof.
  intros. change (base64.quantum [d0; d1]) with (base64.quantum [d0; d1; 0; 0]).
  rewrite quantum_eq; lia.
Qed.

(** The decoding table inverts the encoding table. *)
Lemma decodeMap_encode (v : N) : v < 64 -> base64.decodeMap (base64.encode v) = v.
Proof.
  intros Hv. rewrite <- (N2Nat.id v).
  assert (N.to_nat v < 64)%nat as Hn by lia. revert Hn.
  generalize (N.to_nat v). intros n Hn.
  do 64 (destruct n as [|n]; [reflexivity|]). lia.
Qed.

Lemma plain_encode (v : N) : v < 64 -> json.plain (base64.encode v) = true.
Proof.
  intros Hv. rewrite <- (N2Nat.id v).
  assert (N.to_nat v < 64)%nat as Hn by lia. revert Hn.
  generalize (N.to_nat v). intros n Hn.
  do 64 (destruct n as [|n]; [reflexivity|]). lia.
Qed.

Lemma sextet_digit (val shift : N) :
  base64.decodeMap (base64.sextet val shift) = (val / 2 ^ shift) mod 64
  /\ (val / 2 ^ shift) mod 64 < 64.
Proof.
  unfold base64.sextet. rewrite land_63, N.shiftr_div_pow2.
  assert ((val / 2 ^ shift) mod 64 < 64) by (apply N.mod_lt; lia).
  split; [by apply decodeMap_encode|done].
Qed.

(** One step of [Decode] on a character of the alphabet. *)
Lemma Decode_digit (c : ascii) (rest : string) (dbuf : list N) :
  base64.decodeMap c < 64 ->
  base64.Decode (String c rest) dbuf =
    match dbuf with
    | [d0; d1; d2] =>
        let val := base64.quantum [d0; d1; d2; base64.decodeMap c] in
        (fun t => String (base64.byte_of val 16)
                    (String (base64.byte_of val 8) (String (base64.byte_of val 0) t)))
          <$> base64.Decode rest []
    | _ => base64.Decode rest (dbuf ++ [base64.decodeMap c])
    end.
Proof.
  intros Hc. simpl.
  replace (base64.decodeMap c =? 255) with false; [done|].
  symmetry. apply N.eqb_neq. lia.
Qed.

Lemma byte_of_eq (val shift : N) (b : ascii) :
  (val / 2 ^ shift) mod 256 = N_of_ascii b -> base64.byte_of val shift = b.
Proof.
  intros H. unfold base64.byte_of.
  by rewrite land_255, N.shiftr_div_pow2, H, ascii_N_embedding.
Qed.

(** Induction on a byte string three bytes at a time. *)
Lemma string_ind3 (P : string -> Prop) :
  P "" ->
  (forall b0, P (String b0 "")) ->
  (forall b0 b1, P (String b0 (String b1 ""))) ->
  (forall b0 b1 b2 rest, P rest -> P (String b0 (String b1 (String b2 rest)))) ->
  forall s, P s.
Proof.
  intros H0 H1 H2 H3.
  assert (forall s, P s /\ (forall b0, P (String b0 s))
                    /\ (forall b0 b1, P (String b0 (String b1 s)))) as H.
  { induction s as [|c s (IH0 & IH1 & IH2)]; [by repeat split|].
    split; [apply IH1|]. split; [intros b0; apply IH2|]. intros b0 b1. by apply H3. }
  intros s. apply H.
Qed.

(** The four 6-bit digits of a 24-bit value add up to it. *)
Lemma sextets_sum (val : N) :
  val < 16777216 ->
  (val / 262144) mod 64 * 262144 + (val / 4096) mod 64 * 4096
  + (val / 64) mod 64 * 64 + val mod 64 = val.
Proof. intros. div_lia. Qed.

Lemma Decode_pad1 (d0 d1 d2 : N) :
  base64.Decode (String base64.padChar "") [d0; d1; d2] =
    Some (String (base64.byte_of (base64.quantum [d0; d1; d2]) 16)
            (String (base64.byte_of (base64.quantum [d0; d1; d2]) 8) "")).
Proof. reflexivity. Qed.

Lemma Decode_pad2 (d0 d1 : N) :
  base64.Decode (String base64.padChar (String base64.padChar "")) [d0; d1] =
    Some (String (base64.byte_of (base64.quantum [d0; d1]) 16) "").
Proof. reflexivity. Qed.

(** Decoding undoes encoding. *)
Lemma DecodeString_EncodeToString (src : string) :
  base64.DecodeString (base64.EncodeToString src) = Some src.
Proof.
  unfold base64.DecodeString.
  induction src as [|b0|b0 b1|b0 b1 b2 rest IH] using string_ind3.
  - reflexivity.
  - pose proof (N_of_ascii_lt b0).
    cbn [base64.EncodeToString].
    set (val := N.shiftl (N_of_ascii b0) 16).
    assert (Hval : val = N_of_ascii b0 * 65536)
      by (subst val; by rewrite N.shiftl_mul_pow2).
    clearbody val.
    destruct (sextet_digit val 18) as [E0 L0], (sextet_digit val 12) as [E1 L1].
    rewrite Decode_digit by (rewrite E0; exact L0). cbn [app].
    rewrite Decode_digit by (rewrite E1; exact L1). cbn [app].
    rewrite Decode_pad2, E0, E1, quantum_eq2 by done.
    clear E0 L0 E1 L1.
    change (2 ^ 18) with 262144. change (2 ^ 12) with 4096.
    assert (Hq : (val / 262144) mod 64 * 262144 + (val / 4096) mod 64 * 4096 = val).
    { pose proof (sextets_sum val) as Hs.
      assert ((val / 64) mod 64 = 0) by (rewrite Hval; div_lia).
      assert (val mod 64 = 0) by (rewrite Hval; div_lia). lia. }
    rewrite Hq, Hval. f_equal. f_equal. apply byte_of_eq.
    change (2 ^ 16) with 65536. div_lia.
  - pose proof (N_of_ascii_lt b0). pose proof (N_of_ascii_lt b1).
    cbn [base64.EncodeToString].
    set (val := N.lor (N.shiftl (N_of_ascii b0) 16) (N.shiftl (N_of_ascii b1) 8)).
    assert (Hval : val = N_of_ascii b0 * 65536 + N_of_ascii b1 * 256).
    { pose proof (val3_eq b0 b1 (ascii_of_N 0)) as Hv. unfold base64.val3 in Hv.
      change (N_of_ascii (ascii_of_N 0)) with 0 in Hv.
      rewrite N.lor_0_r, N.add_0_r in Hv. exact Hv. }
    clearbody val.
    destruct (sextet_digit val 18) as [E0 L0], (sextet_digit val 12) as [E1 L1],
             (sextet_digit val 6) as [E2 L2].
    rewrite Decode_digit by (rewrite E0; exact L0). cbn [app].
    rewrite Decode_digit by (rewrite E1; exact L1). cbn [app].
    rewrite Decode_digit by (rewrite E2; exact L2). cbn [app].
    rewrite Decode_pad1, E0, E1, E2, quantum_eq3 by done.
    clear E0 L0 E1 L1 E2 L2.
    change (2 ^ 18) with 262144. change (2 ^ 12) with 4096. change (2 ^ 6) with 64.
    assert (Hq : (val / 262144) mod 64 * 262144 + (val / 4096) mod 64 * 4096
                 + (val / 64) mod 64 * 64 = val).
    { pose proof (sextets_sum val) as Hs.
      assert (val mod 64 = 0) by (rewrite Hval; div_lia). lia. }
    rewrite Hq, Hval. f_equal. f_equal; [|f_equal]; apply byte_of_eq.
    + change (2 ^ 16) with 65536. div_lia.
    + change (2 ^ 8) with 256. div_lia.
  - pose proof (N_of_ascii_lt b0). pose proof (N_of_ascii_lt b1).
    pose proof (N_of_ascii_lt b2).
    cbn [base64.EncodeToString].
    set (val := base64.val3 b0 b1 b2).
    assert (Hval : val = N_of_ascii b0 * 65536 + N_of_ascii b1 * 256 + N_of_ascii b2)
      by apply val3_eq.
    clearbody val.
    destruct (sextet_digit val 18) as [E0 L0], (sextet_digit val 12) as [E1 L1],
             (sextet_digit val 6) as [E2 L2], (sextet_digit val 0) as [E3 L3].
    rewrite Decode_digit by (rewrite E0; exact L0). cbn [app].
    rewrite Decode_digit by (rewrite E1; exact L1). cbn [app].
    rewrite Decode_digit by (rewrite E2; exact L2). cbn [app].
    rewrite Decode_digit by (rewrite E3; exact L3).
    rewrite IH, E0, E1, E2, E3. cbn [fmap option_fmap option_map].
    rewrite quantum_eq by done.
    clear E0 L0 E1 L1 E2 L2 E3 L3 IH.
    change (2 ^ 18) with 262144. change (2 ^ 12) with 4096. change (2 ^ 6) with 64.
    change (2 ^ 0) with 1. rewrite N.div_1_r.
    rewrite sextets_sum by (rewrite Hval; lia). rewrite Hval.
    f_equal. f_equal; [|f_equal; [|f_equal]]; apply byte_of_eq.
    + change (2 ^ 16) with 65536. div_lia.
    + change (2 ^ 8) with 256. div_lia.
    + change (2 ^ 0) with 1. div_lia.
Qed.

End Base64Facts.

(** ** The certificate codec *)

Lemma sextet_plain (val shift : N) : json.plain (base64.sextet val shift) = true.
Proof.
  unfold base64.sextet. apply plain_encode.
  rewrite land_63. apply N.mod_lt. lia.
Qed.

Lemma EncodeToString_plain (src : string) :
  url.all_bytes json.plain (base64.EncodeToString src) = true.
Proof.
  induction src as [|b0|b0 b1|b0 b1 b2 rest IH] using string_ind3;
    cbn [base64.EncodeToString url.all_bytes]; rewrite ?sextet_plain; try done.
Qed.

Lemma EncodeToString_nonempty (src : string) :
  src <> "" -> base64.EncodeToString src <> "".
Proof. destruct src as [|b0 [|b1 [|b2 rest]]]; done. Qed.

(** A literal of plain bytes decodes to itself. *)
Lemma unquote_body_plain (s k : string) (fuel : nat) :
  url.all_bytes json.plain s = true ->
  (String.length s < fuel)%nat ->
  json.unquote_body fuel (s +:+ String url.dquote k) = Some (s, k).
Proof.
  revert fuel. induction s as [|c s IH]; intros fuel Hp Hf.
  - destruct fuel; [lia|]. reflexivity.
  - destruct fuel as [|fuel]; [simpl in Hf; lia|].
    cbn [url.all_bytes] in Hp. apply andb_true_iff in Hp as [Hc Hs].
    unfold json.plain in Hc.
    apply andb_true_iff in Hc as [Hc H128]. apply andb_true_iff in Hc as [Hc Hbs].
    apply andb_true_iff in Hc as [Hq H32].
    apply negb_true_iff in Hq, H32, Hbs.
    change (String c s +:+ String url.dquote k)
      with (String c (s +:+ String url.dquote k)).
    cbn [json.unquote_body]. rewrite Hq, H32, Hbs, H128.
    rewrite IH by (simpl in Hf; done || lia). reflexivity.
Qed.

Lemma string_length_app (s t : string) :
  String.length (s +:+ t) = (String.length s + String.length t)%nat.
Proof. induction s; simpl; [done|]. by rewrite IHs. Qed.

Lemma Unmarshal_string_quote (s : string) :
  url.all_bytes json.plain s = true ->
  json.Unmarshal_string (api.quote s) = Some s.
Proof.
  intros Hp. unfold api.quote, json.Unmarshal_string.
  change (String url.dquote s +:+ String url.dquote "")
    with (String url.dquote (s +:+ String url.dquote "")).
  assert (Hskip : forall r, json.skip_space (String url.dquote r) = String url.dquote r)
    by reflexivity.
  rewrite Hskip, Ascii.eqb_refl.
  rewrite unquote_body_plain; [reflexivity|done|].
  rewrite string_length_app. simpl. lia.
Qed.

(** C7.  The certificate codec.
    - A certificate whose wire form is read back by the SSH library survives
      the round trip: [UnmarshalJSON] of what [MarshalJSON] produced gives
      the certificate back, with no error.
    - An absent certificate encodes as the literal [null]; decoding [null],
      or the empty string literal, gives an absent certificate and no error.
    - A string whose base64 content parses as a bare public key is refused
      with the type-mismatch error, and the receiver is left as it was. *)
Theorem SSHCertificate_codec `{SL : ssh.Lib} (c0 : api.SSHCertificate) :
  (forall cert : ssh.Certificate,
     ssh.Certificate_Marshal cert <> "" ->
     ssh.ParsePublicKey (ssh.Certificate_Marshal cert) = Ok (ssh.PKCert cert) ->
     exists data,
       api.SSHCertificate_MarshalJSON (api.mkSSHCertificate (Some cert)) = Ok data
       /\ api.SSHCertificate_UnmarshalJSON c0 data
          = (api.mkSSHCertificate (Some cert), None))
  /\ api.SSHCertificate_MarshalJSON (api.mkSSHCertificate None) = Ok "null"
  /\ api.SSHCertificate_UnmarshalJSON c0 "null" = (api.mkSSHCertificate None, None)
  /\ api.SSHCertificate_UnmarshalJSON c0 (api.quote "") = (api.mkSSHCertificate None, None)
  /\ (forall (data s certData : string) (k : ssh.Key),
        json.Unmarshal_string data = Some s ->
        s <> "" ->
        base64.DecodeString s = Some certData ->
        ssh.ParsePublicKey certData = Ok (ssh.PKKey k) ->
        api.SSHCertificate_UnmarshalJSON c0 data =
          (c0, Some (errors_New ("error decoding ssh certificate: " +:+ ssh.Key_GoType k
                                 +:+ " is not an *ssh.Certificate")))).
Proof.
  split; [|split; [done|split; [done|split; [done|]]]].
  - intros cert Hne Hparse. eexists. split; [reflexivity|].
    unfold api.SSHCertificate_UnmarshalJSON.
    rewrite Unmarshal_string_quote by apply EncodeToString_plain.
    rewrite (proj2 (String.eqb_neq _ _)) by (by apply EncodeToString_nonempty).
    by rewrite DecodeString_EncodeToString, Hparse.
  - intros data s certData k Hjson Hne Hb64 Hparse.
    unfold api.SSHCertificate_UnmarshalJSON.
    rewrite Hjson, (proj2 (String.eqb_neq _ _)) by done.
    by rewrite Hb64, Hparse.
Qed.

(** C7 at concrete inputs, on the table-driven SSH library: the certificate
    of alice, and the bare key of alice in a certificate field. *)
Lemma SSHCertificate_codec_witness :
  let c0 := @api.mkSSHCertificate fixtures.ssh_lib None in
  let alice := @api.mkSSHCertificate fixtures.ssh_lib (Some fixtures.alice_cert) in
  (exists data,
     api.SSHCertificate_MarshalJSON alice = Ok data
     /\ api.SSHCertificate_UnmarshalJSON c0 data = (alice, None))
  /\ api.SSHCertificate_UnmarshalJSON c0
       (api.quote (base64.EncodeToString "wire:alice-key"))
     = (c0, Some (errors_New ("error decoding ssh certificate: "
                              +:+ "ssh.ed25519PublicKey"
                              +:+ " is not an *ssh.Certificate"))).
Proof.
  intros c0 alice.
  destruct (@SSHCertificate_codec fixtures.ssh_lib c0) as (Hrt & _ & _ & _ & Hkey).
  split.
  - apply (Hrt fixtures.alice_cert); [discriminate|reflexivity].
  - apply (Hkey _ (base64.EncodeToString "wire:alice-key") "wire:alice-key"
             ("alice-key" : @ssh.Key fixtures.ssh_lib));
      [vm_compute; reflexivity | discriminate | vm_compute; reflexivity | reflexivity].
Defined.

(** ** The handlers on the test doubles *)

(** C1 (the code does otherwise).  For every request of type "host" the
    handler stores what [GetSSHConfig] rendered in [UserTemplates] and leaves
    [HostTemplates] empty.  Here: the request [{type: "host", data:
    {"Name": "x"}}] against the template-rendering test authority. *)
Theorem SSHConfig_host_request_fills_UserTemplates :
  api.SSHConfig_handler fixtures.api_authority
    (Ok (api.mkSSHConfigRequest "host" {[ "Name" := "x" ]})) =
    (api.JSON StatusOK
       (api.mkSSHConfigResponse ["rendered host template for x"] []),
     [api.CallGetSSHConfig "host" {[ "Name" := "x" ]}]).
Proof. reflexivity. Qed.

(** The same for every authority and every substitution map. *)
Lemma SSHConfig_host_request `{SL : ssh.Lib} {SignOption TimeDuration Template : Type}
    (h : @api.Authority SL SignOption TimeDuration Template)
    (data : gmap string string) :
  api.SSHConfig_handler h (Ok (api.mkSSHConfigRequest "host" data)) =
    (match api.GetSSHConfig h "host" data with
     | Ok ts => api.JSON StatusOK (api.mkSSHConfigResponse ts [])
     | Err err => api.WriteError (api.InternalServerError err)
     end,
     [api.CallGetSSHConfig "host" data]).
Proof.
  unfold api.SSHConfig_handler, api.SSHConfig_body, api.call, run. monad_unfold.
  simpl. by destruct (api.GetSSHConfig h "host" data).
Qed.

(** C10 at a concrete input: a request with an empty type. *)
Lemma SSHConfig_default_unreachable_witness :
  let r' := api.mkSSHConfigRequest "user" (∅ : gmap string string) in
  (api.Type_ r' = provisioner.SSHUserCert \/ api.Type_ r' = provisioner.SSHHostCert)
  /\ ("" = "" -> api.Type_ r' = provisioner.SSHUserCert)
  /\ (forall ts : list string, is_Some (api.SSHConfig_switch (api.Type_ r') ts))
  /\ api.SSHConfig_handler fixtures.api_authority
       (Ok (api.mkSSHConfigRequest "" ∅)) =
       (match api.GetSSHConfig fixtures.api_authority (api.Type_ r') (api.Data r') with
        | Ok ts => api.JSON StatusOK (api.mkSSHConfigResponse ts [])
        | Err err => api.WriteError (api.InternalServerError err)
        end,
        [api.CallGetSSHConfig (api.Type_ r') (api.Data r')]).
Proof.
  intros r'.
  apply (@SSHConfig_default_unreachable fixtures.ssh_lib unit unit string fixtures.errors
           fixtures.api_authority (api.mkSSHConfigRequest "" ∅) r').
  reflexivity.
Defined.

(** C2 at a concrete input: a user request for the one principal "alice"
    that carries an add-user key. *)
Lemma SignSSH_add_user_rule_witness :
  let body := @api.mkSignSSHRequest unit "wire:alice-key" "good" "user" ["alice"] tt tt
                (Some "wire:adduser-key") in
  let key : ssh.PublicKey string fixtures.cert := ssh.PKKey "alice-key" in
  let addUserKey : ssh.PublicKey string fixtures.cert := ssh.PKKey "adduser-key" in
  let opts := @api.mkSSHOptions unit "user" ["alice"] tt tt in
  let cert := fixtures.mkCert "wire:issued" ssh.UserCert ["alice"] "alice-key" in
  let addUserCert := fixtures.mkCert "wire:adduser" ssh.UserCert ["alice"] "adduser-key" in
  let calls : list (@api.Call fixtures.ssh_lib unit unit) :=
    [api.CallAuthorize api.SignSSHMethod "good";
     api.CallSignSSH (SL := fixtures.ssh_lib) key opts [tt];
     api.CallSignSSHAddUser (SL := fixtures.ssh_lib) addUserKey cert] in
  let resp :=
    api.JSON StatusCreated
      (@api.mkSignSSHResponse fixtures.ssh_lib
         (api.mkSSHCertificate (SL := fixtures.ssh_lib) (Some cert))
         (Some (api.mkSSHCertificate(SL := fixtures.ssh_lib) (Some addUserCert)))) in
  api.SignSSH_handler fixtures.api_authority (Ok body) = (resp, calls)
  /\ ((exists k c, api.CallSignSSHAddUser (SL := fixtures.ssh_lib) k c ∈ calls) <->
      is_Some (api.AddUserPublicKey body)
      /\ fixtures.ctype cert = ssh.UserCert
      /\ length (fixtures.cprincipals cert) = 1%nat).
Proof.
  intros body key addUserKey opts cert addUserCert calls resp.
  split; [reflexivity|].
  apply (@SignSSH_add_user_rule fixtures.ssh_lib unit unit string fixtures.errors
           fixtures.api_authority body resp calls key opts [tt] cert).
  - reflexivity.
  - right. left.
  - reflexivity.
Defined.

(** ** Concurrent submissions of one token id *)
Section ConcurrencyFacts.
Context {SignOption : Type} `{JL : jose.Lib authority.Claims}.

Local Abbreviation Authority := (@authority.Authority SignOption JL).
Local Abbreviation Provisioner := (provisioner.Interface SignOption).
Local Abbreviation Thread := (@authority.Thread SignOption).
Local Abbreviation Event := (@authority.Event SignOption).
Local Abbreviation Pool := (@authority.Pool SignOption JL).

Implicit Types (a : Authority) (p : Provisioner) (claims : authority.Claims).
Implicit Types (ott id : string) (now : time.Time) (P : Pool).
Implicit Types (t : Thread) (evs l : list Event).

Lemma thread_step_start a0 a1 ott now r :
  authority.same_setup a0 a1 ->
  authority.Authorize_route ott a0 = (r, a0, []) ->
  authority.thread_step a1 (authority.TStart ott now) =
    (match r with
     | inl (p, claims) => authority.TRouted ott now p claims
     | inr err => authority.TDone (Err err)
     end, a1, []).
Proof.
  intros Hs Hr. unfold authority.thread_step, authority.thread_body, bind.
  rewrite (Authorize_route_setup _ _ _ _ Hs Hr).
  by destruct r as [[p claims]|err].
Qed.

Lemma thread_step_routed a1 ott now p claims :
  let id := jose.ID (authority.Claims_ claims) in
  authority.thread_step a1 (authority.TRouted ott now p claims) =
    if authority.guarded p claims then
      match authority.ottMap a1 !! id with
      | Some _ =>
          (authority.TDone
             (Err (apiError (errors_New "token already used") StatusUnauthorized
                     (authority.errContext ott))),
           a1, [authority.EvLoadOrStore id (authority.usage claims now) true])
      | None =>
          (authority.TGuarded ott p,
           authority.set_ottMap a1 (<[id := authority.usage claims now]> (authority.ottMap a1)),
           [authority.EvLoadOrStore id (authority.usage claims now) false])
      end
    else (authority.TGuarded ott p, a1, []).
Proof.
  intros id. unfold authority.thread_step, authority.thread_body, bind.
  rewrite Authorize_replay_spec. fold id.
  unfold authority.guarded, authority.usage. fold id.
  destruct (_ && _); [|done].
  by destruct (authority.ottMap a1 !! id).
Qed.

Lemma thread_step_guarded a1 ott p :
  authority.thread_step a1 (authority.TGuarded ott p) =
    (authority.TDone (provisioner.Authorize p ott), a1,
     [authority.EvProvisionerAuthorize p ott]).
Proof.
  unfold authority.thread_step, authority.thread_body, authority.Authorize_delegate.
  monad_unfold. by destruct (provisioner.Authorize p ott).
Qed.

Lemma won_app id evs l :
  authority.won id (evs ++ l) <-> authority.won id evs \/ authority.won id l.
Proof.
  unfold authority.won. split.
  - intros (v & Hv). apply elem_of_app in Hv as [Hv|Hv]; [left|right]; by exists v.
  - intros [(v & Hv)|(v & Hv)]; exists v; apply elem_of_app; [by left|by right].
Qed.

(** One goroutine moves: what its step must satisfy for the invariant of the
    pool to be kept. *)
Lemma pool_inv_update a id requests P i ott now t evs t' a' l :
  authority.pool_inv a id requests P ->
  authority.threads P !! i = Some (t, evs) ->
  requests !! i = Some (ott, now) ->
  authority.same_setup a a' ->
  authority.thread_inv a ott now t' (evs ++ l) ->
  (forall k, is_Some (authority.ottMap (authority.shared P) !! k) ->
             is_Some (authority.ottMap a' !! k)) ->
  (forall value loaded, authority.EvLoadOrStore id value loaded ∈ l ->
                        is_Some (authority.ottMap a' !! id)) ->
  (~ authority.won id l
   /\ authority.ottMap a' !! id = authority.ottMap (authority.shared P) !! id)
  \/ (authority.ottMap (authority.shared P) !! id = None /\ authority.won id l) ->
  authority.pool_inv a id requests
    (authority.mkPool a' (<[i := (t', evs ++ l)]> (authority.threads P))).
Proof.
  intros [Hsetup Hlen Hthreads Hrec Huniq Hwin] Hi Hreq Hs' Hinv' Hmono Hnew Hchange.
  assert (Hlt : i < length (authority.threads P)) by (by eapply lookup_lt_Some).
  assert (Hat : forall j x, <[i := (t', evs ++ l)]> (authority.threads P) !! j = Some x ->
                  (j = i /\ x = (t', evs ++ l))
                  \/ (j <> i /\ authority.threads P !! j = Some x)).
  { intros j x Hx. destruct (decide (j = i)) as [->|Hne].
    - rewrite list_lookup_insert_eq in Hx by done. left. split; congruence.
    - rewrite list_lookup_insert_ne in Hx by done. by right. }
  assert (Hold : forall j tj evj, j <> i -> authority.threads P !! j = Some (tj, evj) ->
                   authority.won id evj -> is_Some (authority.ottMap (authority.shared P) !! id)).
  { intros j tj evj _ Hj (v & Hv). by eapply Hrec. }
  assert (Holdi : authority.won id evs ->
                  is_Some (authority.ottMap (authority.shared P) !! id)).
  { intros (v & Hv). by eapply Hrec. }
  split; simpl.
  - done.
  - by rewrite length_insert.
  - intros j ott' now' Hj. destruct (decide (j = i)) as [->|Hne].
    + rewrite list_lookup_insert_eq by done. exists t', (evs ++ l).
      split; [done|]. rewrite Hreq in Hj. by injection Hj as <- <-.
    + rewrite list_lookup_insert_ne by done. by apply Hthreads.
  - intros j tj evj v b Hj Hv. destruct (Hat _ _ Hj) as [[-> [= -> ->]]|[Hne Hj']].
    + apply elem_of_app in Hv as [Hv|Hv]; [|by eapply Hnew].
      apply Hmono. by eapply Hrec.
    + apply Hmono. by eapply Hrec.
  - intros j1 j2 t1 t2 ev1 ev2 H1 H2 W1 W2.
    destruct (Hat _ _ H1) as [[-> [= -> ->]]|[Hne1 H1']],
             (Hat _ _ H2) as [[-> [= -> ->]]|[Hne2 H2']]; try done.
    + destruct Hchange as [[Hno _]|[Hnone _]].
      * apply won_app in W1 as [W1|W1]; [|done]. by eapply Huniq.
      * apply (Hold _ _ _ Hne2 H2') in W2. rewrite Hnone in W2. by destruct W2.
    + destruct Hchange as [[Hno _]|[Hnone _]].
      * apply won_app in W2 as [W2|W2]; [|done]. by eapply Huniq.
      * apply (Hold _ _ _ Hne1 H1') in W1. rewrite Hnone in W1. by destruct W1.
    + by eapply Huniq.
  - intros Hsome. destruct Hchange as [[Hno Hsame]|[Hnone Hwon]].
    + rewrite Hsame in Hsome. destruct (Hwin Hsome) as (w & tw & evw & Hw & Hwon).
      destruct (decide (w = i)) as [->|Hne].
      * exists i, t', (evs ++ l). rewrite list_lookup_insert_eq by done.
        split; [done|]. apply won_app. left. congruence.
      * exists w, tw, evw. by rewrite list_lookup_insert_ne.
    + exists i, t', (evs ++ l). rewrite list_lookup_insert_eq by done.
      split; [done|]. apply won_app. by right.
Qed.

Lemma pool_step_inv a id requests P i :
  authority.pool_inv a id requests P ->
  authority.pool_inv a id requests (authority.pool_step P i).
Proof.
  intros Hinv. unfold authority.pool_step.
  destruct (authority.threads P !! i) as [[t evs]|] eqn:Hi; [|done].
  assert (exists ott now, requests !! i = Some (ott, now)) as (ott & now & Hreq).
  { apply lookup_lt_Some in Hi. rewrite (authority.inv_length _ _ _ _ Hinv) in Hi.
    apply lookup_lt_is_Some_2 in Hi as [[ott now] Hreq]. by exists ott, now. }
  destruct (authority.inv_threads _ _ _ _ Hinv _ _ _ Hreq) as (t0 & evs0 & Hi0 & Ht).
  rewrite Hi in Hi0. injection Hi0 as <- <-.
  pose proof (authority.inv_setup _ _ _ _ Hinv) as Hsetup.
  destruct t as [ott' now'|ott' now' p claims|ott' p|r]; simpl in Ht.
  - destruct Ht as (-> & -> & ->).
    destruct (Authorize_route_pure ott a) as [r Hr].
    rewrite (thread_step_start _ _ _ _ _ Hsetup Hr).
    eapply (pool_inv_update _ _ _ _ _ _ _ _ _ _ _ [] Hinv Hi Hreq); try done.
    + destruct r as [[p claims]|err]; simpl; [done|]. left. by exists err.
    + intros v b Hv. by apply elem_of_nil in Hv.
    + left. split; [|done]. intros (v & Hv). by apply elem_of_nil in Hv.
  - destruct Ht as (-> & -> & -> & Hr).
    rewrite thread_step_routed.
    destruct (authority.guarded p claims) eqn:Hg.
    + destruct (authority.ottMap (authority.shared P) !! _) as [u|] eqn:Hu.
      * eapply (pool_inv_update _ _ _ _ _ _ _ _ _ _ _ [_] Hinv Hi Hreq); try done.
        -- simpl. right. left. by exists p, claims.
        -- intros v b Hv. apply list_elem_of_singleton in Hv. injection Hv as -> _ _.
           by rewrite Hu.
        -- left. split; [|done]. intros (v & Hv).
           apply list_elem_of_singleton in Hv. discriminate Hv.
      * eapply (pool_inv_update _ _ _ _ _ _ _ _ _ _ _ [_] Hinv Hi Hreq).
        -- eapply same_setup_trans; [exact Hsetup|apply same_setup_set_ottMap].
        -- simpl. split; [done|]. exists claims. by rewrite Hg.
        -- intros k Hk. simpl. apply lookup_insert_is_Some.
           destruct (decide (jose.ID (authority.Claims_ claims) = k)); [by left|by right].
        -- intros v b Hv. apply list_elem_of_singleton in Hv. injection Hv as -> _ _.
           simpl. rewrite lookup_insert_eq. by eexists.
        -- destruct (decide (jose.ID (authority.Claims_ claims) = id)) as [Heq|Hne].
           ++ right. rewrite <- Heq. split; [done|].
              eexists. by apply list_elem_of_singleton.
           ++ left. split.
              ** intros (v & Hv). apply list_elem_of_singleton in Hv. by injection Hv.
              ** simpl. by rewrite lookup_insert_ne.
    + eapply (pool_inv_update _ _ _ _ _ _ _ _ _ _ _ [] Hinv Hi Hreq); try done.
      * simpl. split; [done|]. exists claims. by rewrite Hg.
      * intros v b Hv. by apply elem_of_nil in Hv.
      * left. split; [|done]. intros (v & Hv). by apply elem_of_nil in Hv.
  - destruct Ht as (-> & claims & Hr & ->).
    rewrite thread_step_guarded.
    eapply (pool_inv_update _ _ _ _ _ _ _ _ _ _ _ [_] Hinv Hi Hreq); try done.
    + simpl. right. right. by exists p, claims.
    + intros v b Hv. apply list_elem_of_singleton in Hv. discriminate Hv.
    + left. split; [|done]. intros (v & Hv).
      apply list_elem_of_singleton in Hv. discriminate Hv.
  - change (authority.thread_step (authority.shared P) (authority.TDone r))
      with (authority.TDone r, authority.shared P, @nil Event).
    eapply (pool_inv_update _ _ _ _ _ _ _ _ _ _ _ [] Hinv Hi Hreq); try done.
    + by rewrite app_nil_r.
    + intros v b Hv. by apply elem_of_nil in Hv.
    + left. split; [|done]. intros (v & Hv). by apply elem_of_nil in Hv.
Qed.

Lemma run_schedule_inv a id requests P schedule :
  authority.pool_inv a id requests P ->
  authority.pool_inv a id requests (authority.run_schedule P schedule).
Proof.
  revert P. induction schedule as [|i schedule IH]; intros P Hinv; [done|].
  simpl. by apply IH, pool_step_inv.
Qed.

Lemma start_pool_inv a id requests :
  authority.ottMap a !! id = None ->
  authority.pool_inv a id requests (authority.start_pool a requests).
Proof.
  intros Hfresh.
  assert (Hat : forall i t evs,
             authority.threads (authority.start_pool a requests) !! i = Some (t, evs) ->
             evs = []).
  { intros i t evs. unfold authority.start_pool. simpl. rewrite list_lookup_fmap.
    destruct (requests !! i); simpl; [|done]. by intros [= _ <-]. }
  split.
  - apply same_setup_refl.
  - unfold authority.start_pool. simpl. by rewrite length_fmap.
  - intros i ott now Hreq. exists (authority.TStart ott now), [].
    unfold authority.start_pool. simpl. by rewrite list_lookup_fmap, Hreq.
  - intros i t evs v b Hi Hv. apply Hat in Hi as ->. by apply elem_of_nil in Hv.
  - intros i j ti tj evi evj Hi _ (v & Hv) _. apply Hat in Hi as ->.
    by apply elem_of_nil in Hv.
  - simpl. rewrite Hfresh. by intros [? [=]].
Qed.

Lemma submits_spec a id ott :
  authority.submits a id ott = true <->
  exists p claims,
    authority.Authorize_route ott a = (inl (p, claims), a, [])
    /\ provisioner.GetType p = provisioner.TypeJWK
    /\ jose.ID (authority.Claims_ claims) = id.
Proof.
  unfold authority.submits.
  destruct (Authorize_route_pure ott a) as [[[p claims]|err] Hr]; rewrite Hr.
  - rewrite andb_true_iff, Type_eqb_eq, String.eqb_eq. split.
    + intros [Ht Hid]. by exists p, claims.
    + intros (p' & claims' & [= -> ->] & Ht & Hid). done.
  - split; [done|]. by intros (p' & claims' & [=] & _).
Qed.

Lemma guarded_spec p claims :
  authority.guarded p claims = true <->
  provisioner.GetType p = provisioner.TypeJWK /\ jose.ID (authority.Claims_ claims) <> "".
Proof.
  unfold authority.guarded.
  by rewrite andb_true_iff, Type_eqb_eq, negb_true_iff, String.eqb_neq.
Qed.

(** A finished goroutine whose token is guarded either lost (its
    [LoadOrStore] found the id) or went on to the provisioner. *)
Lemma submitter_done a ott now r evs p claims :
  authority.Authorize_route ott a = (inl (p, claims), a, []) ->
  authority.guarded p claims = true ->
  authority.thread_inv a ott now (authority.TDone r) evs ->
  (r = Err (apiError (errors_New "token already used") StatusUnauthorized
              (authority.errContext ott))
   /\ evs = [authority.EvLoadOrStore (jose.ID (authority.Claims_ claims))
               (authority.usage claims now) true])
  \/ (r = provisioner.Authorize p ott
      /\ evs = [authority.EvLoadOrStore (jose.ID (authority.Claims_ claims))
                  (authority.usage claims now) false;
                authority.EvProvisionerAuthorize p ott]).
Proof.
  intros Hr Hg [(err & Hr' & _)|[(p' & claims' & Hr' & _ & -> & ->)
                                |(p' & claims' & Hr' & -> & ->)]];
    rewrite Hr in Hr'; [done| |]; injection Hr' as <- <-.
  - by left.
  - right. by rewrite Hg.
Qed.

(** A goroutine that has won the race for [id] serves a guarded token whose
    id is [id], and is past the guard. *)
Lemma winner_is_submitter a id ott now t evs :
  authority.thread_inv a ott now t evs ->
  authority.won id evs ->
  exists p claims,
    authority.Authorize_route ott a = (inl (p, claims), a, [])
    /\ authority.guarded p claims = true
    /\ jose.ID (authority.Claims_ claims) = id
    /\ (authority.is_done (t, evs) = true ->
        t = authority.TDone (provisioner.Authorize p ott)
        /\ evs = [authority.EvLoadOrStore id (authority.usage claims now) false;
                  authority.EvProvisionerAuthorize p ott]).
Proof.
  intros Ht (v & Hv). destruct t as [ott' now'|ott' now' p claims|ott' p|r]; simpl in Ht.
  - destruct Ht as (_ & _ & ->). by apply elem_of_nil in Hv.
  - destruct Ht as (_ & _ & -> & _). by apply elem_of_nil in Hv.
  - destruct Ht as (-> & claims & Hr & ->).
    destruct (authority.guarded p claims) eqn:Hg; [|by apply elem_of_nil in Hv].
    apply list_elem_of_singleton in Hv. injection Hv as Hk _.
    exists p, claims. by repeat split.
  - destruct Ht as [(err & _ & _ & ->)|[(p & claims & _ & _ & _ & ->)
                                       |(p & claims & Hr & -> & ->)]].
    + by apply elem_of_nil in Hv.
    + apply list_elem_of_singleton in Hv. discriminate Hv.
    + destruct (authority.guarded p claims) eqn:Hg.
      * apply elem_of_cons in Hv as [Hv|Hv].
        -- injection Hv as Hk _. exists p, claims. rewrite Hk. by repeat split.
        -- apply list_elem_of_singleton in Hv. discriminate Hv.
      * apply list_elem_of_singleton in Hv. discriminate Hv.
Qed.

(** Every step of a goroutine that has not finished brings it nearer to
    its end. *)
Lemma thread_step_steps_left a1 t :
  authority.steps_left (authority.thread_step a1 t).1.1
  <= pred (authority.steps_left t).
Proof.
  destruct t as [ott now|ott now p claims|ott p|r].
  - destruct (Authorize_route_pure ott a1) as [r Hr].
    rewrite (thread_step_start a1 a1 ott now _ (same_setup_refl a1) Hr).
    destruct r as [[p claims]|err]; simpl; lia.
  - rewrite thread_step_routed.
    destruct (authority.guarded p claims); [|simpl; lia].
    destruct (authority.ottMap a1 !! _); simpl; lia.
  - rewrite thread_step_guarded. simpl. lia.
  - simpl. lia.
Qed.

Lemma pool_step_length P (i : nat) :
  length (authority.threads (authority.pool_step P i)) = length (authority.threads P).
Proof.
  unfold authority.pool_step.
  destruct (authority.threads P !! i) as [[t evs]|]; [|done].
  destruct (authority.thread_step _ t) as [[t' a'] l]. simpl. apply length_insert.
Qed.

Lemma run_schedule_length P (schedule : list nat) :
  length (authority.threads (authority.run_schedule P schedule))
  = length (authority.threads P).
Proof.
  revert P. induction schedule as [|i schedule IH]; intros P; [done|].
  simpl. change (fold_left authority.pool_step schedule (authority.pool_step P i))
    with (authority.run_schedule (authority.pool_step P i) schedule).
  by rewrite IH, pool_step_length.
Qed.

Lemma pool_step_steps_left P (i j : nat) :
  authority.pool_steps_left (authority.pool_step P i) j
  <= if Nat.eqb j i then pred (authority.pool_steps_left P j)
     else authority.pool_steps_left P j.
Proof.
  unfold authority.pool_steps_left, authority.pool_step.
  destruct (authority.threads P !! i) as [[t evs]|] eqn:Hi.
  - pose proof (thread_step_steps_left (authority.shared P) t) as Hstep.
    destruct (authority.thread_step _ t) as [[t' a'] l]. simpl in *.
    destruct (Nat.eqb_spec j i) as [->|Hne].
    + rewrite list_lookup_insert_eq by (by eapply lookup_lt_Some). by rewrite Hi.
    + by rewrite list_lookup_insert_ne.
  - destruct (Nat.eqb_spec j i) as [->|Hne]; [|done]. by rewrite Hi.
Qed.

Lemma run_schedule_steps_left P (schedule : list nat) (j : nat) :
  authority.pool_steps_left (authority.run_schedule P schedule) j
  <= authority.pool_steps_left P j - authority.turns j schedule.
Proof.
  revert P. induction schedule as [|i schedule IH]; intros P; [simpl; lia|].
  simpl. change (fold_left authority.pool_step schedule (authority.pool_step P i))
    with (authority.run_schedule (authority.pool_step P i) schedule).
  pose proof (IH (authority.pool_step P i)) as H1.
  pose proof (pool_step_steps_left P i j) as H2.
  destruct (Nat.eqb j i); lia.
Qed.

Lemma fair_turns (n : nat) (schedule : list nat) (i : nat) :
  authority.fair n schedule = true -> i < n -> 3 <= authority.turns i schedule.
Proof.
  intros Hfair Hi. unfold authority.fair in Hfair.
  rewrite forallb_forall in Hfair. apply Nat.leb_le, Hfair, in_seq. lia.
Qed.

(** Progress: under a fair schedule every request runs to its end. *)
Lemma fair_schedule_finishes a requests schedule i r :
  authority.fair (length requests) schedule = true ->
  requests !! i = Some r ->
  exists th,
    authority.threads (authority.run_schedule (authority.start_pool a requests) schedule)
      !! i = Some th
    /\ authority.is_done th = true.
Proof.
  intros Hfair Hreq.
  assert (Hi : i < length requests) by (by eapply lookup_lt_Some).
  pose proof (run_schedule_steps_left (authority.start_pool a requests) schedule i) as Hleft.
  pose proof (fair_turns _ _ _ Hfair Hi) as Hturns.
  unfold authority.pool_steps_left in Hleft at 2.
  assert (Hstart : authority.threads (authority.start_pool a requests) !! i
                   = Some (authority.TStart r.1 r.2, [])).
  { unfold authority.start_pool. simpl. by rewrite list_lookup_fmap, Hreq. }
  rewrite Hstart in Hleft. simpl in Hleft.
  unfold authority.pool_steps_left in Hleft.
  destruct (authority.threads _ !! i) as [[t evs]|] eqn:Hth.
  - exists (t, evs). split; [done|]. destruct t; simpl in Hleft; try lia. done.
  - apply lookup_ge_None in Hth.
    rewrite run_schedule_length in Hth. unfold authority.start_pool in Hth.
    simpl in Hth. rewrite length_fmap in Hth. lia.
Qed.

Lemma turns_app (i : nat) (s1 s2 : list nat) :
  authority.turns i (s1 ++ s2) = authority.turns i s1 + authority.turns i s2.
Proof. induction s1 as [|j s1 IH]; simpl; [done|]. rewrite IH. lia. Qed.

Lemma turns_seq (i k n : nat) : k <= i < k + n -> 1 <= authority.turns i (seq k n).
Proof.
  revert k. induction n as [|n IH]; intros k Hi; [lia|].
  simpl. destruct (Nat.eqb_spec i k) as [->|Hne]; [lia|].
  pose proof (IH (S k)). lia.
Qed.

(** Fair schedules exist for every number of requests. *)
Lemma round_robin_fair (n : nat) : authority.fair n (authority.round_robin n) = true.
Proof.
  unfold authority.fair, authority.round_robin. apply forallb_forall.
  intros i Hi%in_seq. apply Nat.leb_le. rewrite !turns_app.
  pose proof (turns_seq i 0 n). lia.
Qed.

(** C8.  Any number of requests run concurrently against one authority whose
    replay guard has not seen [id]; at least one of them presents a token
    with id [id] routed to a JWK provisioner.  Every schedule that gives each
    request its three steps, in whatever order, runs every request to its
    end, and the round robin is such a schedule.  Under every schedule of
    their steps, once all requests with that id have finished, exactly one of
    them (the winner [w]) had its record stored and went on to the
    provisioner, whose answer it returns; each of the others found the id
    stored, called no provisioner and failed with the 401 error "token
    already used". *)
Theorem replay_guard_single_winner a id requests schedule :
  id <> "" ->
  authority.ottMap a !! id = None ->
  (exists i ott now,
     requests !! i = Some (ott, now) /\ authority.submits a id ott = true) ->
  let P := authority.run_schedule (authority.start_pool a requests) schedule in
  (authority.fair (length requests) schedule = true ->
   forall i r, requests !! i = Some r ->
     exists th, authority.threads P !! i = Some th /\ authority.is_done th = true)
  /\ authority.fair (length requests) (authority.round_robin (length requests)) = true
  /\ ((forall i ott now,
         requests !! i = Some (ott, now) -> authority.submits a id ott = true ->
         exists th, authority.threads P !! i = Some th /\ authority.is_done th = true) ->
      exists w ott_w now_w p claims,
        requests !! w = Some (ott_w, now_w)
        /\ authority.submits a id ott_w = true
        /\ authority.Authorize_route ott_w a = (inl (p, claims), a, [])
        /\ authority.threads P !! w
           = Some (authority.TDone (provisioner.Authorize p ott_w),
                   [authority.EvLoadOrStore id (authority.usage claims now_w) false;
                    authority.EvProvisionerAuthorize p ott_w])
        /\ forall i ott now,
             i <> w -> requests !! i = Some (ott, now) ->
             authority.submits a id ott = true ->
             exists value,
               authority.threads P !! i
               = Some (authority.TDone
                         (Err (apiError (errors_New "token already used")
                                 StatusUnauthorized (authority.errContext ott))),
                       [authority.EvLoadOrStore id value true])).
Proof.
  intros Hid Hfresh (i0 & ott0 & now0 & Hreq0 & Hsub0) P.
  split; [intros Hfair i r Hreq; by apply (fair_schedule_finishes a requests schedule i r)|].
  split; [apply round_robin_fair|].
  intros Hdone.
  assert (Hinv : authority.pool_inv a id requests P)
    by (apply run_schedule_inv, start_pool_inv, Hfresh).
  (* a finished request with this id, seen through the invariant *)
  assert (Hfinished : forall i ott now,
            requests !! i = Some (ott, now) -> authority.submits a id ott = true ->
            exists p claims r evs,
              authority.Authorize_route ott a = (inl (p, claims), a, [])
              /\ authority.guarded p claims = true
              /\ jose.ID (authority.Claims_ claims) = id
              /\ authority.threads P !! i = Some (authority.TDone r, evs)
              /\ authority.thread_inv a ott now (authority.TDone r) evs).
  { intros i ott now Hreq Hsub.
    destruct (Hdone _ _ _ Hreq Hsub) as ([t evs] & Hi & Hd).
    destruct (authority.inv_threads _ _ _ _ Hinv _ _ _ Hreq) as (t' & evs' & Hi' & Ht).
    rewrite Hi in Hi'. injection Hi' as <- <-.
    apply submits_spec in Hsub as (p & claims & Hr & Hjwk & Hidc).
    destruct t as [| | |r]; try discriminate Hd.
    exists p, claims, r, evs. repeat split; try done.
    apply guarded_spec. split; [done|congruence]. }
  (* the id has been recorded, so some goroutine has won *)
  assert (Hsome : is_Some (authority.ottMap (authority.shared P) !! id)).
  { destruct (Hfinished _ _ _ Hreq0 Hsub0) as (p & claims & r & evs & Hr & Hg & Hidc & Hi & Ht).
    destruct (submitter_done _ _ _ _ _ _ _ Hr Hg Ht) as [[_ ->]|[_ ->]];
      eapply (authority.inv_recorded _ _ _ _ Hinv _ _ _ _ _ Hi); rewrite Hidc; by left. }
  destruct (authority.inv_winner _ _ _ _ Hinv Hsome) as (w & tw & evw & Hw & Hwon).
  assert (exists ott_w now_w, requests !! w = Some (ott_w, now_w)) as (ott_w & now_w & Hreqw).
  { apply lookup_lt_Some in Hw. rewrite (authority.inv_length _ _ _ _ Hinv) in Hw.
    apply lookup_lt_is_Some_2 in Hw as [[o n] Hreq]. by exists o, n. }
  destruct (authority.inv_threads _ _ _ _ Hinv _ _ _ Hreqw) as (t' & evs' & Hw' & Htw).
  rewrite Hw in Hw'. injection Hw' as <- <-.
  destruct (winner_is_submitter _ _ _ _ _ _ Htw Hwon) as (p & claims & Hr & Hg & Hidc & Hfin).
  assert (Hsubw : authority.submits a id ott_w = true).
  { apply submits_spec. exists p, claims. repeat split; try done.
    by apply guarded_spec in Hg as [? _]. }
  destruct (Hdone _ _ _ Hreqw Hsubw) as (t'' & Hw'' & Hd).
  rewrite Hw in Hw''. injection Hw'' as <-.
  destruct (Hfin Hd) as [-> ->].
  exists w, ott_w, now_w, p, claims. repeat split; try done.
  intros i ott now Hne Hreq Hsub.
  destruct (Hfinished _ _ _ Hreq Hsub) as (pi & ci & r & evs & Hri & Hgi & Hidi & Hi & Hti).
  destruct (submitter_done _ _ _ _ _ _ _ Hri Hgi Hti) as [[-> ->]|[_ ->]].
  - rewrite Hidi in Hi. by eexists.
  - exfalso. apply Hne.
    eapply (authority.inv_unique _ _ _ _ Hinv _ _ _ _ _ _ Hi Hw); [|done].
    eexists. rewrite Hidi. by left.
Qed.

End ConcurrencyFacts.

(** A goroutine that runs alone does what the sequential [Authorize] does:
    its three steps give the result, the authority and the log of one call. *)
Lemma thread_alone_is_Authorize {SignOption : Type} `{JL : jose.Lib authority.Claims}
    (a : @authority.Authority SignOption JL) (ott : string) (now : time.Time) :
  (let '(t1, a1, l1) := authority.thread_step a (authority.TStart ott now) in
   let '(t2, a2, l2) := authority.thread_step a1 t1 in
   let '(t3, a3, l3) := authority.thread_step a2 t2 in
   (t3, a3, l1 ++ l2 ++ l3))
  = (let '(r, a', l) := authority.Authorize a ott now in (authority.TDone r, a', l)).
Proof.
  destruct (Authorize_route_pure ott a) as [[[p claims]|err] Hr].
  - rewrite (thread_step_start a a ott now _ (same_setup_refl a) Hr).
    rewrite thread_step_routed, (Authorize_routed _ _ _ _ _ Hr), Authorize_replay_spec.
    unfold authority.guarded, authority.usage.
    destruct (_ && _).
    + destruct (authority.ottMap a !! _); [done|].
      by rewrite thread_step_guarded.
    + by rewrite thread_step_guarded.
  - rewrite (thread_step_start a a ott now _ (same_setup_refl a) Hr).
    by rewrite (Authorize_unrouted _ _ _ _ Hr).
Qed.

(** C8 at a concrete input: the token "fresh" submitted three times at once
    to the test CA, under the schedule 2 0 1, 1 0 2, 2 0 1.  All three
    requests are routed first; request 1 reaches the guard first and wins;
    requests 0 and 2 find the id stored. *)
Lemma replay_guard_single_winner_witness :
  let requests := [("fresh", (time.Unix 5000 0)); ("fresh", (time.Unix 6000 0));
                   ("fresh", (time.Unix 7000 0))] in
  let schedule := [2; 0; 1; 1; 0; 2; 2; 0; 1]%nat in
  let P := authority.run_schedule (authority.start_pool fixtures.ca requests) schedule in
  exists w ott_w now_w p claims,
    requests !! w = Some (ott_w, now_w)
    /\ authority.submits fixtures.ca "id-1" ott_w = true
    /\ authority.Authorize_route ott_w fixtures.ca = (inl (p, claims), fixtures.ca, [])
    /\ authority.threads P !! w
       = Some (authority.TDone (provisioner.Authorize p ott_w),
               [authority.EvLoadOrStore "id-1" (authority.usage claims now_w) false;
                authority.EvProvisionerAuthorize p ott_w])
    /\ forall i ott now,
         i <> w -> requests !! i = Some (ott, now) ->
         authority.submits fixtures.ca "id-1" ott = true ->
         exists value,
           authority.threads P !! i
           = Some (authority.TDone
                     (Err (apiError (errors_New "token already used") StatusUnauthorized
                             (authority.errContext ott))),
                   [authority.EvLoadOrStore "id-1" value true]).
Proof.
  intros requests schedule P.
  destruct (@replay_guard_single_winner unit fixtures.lib fixtures.ca "id-1"
              requests schedule) as (Hfinish & _ & Hwinner).
  - discriminate.
  - reflexivity.
  - exists 0%nat, "fresh", (time.Unix 5000 0). split; reflexivity.
  - apply Hwinner. intros i ott now Hreq _.
    apply (Hfinish eq_refl i (ott, now) Hreq).
Defined.

(** ** More on the authorization pipeline *)
Section AuthorizeMore.
Context {SignOption : Type} `{JL : jose.Lib authority.Claims}.

Local Abbreviation Authority := (@authority.Authority SignOption JL).
Local Abbreviation Provisioner := (provisioner.Interface SignOption).

Implicit Types (a : Authority) (p : Provisioner) (claims : authority.Claims).
Implicit Types (ott id : string) (now : time.Time).

(** The four ways routing fails are 401 errors that carry the token. *)
Lemma Authorize_route_error ott a err :
  authority.Authorize_route ott a = (inr err, a, []) ->
  exists cause, err = apiError cause StatusUnauthorized (authority.errContext ott).
Proof.
  unfold authority.Authorize_route. monad_unfold.
  destruct (jose.ParseSigned ott) as [token|e]; [|intros [= <-]; by eexists].
  destruct (jose.UnsafeClaimsWithoutVerification token) as [claims|e];
    [|intros [= <-]; by eexists].
  destruct (authority.issuedAtCheck a && authority.issuedBeforeStart a claims);
    [intros [= <-]; by eexists|].
  destruct (authority.LoadByToken _ token _); [done|intros [= <-]; by eexists].
Qed.

(** X1.  Whose verdict [Authorize] returns.  Either [Authorize] rejects the
    token itself, always with a 401 [apiError] that carries the token in its
    context (the four rejections of the routing part and the replay
    rejection), and then the provisioner's [Authorize] has not been called;
    or the token was routed to a provisioner, the call to that provisioner's
    [Authorize] is the last thing done, and its answer, success or error, is
    returned as it is. *)
Theorem Authorize_verdict a ott now :
  let '(r, a', log) := authority.Authorize a ott now in
  (exists cause,
     r = Err (apiError cause StatusUnauthorized (authority.errContext ott))
     /\ forall p ott', authority.EvProvisionerAuthorize p ott' ∉ log)
  \/ (exists p claims,
        authority.Authorize_route ott a = (inl (p, claims), a, [])
        /\ r = provisioner.Authorize p ott
        /\ last log = Some (authority.EvProvisionerAuthorize p ott)).
Proof.
  destruct (Authorize_route_pure ott a) as [[[p claims]|e] Hr].
  - rewrite (Authorize_routed _ _ _ _ _ Hr), Authorize_replay_spec.
    destruct (_ && _).
    + destruct (authority.ottMap a !! _).
      * left. eexists. split; [done|]. intros p' ott' Hin.
        apply list_elem_of_singleton in Hin. discriminate Hin.
      * right. by exists p, claims.
    + right. by exists p, claims.
  - rewrite (Authorize_unrouted _ _ _ _ Hr).
    destruct (Authorize_route_error _ _ _ Hr) as [cause ->].
    left. eexists. split; [done|]. intros p' ott' Hin. by apply elem_of_nil in Hin.
Qed.
(** X2.  What one call of [Authorize] does to the authority.  The
    configuration, the start time and the registry are never changed.  The
    replay guard is either left as it was, and then no record was stored; or
    it gains exactly one record, under the id of the token, which was not in
    the guard before, with the clock reading of this call.  The second case
    happens only for a token routed to a JWK provisioner with a non-empty id,
    and the call then goes on to the provisioner and returns its answer.  No
    record is ever removed or replaced. *)
Theorem Authorize_guard_footprint a ott now :
  let '(r, a', log) := authority.Authorize a ott now in
  authority.same_setup a a'
  /\ ((a' = a /\ forall id value, authority.EvLoadOrStore id value false ∉ log)
      \/ exists p claims,
           let id := jose.ID (authority.Claims_ claims) in
           let rec := authority.usage claims now in
           authority.Authorize_route ott a = (inl (p, claims), a, [])
           /\ authority.guarded p claims = true
           /\ authority.ottMap a !! id = None
           /\ authority.ottMap a' = <[id := rec]> (authority.ottMap a)
           /\ r = provisioner.Authorize p ott
           /\ log = [authority.EvLoadOrStore id rec false;
                     authority.EvProvisionerAuthorize p ott]).
Proof.
  destruct (Authorize_route_pure ott a) as [[[p claims]|e] Hr].
  - rewrite (Authorize_routed _ _ _ _ _ Hr), Authorize_replay_spec.
    destruct (_ && _) eqn:Hg.
    + destruct (authority.ottMap a !! _) eqn:Hid.
      * split; [apply same_setup_refl|]. left. split; [done|].
        intros id value Hin. apply list_elem_of_singleton in Hin. discriminate Hin.
      * split; [apply same_setup_set_ottMap|]. right. exists p, claims.
        by repeat split.
    + split; [apply same_setup_refl|]. left. split; [done|].
      intros id value Hin. apply list_elem_of_singleton in Hin. discriminate Hin.
  - rewrite (Authorize_unrouted _ _ _ _ Hr).
    split; [apply same_setup_refl|]. left. split; [done|].
    intros id value Hin. by apply elem_of_nil in Hin.
Qed.

(** X3.  Tokens outside the replay guard are not single-use.  A token routed
    to a provisioner that is not of the JWK kind, or a token with an empty
    id, is handed to the provisioner every time it is submitted, whatever
    calls came before, and leaves the authority as it was. *)
Theorem Authorize_unguarded_token_reusable a ott p claims :
  authority.Authorize_route ott a = (inl (p, claims), a, []) ->
  provisioner.GetType p <> provisioner.TypeJWK \/ jose.ID (authority.Claims_ claims) = "" ->
  forall calls now,
    let a' := authority.after_calls a calls in
    authority.Authorize a' ott now =
      (provisioner.Authorize p ott, a', [authority.EvProvisionerAuthorize p ott]).
Proof.
  intros Hr Hfree calls now a'.
  assert (Hr' : authority.Authorize_route ott a' = (inl (p, claims), a', [])).
  { eapply Authorize_route_setup; [|exact Hr]. apply after_calls_keeps. }
  rewrite (Authorize_routed _ _ _ _ _ Hr'), Authorize_replay_spec.
  assert (provisioner.Type_eqb (provisioner.GetType p) provisioner.TypeJWK
          && negb (String.eqb (jose.ID (authority.Claims_ claims)) "") = false) as ->.
  { destruct Hfree as [Hty| ->]; [|apply andb_false_r].
    apply andb_false_iff. left. apply not_true_iff_false.
    intros Heq. by apply Type_eqb_eq in Heq. }
  done.
Qed.

(** X4.  The replay guard is keyed by the token id alone.  Once a token with
    a non-empty id has reached the guard through a JWK provisioner (whether
    it was stored then or found already stored), every token with the same
    id routed to a JWK provisioner is rejected as already used, without a
    call to the provisioner: also a different token, of another provisioner,
    after any number of other calls. *)
Theorem Authorize_guard_keyed_by_id a ott1 now1 p1 claims1 ott2 p2 claims2 :
  authority.Authorize_route ott1 a = (inl (p1, claims1), a, []) ->
  authority.Authorize_route ott2 a = (inl (p2, claims2), a, []) ->
  provisioner.GetType p1 = provisioner.TypeJWK ->
  provisioner.GetType p2 = provisioner.TypeJWK ->
  jose.ID (authority.Claims_ claims1) <> "" ->
  jose.ID (authority.Claims_ claims2) = jose.ID (authority.Claims_ claims1) ->
  forall calls now2,
    let a2 := authority.after_calls (authority.Authorize a ott1 now1).1.2 calls in
    authority.Authorize a2 ott2 now2 =
      (Err (apiError (errors_New "token already used") StatusUnauthorized
              (authority.errContext ott2)),
       a2,
       [authority.EvLoadOrStore (jose.ID (authority.Claims_ claims2))
          (authority.usage claims2 now2) true]).
Proof.
  intros Hr1 Hr2 Hjwk1 Hjwk2 Hid Hsame calls now2 a2.
  set (a1 := (authority.Authorize a ott1 now1).1.2) in *.
  assert (Hin1 : is_Some (authority.ottMap a1 !! jose.ID (authority.Claims_ claims1))).
  { subst a1. rewrite (Authorize_routed _ _ _ _ _ Hr1), Authorize_replay_spec.
    rewrite Hjwk1, (String_eqb_empty_false _ Hid). simpl.
    destruct (authority.ottMap a !! _) eqn:Hold; simpl.
    - by rewrite Hold.
    - by rewrite lookup_insert_eq. }
  destruct Hin1 as [u Hu].
  destruct (Authorize_keeps a ott1 now1) as [Hs1 _]. fold a1 in Hs1.
  destruct (after_calls_keeps a1 calls) as [Hs2 Hk2]. fold a2 in Hs2, Hk2.
  assert (Hr2' : authority.Authorize_route ott2 a2 = (inl (p2, claims2), a2, [])).
  { eapply Authorize_route_setup; [|exact Hr2]. by eapply same_setup_trans. }
  rewrite (Authorize_routed _ _ _ _ _ Hr2'), Authorize_replay_spec.
  rewrite Hjwk2, Hsame, (String_eqb_empty_false _ Hid). simpl.
  by rewrite (Hk2 _ _ Hu).
Qed.

Lemma wrap64_small (z : Z) :
  (- 2 ^ 63 <= z < 2 ^ 63)%Z -> time.wrap64 z = z.
Proof.
  intros Hz. unfold time.wrap64.
  rewrite Z.mod_small by lia. lia.
Qed.

Lemma wrap64_high (z : Z) :
  (2 ^ 63 <= z < 2 ^ 63 + 2 ^ 64)%Z -> time.wrap64 z = (z - 2 ^ 64)%Z.
Proof.
  intros Hz. unfold time.wrap64.
  rewrite <- (Z.mod_unique (z + 9223372036854775808) 18446744073709551616 1
                (z - 9223372036854775808)) by lia.
  lia.
Qed.

(** X5.  The issued-at check at the boundary, for every [int64] count of
    seconds.  With the check on and a CA started at second [s] plus [ns]
    nanoseconds, take a token with a positive issued-at [iat].  The two
    instants are compared as seconds since year 1, an [int64] that wraps
    around for a count of [2^63 - 62135596800] or more (about 292 billion
    years).  When neither count is that late, or both are, the token is
    rejected exactly when [iat < s], or [iat = s] and [ns > 0]: the
    issued-at has no sub-second part, so a token issued during the second in
    which the CA started is rejected unless the start time is a whole
    second.  When only the issued-at is that late it wraps around and the
    token is rejected, although it is dated after the start; when only the
    start is, the token is not rejected.  A rejected token gets the bootstrap
    error and nothing else happens; a token that is not rejected goes on to
    the provisioner lookup. *)
Theorem Authorize_bootstrap_boundary a ott now token claims s ns :
  jose.ParseSigned ott = Ok token ->
  jose.UnsafeClaimsWithoutVerification token = Ok claims ->
  authority.issuedAtCheck a = true ->
  authority.startTime a = time.Unix s ns ->
  (- 2 ^ 63 <= s < 2 ^ 63)%Z ->
  (0 <= ns < 1000000000)%Z ->
  let iat := jose.IssuedAt (authority.Claims_ claims) in
  (0 < iat < 2 ^ 63)%Z ->
  let late (z : Z) := (2 ^ 63 - time.unixToInternal <=? z)%Z in
  let earlier := (iat <? s)%Z || ((iat =? s)%Z && (0 <? ns)%Z) in
  let rejected :=
    if late iat then (if late s then earlier else true)
    else (if late s then false else earlier) in
  authority.issuedBeforeStart a claims = rejected
  /\ (rejected = true ->
      authority.Authorize a ott now =
        (Err (apiError
                (errors_New "token issued before the bootstrap of certificate authority")
                StatusUnauthorized (authority.errContext ott)),
         a, []))
  /\ (rejected = false ->
      authority.Authorize_route ott a =
        (match authority.LoadByToken (authority.provisioners a) token
                 (authority.Claims_ claims) with
         | Some p => inl (p, claims)
         | None => inr (apiError (errors_New "authorize: provisioner not found")
                          StatusUnauthorized (authority.errContext ott))
         end, a, []))
  /\ ((iat < 2 ^ 63 - time.unixToInternal)%Z ->
      (s < 2 ^ 63 - time.unixToInternal)%Z ->
      (rejected = true <-> (iat < s \/ iat = s /\ 0 < ns)%Z)).
Proof.
  intros Hparse Hclaims Hon Hstart Hs Hns iat Hiat late earlier rejected.
  assert (Hguard : authority.issuedBeforeStart a claims = rejected).
  { unfold authority.issuedBeforeStart, jose.NumericDate_Time, time.Before.
    rewrite Hstart. fold iat. unfold time.Unix. simpl.
    replace (iat >? 0)%Z with true by (symmetry; apply Z.gtb_lt; lia). simpl.
    subst rejected earlier late. cbv beta. unfold time.unixToInternal.
    destruct (Z.leb_spec (2 ^ 63 - 62135596800) iat) as [Hi|Hi];
      destruct (Z.leb_spec (2 ^ 63 - 62135596800) s) as [Hl|Hl];
      rewrite ?(wrap64_high (iat + 62135596800)), ?(wrap64_small (iat + 62135596800)),
        ?(wrap64_high (s + 62135596800)), ?(wrap64_small (s + 62135596800)) by lia.
    - f_equal.
      + apply eq_true_iff_eq. rewrite !Z.ltb_lt. lia.
      + f_equal. apply eq_true_iff_eq. rewrite !Z.eqb_eq. lia.
    - apply orb_true_iff. left. apply Z.ltb_lt. lia.
    - apply orb_false_iff. split; [apply Z.ltb_ge; lia|].
      apply andb_false_iff. left. apply Z.eqb_neq. lia.
    - f_equal.
      + apply eq_true_iff_eq. rewrite !Z.ltb_lt. lia.
      + f_equal. apply eq_true_iff_eq. rewrite !Z.eqb_eq. lia. }
  split; [done|]. split; [|split].
  - intros Hrej. rewrite <- Hguard in Hrej.
    unfold authority.Authorize, authority.Authorize_body, authority.Authorize_route.
    monad_unfold. by rewrite Hparse, Hclaims, Hon, Hrej.
  - intros Hpass. rewrite <- Hguard in Hpass.
    unfold authority.Authorize_route. monad_unfold.
    rewrite Hparse, Hclaims, Hon, Hpass. simpl.
    by destruct (authority.LoadByToken _ token _).
  - intros Hi Hl. subst rejected late. cbv beta.
    rewrite (proj2 (Z.leb_gt _ _) Hi), (proj2 (Z.leb_gt _ _) Hl).
    subst earlier. rewrite orb_true_iff, andb_true_iff, !Z.ltb_lt, Z.eqb_eq.
    done.
Qed.

End AuthorizeMore.

(** *** The guard after a sequence of calls *)
Section AuthorizeSeq.
Context {SignOption : Type} `{JL : jose.Lib authority.Claims}.

Local Abbreviation Authority := (@authority.Authority SignOption JL).
Local Abbreviation Provisioner := (provisioner.Interface SignOption).

Implicit Types (a : Authority) (p : Provisioner) (claims : authority.Claims).
Implicit Types (ott id : string) (now : time.Time).

Lemma guarded_id_setup a a' ott :
  authority.same_setup a a' -> authority.guarded_id a' ott = authority.guarded_id a ott.
Proof.
  intros Hs. destruct (Authorize_route_pure ott a) as [r Hr].
  unfold authority.guarded_id. by rewrite (Authorize_route_setup _ _ _ _ Hs Hr), Hr.
Qed.

(** The ids in the guard after one call. *)
Lemma Authorize_guard_ids a ott now id :
  is_Some (authority.ottMap (authority.Authorize a ott now).1.2 !! id)
  <-> is_Some (authority.ottMap a !! id) \/ authority.guarded_id a ott = Some id.
Proof.
  unfold authority.guarded_id.
  destruct (Authorize_route_pure ott a) as [[[p claims]|err] Hr]; rewrite Hr.
  - rewrite (Authorize_routed _ _ _ _ _ Hr), Authorize_replay_spec.
    unfold authority.guarded.
    destruct (_ && _); simpl.
    + destruct (authority.ottMap a !! jose.ID _) eqn:Hid; simpl.
      * split; [by left|]. intros [?|[= <-]]; [done|by rewrite Hid].
      * split.
        -- destruct (decide (jose.ID (authority.Claims_ claims) = id)) as [->|Hne];
             [by right|]. rewrite lookup_insert_ne by done. by left.
        -- intros [Hold|[= <-]]; [|by rewrite lookup_insert_eq].
           destruct (decide (jose.ID (authority.Claims_ claims) = id)) as [->|Hne];
             [by rewrite lookup_insert_eq|by rewrite lookup_insert_ne].
    + split; [by left|by intros [?|?]].
  - rewrite (Authorize_unrouted _ _ _ _ Hr). simpl.
    split; [by left|by intros [?|?]].
Qed.

(** X6.  The ids in the replay guard after any sequence of [Authorize]
    calls are exactly the ids that were there at the start and the ids of
    the submitted tokens the guard applies to (routed to a JWK provisioner,
    with a non-empty id), whether their verification succeeded or not.  The
    records that were there at the start are kept as they were. *)
Theorem after_calls_guard_ids a calls id :
  (is_Some (authority.ottMap (authority.after_calls a calls) !! id)
   <-> is_Some (authority.ottMap a !! id)
       \/ exists ott now, (ott, now) ∈ calls /\ authority.guarded_id a ott = Some id)
  /\ (forall u, authority.ottMap a !! id = Some u ->
        authority.ottMap (authority.after_calls a calls) !! id = Some u).
Proof.
  split; [|intros u; apply after_calls_keeps].
  revert a. induction calls as [|[ott now] calls IH]; intros a; simpl.
  - split; [by left|]. intros [?|(ott & now & Hin & _)]; [done|].
    by apply elem_of_nil in Hin.
  - rewrite IH, Authorize_guard_ids.
    destruct (Authorize_keeps a ott now) as [Hs _].
    split.
    + intros [[Hold|Hnew]|(ott' & now' & Hin & Hg)].
      * by left.
      * right. exists ott, now. split; [by left|done].
      * right. exists ott', now'. split; [by right|]. by rewrite <- (guarded_id_setup _ _ _ Hs).
    + intros [Hold|(ott' & now' & Hin & Hg)]; [by do 2 left|].
      apply elem_of_cons in Hin as [[= -> ->]|Hin]; [left; by right|].
      right. exists ott', now'. split; [done|]. by rewrite (guarded_id_setup _ _ _ Hs).
Qed.

End AuthorizeSeq.

(** *** On the test doubles *)

(** X3 at a concrete input: "fresh" submitted a third time to a CA whose
    provisioner is of the OIDC kind. *)
Lemma Authorize_unguarded_token_reusable_witness :
  let a := fixtures.ca_with fixtures.oidc ∅ in
  authority.Authorize
    (authority.after_calls a [("fresh", time.Unix 5000 0); ("fresh", time.Unix 5001 0)])
    "fresh" (time.Unix 5002 0)
  = (Ok [tt], a, [authority.EvProvisionerAuthorize fixtures.oidc "fresh"]).
Proof.
  intros a.
  apply (@Authorize_unguarded_token_reusable unit fixtures.lib a "fresh" fixtures.oidc
           (fixtures.claims_of 2000 "id-1")).
  - reflexivity.
  - left. discriminate.
Defined.

(** X4 at a concrete input: after "fresh" (id "id-1", issuer "step-cli"),
    the token "ops-token" of the other provisioner, which carries the same
    id, is rejected. *)
Lemma Authorize_guard_keyed_by_id_witness :
  let a := fixtures.ca2 (time.Unix 1000 0) ∅ in
  let a2 := authority.after_calls (authority.Authorize a "fresh" (time.Unix 5000 0)).1.2
              [("undated", time.Unix 5001 0)] in
  authority.Authorize a2 "ops-token" (time.Unix 5002 0) =
    (Err (apiError (errors_New "token already used") StatusUnauthorized
            (authority.errContext "ops-token")),
     a2,
     [authority.EvLoadOrStore "id-1" (authority.mkIdUsed 5002 "bob@example.com") true]).
Proof.
  intros a a2.
  apply (@Authorize_guard_keyed_by_id unit fixtures.lib2 a "fresh" (time.Unix 5000 0) fixtures.jwk
           (fixtures.claims_of 2000 "id-1") "ops-token" fixtures.ops_jwk
           (fixtures.claims_by "ops-cli" 3000 "id-1")).
  - reflexivity.
  - reflexivity.
  - reflexivity.
  - reflexivity.
  - discriminate.
  - reflexivity.
Defined.

(** X5 at concrete inputs: a CA started half a microsecond into second
    2000 rejects "fresh", issued at second 2000; and the CA started at
    second 1000 rejects "far", dated 1024 seconds before the end of the
    [int64] range. *)
Lemma Authorize_bootstrap_boundary_witness :
  let a := fixtures.ca2 (time.Unix 2000 500) ∅ in
  (authority.issuedBeforeStart a (fixtures.claims_of 2000 "id-1") = true
   /\ authority.Authorize a "fresh" (time.Unix 5000 0) =
        (Err (apiError
                (errors_New "token issued before the bootstrap of certificate authority")
                StatusUnauthorized (authority.errContext "fresh")),
         a, []))
  /\ authority.Authorize fixtures.far_ca "far" (time.Unix 5000 0) =
       (Err (apiError
               (errors_New "token issued before the bootstrap of certificate authority")
               StatusUnauthorized (authority.errContext "far")),
        fixtures.far_ca, []).
Proof.
  intros a. split.
  - destruct (@Authorize_bootstrap_boundary unit fixtures.lib2 a "fresh" (time.Unix 5000 0)
                (fixtures.claims_of 2000 "id-1") (fixtures.claims_of 2000 "id-1")
                2000%Z 500%Z) as (Hguard & Hreject & _).
    + reflexivity.
    + reflexivity.
    + reflexivity.
    + reflexivity.
    + lia.
    + lia.
    + simpl. lia.
    + split; [exact Hguard|]. apply Hreject. reflexivity.
  - destruct (@Authorize_bootstrap_boundary unit fixtures.far_lib fixtures.far_ca "far"
                (time.Unix 5000 0) (fixtures.claims_of (2 ^ 63 - 1024) "id-5")
                (fixtures.claims_of (2 ^ 63 - 1024) "id-5")
                1000%Z 0%Z) as (_ & Hreject & _).
    + reflexivity.
    + reflexivity.
    + reflexivity.
    + reflexivity.
    + lia.
    + lia.
    + simpl. lia.
    + apply Hreject. reflexivity.
Defined.

(** ** More on concurrent requests *)
Section PoolMore.
Context {SignOption : Type} `{JL : jose.Lib authority.Claims}.

Local Abbreviation Authority := (@authority.Authority SignOption JL).
Local Abbreviation Provisioner := (provisioner.Interface SignOption).
Local Abbreviation Thread := (@authority.Thread SignOption).
Local Abbreviation Event := (@authority.Event SignOption).
Local Abbreviation Pool := (@authority.Pool SignOption JL).

Implicit Types (a : Authority) (p : Provisioner) (claims : authority.Claims).
Implicit Types (ott id : string) (now : time.Time) (P : Pool).
Implicit Types (t : Thread) (evs l : list Event).

(** One step of a goroutine leaves the guard as it was and logs no store,
    or stores one record under a key that was free. *)
Lemma thread_step_guard a1 t :
  let '(t', a', l) := authority.thread_step a1 t in
  (a' = a1 /\ forall k v, authority.EvLoadOrStore k v false ∉ l)
  \/ (exists k v,
        authority.ottMap a1 !! k = None
        /\ authority.ottMap a' = <[k := v]> (authority.ottMap a1)
        /\ l = [authority.EvLoadOrStore k v false]).
Proof.
  destruct t as [ott now|ott now p claims|ott p|r].
  - destruct (Authorize_route_pure ott a1) as [r Hr].
    rewrite (thread_step_start a1 a1 ott now _ (same_setup_refl a1) Hr).
    left. split; [done|]. intros k v Hin. by apply elem_of_nil in Hin.
  - rewrite thread_step_routed.
    destruct (authority.guarded p claims).
    + destruct (authority.ottMap a1 !! _) eqn:Hid.
      * left. split; [done|]. intros k v Hin.
        apply list_elem_of_singleton in Hin. discriminate Hin.
      * right. by eexists _, _.
    + left. split; [done|]. intros k v Hin. by apply elem_of_nil in Hin.
  - rewrite thread_step_guarded. left. split; [done|]. intros k v Hin.
    apply list_elem_of_singleton in Hin. discriminate Hin.
  - left. split; [done|]. intros k v Hin. by apply elem_of_nil in Hin.
Qed.

Lemma pool_step_guard_inv a P i :
  authority.guard_inv a P -> authority.guard_inv a (authority.pool_step P i).
Proof.
  intros Hinv. unfold authority.pool_step.
  destruct (authority.threads P !! i) as [[t evs]|] eqn:Hi; [|done].
  pose proof (thread_step_guard (authority.shared P) t) as Hstep.
  destruct (authority.thread_step (authority.shared P) t) as [[t' a'] l].
  assert (Hi' : i < length (authority.threads P)) by (by eapply lookup_lt_Some).
  intros k v. unfold authority.stored_by_request. simpl.
  destruct Hstep as [[-> Hnone]|(k0 & v0 & Hfree & Hmap & ->)].
  - rewrite (Hinv k v). apply or_iff_compat_l. split.
    + intros (w & tw & evw & Hw & Hin).
      destruct (decide (w = i)) as [->|Hne].
      * rewrite Hi in Hw. injection Hw as <- <-.
        exists i, t', (evs ++ l). rewrite list_lookup_insert_eq by done.
        split; [done|]. apply elem_of_app. by left.
      * exists w, tw, evw. by rewrite list_lookup_insert_ne.
    + intros (w & tw & evw & Hw & Hin).
      destruct (decide (w = i)) as [->|Hne].
      * rewrite list_lookup_insert_eq in Hw by done. injection Hw as <- <-.
        apply elem_of_app in Hin as [Hin|Hin]; [|by apply Hnone in Hin].
        by exists i, t, evs.
      * rewrite list_lookup_insert_ne in Hw by done. by exists w, tw, evw.
  - rewrite Hmap. split.
    + destruct (decide (k0 = k)) as [->|Hne].
      * rewrite lookup_insert_eq. intros [= <-]. right.
        exists i, t', (evs ++ [authority.EvLoadOrStore k v0 false]).
        rewrite list_lookup_insert_eq by done. split; [done|].
        apply elem_of_app. right. by left.
      * rewrite lookup_insert_ne by done. intros Hk. apply Hinv in Hk as [Hk|Hk]; [by left|].
        right. destruct Hk as (w & tw & evw & Hw & Hin).
        destruct (decide (w = i)) as [->|Hnei].
        -- rewrite Hi in Hw. injection Hw as <- <-.
           exists i, t', (evs ++ [authority.EvLoadOrStore k0 v0 false]).
           rewrite list_lookup_insert_eq by done. split; [done|].
           apply elem_of_app. by left.
        -- exists w, tw, evw. by rewrite list_lookup_insert_ne.
    + intros Hk.
      assert (Hold : authority.ottMap (authority.shared P) !! k = Some v
                     \/ (k = k0 /\ v = v0)).
      { destruct Hk as [Hk|(w & tw & evw & Hw & Hin)].
        - left. apply Hinv. by left.
        - destruct (decide (w = i)) as [->|Hne].
          + rewrite list_lookup_insert_eq in Hw by done. injection Hw as <- <-.
            apply elem_of_app in Hin as [Hin|Hin].
            * left. apply Hinv. right. by exists i, t, evs.
            * right. apply list_elem_of_singleton in Hin. by injection Hin as -> ->.
          + rewrite list_lookup_insert_ne in Hw by done.
            left. apply Hinv. right. by exists w, tw, evw. }
      destruct Hold as [Hold|[-> ->]]; [|by rewrite lookup_insert_eq].
      rewrite lookup_insert_ne; [done|]. intros ->. congruence.
Qed.

(** X7.  Under any interleaving of the steps of any requests, the replay
    guard holds exactly the records it held at the start and the records the
    requests have stored by a [LoadOrStore] that found the key free: no
    record is lost or replaced, and none appears that no request stored. *)
Theorem pool_guard_contents a (requests : list (string * time.Time)) (schedule : list nat) :
  let P := authority.run_schedule (authority.start_pool a requests) schedule in
  forall key value,
    authority.ottMap (authority.shared P) !! key = Some value
    <-> authority.ottMap a !! key = Some value \/ authority.stored_by_request P key value.
Proof.
  intros P. subst P.
  assert (Hstart : authority.guard_inv a (authority.start_pool a requests)).
  { intros k v. split; [by left|]. intros [Hk|(w & t & evs & Hw & Hin)]; [done|].
    unfold authority.start_pool in Hw. simpl in Hw.
    rewrite list_lookup_fmap in Hw.
    destruct (requests !! w); [|done]. injection Hw as <- <-.
    by apply elem_of_nil in Hin. }
  revert Hstart. generalize (authority.start_pool a requests).
  induction schedule as [|i schedule IH]; intros P HP; [done|].
  simpl. apply IH. by apply pool_step_guard_inv.
Qed.

End PoolMore.

(** ** More on audience matching *)

Lemma getscheme_from_alpha (sch raw rest : string) (i : nat) :
  url.all_bytes url.is_alpha sch = true ->
  0 < i + String.length sch ->
  url.getscheme_from i raw (sch +:+ String ":" rest)
  = Some (strings.take (i + String.length sch) raw, rest).
Proof.
  revert i. induction sch as [|c sch IH]; intros i Hl Hi.
  - rewrite append_nil. change (String.length "") with 0 in *. rewrite Nat.add_0_r in *.
    destruct i; [lia|]. done.
  - rewrite append_cons. simpl in Hl. apply andb_true_iff in Hl as [Hc Hl].
    cbn [url.getscheme_from]. rewrite Hc.
    rewrite IH; [|done|simpl; lia].
    change (String.length (String c sch)) with (S (String.length sch)).
    by rewrite Nat.add_succ_r.
Qed.

Lemma ToLower_alpha (s : string) :
  url.all_bytes url.is_alpha s = true ->
  url.all_bytes lower_byte (strings.ToLower s) = true.
Proof.
  induction s as [|c s IH]; simpl; [done|].
  intros H. apply andb_true_iff in H as [Hc Hs]. rewrite (IH Hs), andb_true_r.
  revert Hc.
  apply (class_implies url.is_alpha
           (fun c => lower_byte (if strings.is_upper c
                                 then ascii_of_N (N_of_ascii c + 32) else c))).
  by vm_compute.
Qed.

Lemma ToLower_nonempty (s : string) : s <> "" -> strings.ToLower s <> "".
Proof. by destruct s. Qed.

(** [Parse] on scheme://hostport/path, whatever the case of the scheme. *)
Lemma Parse_plain_alpha (scheme hostport path : string) :
  scheme <> "" -> url.all_bytes url.is_alpha scheme = true ->
  url.all_bytes inert_byte hostport = true ->
  url.all_bytes (is_not "/") hostport = true ->
  url.parseHost hostport = Some hostport ->
  path = "" \/ (exists path', path = String "/" path') ->
  url.all_bytes path_byte path = true ->
  url.Parse (scheme +:+ "://" +:+ hostport +:+ path)
  = Some (url.mkURL (strings.ToLower scheme) "" None hostport path "" false false
            "" "" "").
Proof.
  intros Hsne Hs Hhp Hslash Hhost Hshape Hp.
  set (rest := "//" +:+ hostport +:+ path).
  assert (Hrest : url.all_bytes inert_byte rest = true).
  { subst rest. change ("//" +:+ hostport +:+ path)
      with (String "/" (String "/" (hostport +:+ path))).
    simpl. rewrite all_bytes_app, Hhp. simpl.
    revert Hp. apply all_bytes_impl, class_implies. by vm_compute. }
  assert (Hraw : url.all_bytes inert_byte (scheme +:+ "://" +:+ hostport +:+ path) = true).
  { rewrite all_bytes_app. apply andb_true_iff. split.
    - revert Hs. apply all_bytes_impl, class_implies. by vm_compute.
    - exact Hrest. }
  unfold url.Parse, url.split.
  rewrite Index_absent by (revert Hraw; by apply is_not_of).
  unfold url.parse. rewrite (no_CTL _ Hraw), (eqb_star _ Hraw).
  unfold url.getscheme.
  change (scheme +:+ "://" +:+ hostport +:+ path) with (scheme +:+ String ":" rest).
  rewrite getscheme_from_alpha by (done || (destruct scheme; [done|simpl; lia])).
  cbn [mbind option_bind]. rewrite Nat.add_0_l, string_take_app.
  rewrite HasSuffix_absent by (revert Hrest; by apply is_not_of). cbn [andb].
  unfold url.split. rewrite Index_absent by (revert Hrest; by apply is_not_of).
  assert (strings.HasPrefix rest "/" = true) as ->
    by (subst rest; apply (HasPrefix_app "/" ("/" +:+ hostport +:+ path))).
  assert (strings.HasPrefix rest "//" = true) as ->
    by (subst rest; apply (HasPrefix_app "//")).
  rewrite (eqb_empty_false _ (ToLower_nonempty _ Hsne)). cbn [negb andb orb].
  assert (strings.drop 2 rest = hostport +:+ path) as -> by (subst rest; reflexivity).
  assert (Hsplit : match strings.Index (hostport +:+ path) "/" with
                   | Some i => (strings.take i (hostport +:+ path),
                                strings.drop i (hostport +:+ path))
                   | None => (hostport +:+ path, "")
                   end = (hostport, path)).
  { destruct Hshape as [->|[path' ->]].
    - rewrite append_empty_r, Index_absent by done. done.
    - rewrite Index_first by done. by rewrite string_take_app, string_drop_app. }
  rewrite Hsplit.
  unfold url.parseAuthority.
  assert (Hat : url.all_bytes (is_not "@") hostport = true)
    by (revert Hhp; by apply is_not_of).
  rewrite (LastIndex_absent _ _ Hat), Hhost. cbn [mbind option_bind].
  unfold url.setPath.
  assert (Hcopied : url.all_bytes (copied url.encodePath) path = true)
    by (revert Hp; apply all_bytes_impl, class_implies; by vm_compute).
  assert (Hkept : url.all_bytes (kept url.encodePath) path = true)
    by (revert Hp; apply all_bytes_impl, class_implies; by vm_compute).
  rewrite (unescape_copied _ _ Hcopied). cbn [mbind option_bind].
  by rewrite (escape_kept _ _ Hkept), !String.eqb_refl.
Qed.

Lemma path_shape (path : string) :
  String.eqb path "" || strings.HasPrefix path "/" = true ->
  path = "" \/ (exists path', path = String "/" path').
Proof.
  destruct path as [|c path]; [by left|]. rewrite HasPrefix_char.
  change (String.eqb (String c path) "") with false. cbn [orb].
  intros Hc. apply Ascii.eqb_eq in Hc as <-. right. by eexists.
Qed.

(** What [is_plain] says, part by part. *)
Lemma is_plain_parts scheme host port path :
  is_plain scheme host port path = true ->
  scheme <> "" /\ url.all_bytes url.is_alpha scheme = true
  /\ host <> "" /\ url.all_bytes host_byte host = true
  /\ (forall p, port = Some p -> url.all_bytes url.is_digit p = true)
  /\ (path = "" \/ (exists path', path = String "/" path'))
  /\ url.all_bytes path_byte path = true.
Proof.
  unfold is_plain. intros H.
  repeat (apply andb_true_iff in H as [H ?]).
  repeat split; try done.
  - apply String.eqb_neq. by apply negb_true_iff.
  - apply String.eqb_neq. by apply negb_true_iff.
  - by intros p ->.
  - by apply path_shape.
Qed.

(** [stripPort] lowers the scheme, drops the port and keeps the rest. *)
Lemma stripPort_plain_url scheme host port path :
  is_plain scheme host port path = true ->
  authority.stripPort (plain_url scheme host port path)
  = plain_url (strings.ToLower scheme) host None path.
Proof.
  intros (Hsne & Hs & Hhne & Hh & Hport & Hshape & Hp)%is_plain_parts.
  assert (Hhi : url.all_bytes inert_byte host = true)
    by (revert Hh; apply all_bytes_impl, class_implies; by vm_compute).
  assert (Hhs : url.all_bytes (is_not "/") host = true)
    by (revert Hh; by apply is_not_of).
  assert (Hout : url.String_ (url.mkURL (strings.ToLower scheme) "" None host path
                                "" false false "" "" "")
                 = plain_url (strings.ToLower scheme) host None path).
  { unfold plain_url, port_suffix. rewrite append_empty_r.
    apply String_plain; try done. by apply ToLower_nonempty. }
  rewrite <- Hout. clear Hout.
  unfold authority.stripPort, plain_url. destruct port as [port|]; cbn [port_suffix].
  - specialize (Hport port eq_refl).
    assert (Hpi : url.all_bytes inert_byte (String ":" port) = true).
    { cbn [url.all_bytes]. apply andb_true_iff. split; [done|].
      revert Hport. apply all_bytes_impl, class_implies. by vm_compute. }
    assert (Hps : url.all_bytes (is_not "/") (String ":" port) = true).
    { cbn [url.all_bytes]. apply andb_true_iff. split; [done|].
      revert Hport. by apply is_not_of. }
    rewrite (Parse_plain_alpha scheme (host +:+ ":" +:+ port) path); try done.
    + cbn [url.Scheme url.Opaque url.User url.Path url.RawPath url.ForceQuery
           url.RawQuery url.Fragment].
      by rewrite (Hostname_port _ host port).
    + change (":" +:+ port) with (String ":" port). by rewrite all_bytes_app, Hhi, Hpi.
    + change (":" +:+ port) with (String ":" port). by rewrite all_bytes_app, Hhs, Hps.
    + by apply parseHost_port.
  - rewrite append_empty_r.
    rewrite (Parse_plain_alpha scheme host path); try done.
    + cbn [url.Scheme url.Opaque url.User url.Path url.RawPath url.ForceQuery
           url.RawQuery url.Fragment].
      by rewrite (Hostname_host _ host).
    + by apply parseHost_host.
Qed.

(** Two strings cut at the first occurrence of a byte agree part by part. *)
Lemma append_split_at (x : ascii) (s1 r1 s2 r2 : string) :
  url.all_bytes (is_not x) s1 = true -> url.all_bytes (is_not x) s2 = true ->
  s1 +:+ String x r1 = s2 +:+ String x r2 -> s1 = s2 /\ r1 = r2.
Proof.
  revert s2. induction s1 as [|c s1 IH]; intros [|d s2] H1 H2;
    rewrite ?append_nil, ?append_cons.
  - by intros [= ->].
  - intros [= <- _]. cbn [url.all_bytes] in H2. unfold is_not at 1 in H2.
    by rewrite Ascii.eqb_refl in H2.
  - intros [= -> _]. cbn [url.all_bytes] in H1. unfold is_not at 1 in H1.
    by rewrite Ascii.eqb_refl in H1.
  - intros [= -> Heq]. cbn [url.all_bytes] in H1, H2.
    apply andb_true_iff in H1 as [_ H1]. apply andb_true_iff in H2 as [_ H2].
    destruct (IH s2 H1 H2 Heq) as [-> ->]. done.
Qed.

Lemma host_path_split (h1 path1 h2 path2 : string) :
  url.all_bytes (is_not "/") h1 = true -> url.all_bytes (is_not "/") h2 = true ->
  path1 = "" \/ (exists p, path1 = String "/" p) ->
  path2 = "" \/ (exists p, path2 = String "/" p) ->
  h1 +:+ path1 = h2 +:+ path2 -> h1 = h2 /\ path1 = path2.
Proof.
  intros H1 H2 [->|[p1 ->]] [->|[p2 ->]]; rewrite ?append_empty_r.
  - by intros ->.
  - intros ->. rewrite all_bytes_app in H1. apply andb_true_iff in H1 as [_ H1].
    cbn [url.all_bytes] in H1. unfold is_not at 1 in H1. by rewrite Ascii.eqb_refl in H1.
  - intros <-. rewrite all_bytes_app in H2. apply andb_true_iff in H2 as [_ H2].
    cbn [url.all_bytes] in H2. unfold is_not at 1 in H2. by rewrite Ascii.eqb_refl in H2.
  - intros Heq. by destruct (append_split_at _ _ _ _ _ H1 H2 Heq) as [-> ->].
Qed.

(** X8.  Audience matching on plain URLs scheme://host[:port][/path].
    [stripPort] lowers the scheme, drops the port and keeps host and path
    byte for byte.  So two plain URLs match exactly when their schemes agree
    up to case and their hosts and their paths are equal: the port is the
    only part that is ignored, and host names are compared with their
    case. *)
Theorem matchesAudience_plain_urls s1 h1 p1 path1 s2 h2 p2 path2 :
  is_plain s1 h1 p1 path1 = true ->
  is_plain s2 h2 p2 path2 = true ->
  authority.stripPort (plain_url s1 h1 p1 path1)
    = plain_url (strings.ToLower s1) h1 None path1
  /\ (authority.matchesAudience [plain_url s1 h1 p1 path1] [plain_url s2 h2 p2 path2]
        = true
      <-> strings.ToLower s1 = strings.ToLower s2 /\ h1 = h2 /\ path1 = path2).
Proof.
  intros Hp1 Hp2.
  pose proof (stripPort_plain_url _ _ _ _ Hp1) as Hs1.
  pose proof (stripPort_plain_url _ _ _ _ Hp2) as Hs2.
  split; [exact Hs1|].
  apply is_plain_parts in Hp1 as (_ & Ha1 & _ & Hh1 & _ & Hshape1 & _).
  apply is_plain_parts in Hp2 as (_ & Ha2 & _ & Hh2 & _ & Hshape2 & _).
  rewrite matchesAudience_true. split.
  - intros (a & b & Ha & Hb & Heq).
    apply list_elem_of_singleton in Ha as ->. apply list_elem_of_singleton in Hb as ->.
    rewrite Hs1, Hs2 in Heq. unfold plain_url, port_suffix in Heq.
    rewrite !append_empty_r in Heq.
    change ("://" +:+ h1 +:+ path1) with (String ":" ("//" +:+ h1 +:+ path1)) in Heq.
    change ("://" +:+ h2 +:+ path2) with (String ":" ("//" +:+ h2 +:+ path2)) in Heq.
    apply append_split_at in Heq as [Hscheme Hrest].
    + split; [done|].
      change ("//" +:+ h1 +:+ path1) with (String "/" (String "/" (h1 +:+ path1))) in Hrest.
      change ("//" +:+ h2 +:+ path2) with (String "/" (String "/" (h2 +:+ path2))) in Hrest.
      injection Hrest as Hrest.
      apply host_path_split in Hrest; try done.
      * revert Hh1. by apply is_not_of.
      * revert Hh2. by apply is_not_of.
    + apply ToLower_alpha in Ha1. revert Ha1. by apply is_not_of.
    + apply ToLower_alpha in Ha2. revert Ha2. by apply is_not_of.
  - intros (Hscheme & -> & ->).
    exists (plain_url s1 h2 p1 path2), (plain_url s2 h2 p2 path2).
    split; [by left|]. split; [by left|]. by rewrite Hs1, Hs2, Hscheme.
Qed.

Lemma getscheme_from_name (s raw : string) (i : nat) :
  url.all_bytes path_byte s = true -> url.getscheme_from i raw s = Some ("", raw).
Proof.
  revert i. induction s as [|c s IH]; intros i; [done|].
  cbn [url.all_bytes url.getscheme_from]. intros H. apply andb_true_iff in H as [Hc Hs].
  destruct (url.is_alpha c); [by apply IH|].
  destruct (url.is_digit c || url.elem c "+-."); [destruct i; [done|by apply IH]|].
  destruct (Ascii.eqb_spec c ":") as [->|_]; [by vm_compute in Hc|done].
Qed.

(** [stripPort] leaves a name as it is. *)
Lemma stripPort_name (s : string) : is_name s = true -> authority.stripPort s = s.
Proof.
  unfold is_name. intros H. apply andb_true_iff in H as [Hb Hss].
  apply negb_true_iff in Hss.
  assert (Hi : url.all_bytes inert_byte s = true)
    by (revert Hb; apply all_bytes_impl, class_implies; by vm_compute).
  assert (Hcopied : url.all_bytes (copied url.encodePath) s = true)
    by (revert Hb; apply all_bytes_impl, class_implies; by vm_compute).
  assert (Hkept : url.all_bytes (kept url.encodePath) s = true)
    by (revert Hb; apply all_bytes_impl, class_implies; by vm_compute).
  assert (Hparse : url.Parse s
                   = Some (url.mkURL "" "" None "" s "" false false "" "" "")).
  { unfold url.Parse, url.split.
    rewrite Index_absent by (revert Hi; by apply is_not_of).
    unfold url.parse. rewrite (no_CTL _ Hi), (eqb_star _ Hi).
    unfold url.getscheme. rewrite (getscheme_from_name _ _ _ Hb).
    cbn [mbind option_bind strings.ToLower].
    rewrite HasSuffix_absent by (revert Hi; by apply is_not_of). cbn [andb].
    unfold url.split. rewrite Index_absent by (revert Hi; by apply is_not_of).
    rewrite String.eqb_refl. cbn [negb andb orb].
    rewrite Index_absent by (revert Hb; by apply is_not_of).
    rewrite andb_false_r, Hss.
    assert (strings.HasPrefix s "///" = false) as ->.
    { destruct s as [|c1 [|c2 s]]; try done.
      revert Hss. cbn [strings.HasPrefix].
      destruct (Ascii.eqb "/" c1); [|done]. destruct (Ascii.eqb "/" c2); [|done].
      by rewrite HasPrefix_empty. }
    cbn [negb andb orb]. unfold url.setPath.
    rewrite (unescape_copied _ _ Hcopied). cbn [mbind option_bind].
    by rewrite (escape_kept _ _ Hkept), !String.eqb_refl. }
  unfold authority.stripPort. rewrite Hparse.
  unfold url.Hostname. cbn [url.Host url.Scheme url.Opaque url.User url.Path url.RawPath
    url.ForceQuery url.RawQuery url.Fragment strings.Index strings.HasPrefix].
  unfold url.String_, url.EscapedPath. cbn [url.Host url.Scheme url.Opaque url.User
    url.Path url.RawPath url.ForceQuery url.RawQuery url.Fragment url.is_Some_b].
  rewrite !String.eqb_refl, (eqb_star _ Hi). cbn [negb andb orb].
  rewrite (escape_kept _ _ Hkept).
  rewrite Index_absent by (revert Hb; by apply is_not_of).
  by rewrite !andb_false_r.
Qed.

(** X9.  Audiences that are names (unreserved bytes and slashes, no scheme,
    not starting with two slashes) are left as they are by [stripPort], so
    two lists of names match exactly when they share an element. *)
Theorem matchesAudience_names (as_ bs : list string) :
  (forall x, x ∈ as_ ++ bs -> is_name x = true) ->
  (forall x, x ∈ as_ ++ bs -> authority.stripPort x = x)
  /\ (authority.matchesAudience as_ bs = true <-> exists x, x ∈ as_ /\ x ∈ bs).
Proof.
  intros Hnames.
  assert (Hfix : forall x, x ∈ as_ ++ bs -> authority.stripPort x = x)
    by (intros x Hx; by apply stripPort_name, Hnames).
  split; [exact Hfix|].
  rewrite matchesAudience_true. split.
  - intros (a & b & Ha & Hb & Heq). exists a. split; [done|].
    rewrite (Hfix a), (Hfix b) in Heq.
    + by subst b.
    + apply elem_of_app. by right.
    + apply elem_of_app. by left.
  - intros (x & Ha & Hb). by exists x, x.
Qed.
(** X8 at concrete inputs: an upper-case scheme and a port make no
    difference, an upper-case host does. *)
Lemma matchesAudience_plain_urls_witness :
  authority.stripPort "HTTPS://ca.example:8443/sign" = "https://ca.example/sign"
  /\ authority.matchesAudience ["HTTPS://ca.example:8443/sign"]
       ["https://ca.example/sign"] = true
  /\ authority.matchesAudience ["https://CA.example/sign"]
       ["https://ca.example/sign"] = false.
Proof.
  destruct (matchesAudience_plain_urls "HTTPS" "ca.example" (Some "8443") "/sign"
              "https" "ca.example" None "/sign" eq_refl eq_refl) as [Hstrip Hmatch].
  destruct (matchesAudience_plain_urls "https" "CA.example" None "/sign"
              "https" "ca.example" None "/sign" eq_refl eq_refl) as [_ Hcase].
  split; [exact Hstrip|]. split.
  - apply Hmatch. by repeat split.
  - apply not_true_is_false. intros Hyes. apply Hcase in Hyes as (_ & Hhost & _).
    discriminate Hhost.
Defined.

(** X9 at a concrete input: two lists of names that share "step-ca". *)
Lemma matchesAudience_names_witness :
  authority.matchesAudience ["step-ca"; "api/v1"] ["registry"; "step-ca"] = true.
Proof.
  destruct (matchesAudience_names ["step-ca"; "api/v1"] ["registry"; "step-ca"])
    as [_ Hshare].
  - intros x Hx. simpl in Hx.
    repeat (apply elem_of_cons in Hx as [->|Hx]; [reflexivity|]).
    by apply elem_of_nil in Hx.
  - apply Hshare. exists "step-ca". split; [by left|right; by left].
Defined.

(** ** More on the handlers and the codecs *)
Section HandlerMore.
Context `{SL : ssh.Lib} {SignOption TimeDuration Template : Type}.
Context `{EL : api.Errors}.

Local Abbreviation ApiAuthority :=
  (@api.Authority SL SignOption TimeDuration Template).
Local Abbreviation SignSSHRequest := (@api.SignSSHRequest TimeDuration).
Local Abbreviation PublicKey := (ssh.PublicKey ssh.Key ssh.Certificate).

Implicit Types (h : ApiAuthority).

(** X10.  [SignSSHRequest.Validate] returns nil exactly when the certificate
    type is empty, "user" or "host", the public key is not empty and the
    token is not empty.  The checks are made in that order: an unknown type
    is reported whatever the other fields are, and a missing key before a
    missing token. *)
Theorem SignSSHRequest_Validate_spec (s : SignSSHRequest) :
  let known :=
    api.CertType s = "" \/ api.CertType s = provisioner.SSHUserCert
    \/ api.CertType s = provisioner.SSHHostCert in
  (api.SignSSHRequest_Validate s = None
   <-> known /\ api.PublicKey_ s <> "" /\ api.OTT s <> "")
  /\ (~ known ->
      api.SignSSHRequest_Validate s
      = Some (errors_New ("unknown certType " +:+ api.CertType s)))
  /\ (known -> api.PublicKey_ s = "" ->
      api.SignSSHRequest_Validate s = Some (errors_New "missing or empty publicKey"))
  /\ (known -> api.PublicKey_ s <> "" -> api.OTT s = "" ->
      api.SignSSHRequest_Validate s = Some (errors_New "missing or empty ott")).
Proof.
  intros known. unfold api.SignSSHRequest_Validate.
  assert (Hknown : negb (String.eqb (api.CertType s) "")
                   && negb (String.eqb (api.CertType s) provisioner.SSHUserCert)
                   && negb (String.eqb (api.CertType s) provisioner.SSHHostCert) = false
                   <-> known).
  { subst known.
    destruct (String.eqb_spec (api.CertType s) "") as [He|He];
      [split; [by left|done]|].
    destruct (String.eqb_spec (api.CertType s) provisioner.SSHUserCert) as [Hu|Hu];
      [split; [right; by left|done]|].
    destruct (String.eqb_spec (api.CertType s) provisioner.SSHHostCert) as [Hh|Hh];
      [split; [right; by right|done]|].
    split; [done|]. by intros [?|[?|?]]. }
  assert (Hlen : forall x : string, (String.length x =? 0)%nat = true <-> x = "").
  { intros [|c x]; simpl; split; done. }
  destruct (negb _ && _ && _) eqn:Hc.
  - assert (Hno : ~ known) by (intros Hk; apply Hknown in Hk; done).
    split; [split; [done|by intros [? _]]|]. repeat split; done.
  - assert (Hyes : known) by (by apply Hknown).
    destruct (String.length (api.PublicKey_ s) =? 0)%nat eqn:Hpk.
    + apply Hlen in Hpk.
      split; [split; [done|by intros (_ & ? & _)]|]. repeat split; done.
    + assert (Hpk' : api.PublicKey_ s <> "").
      { intros Heq. apply Hlen in Heq. congruence. }
      destruct (String.length (api.OTT s) =? 0)%nat eqn:Hott.
      * apply Hlen in Hott.
        split; [split; [done|by intros (_ & _ & ?)]|]. repeat split; done.
      * assert (Hott' : api.OTT s <> "").
        { intros Heq. apply Hlen in Heq. congruence. }
        split; [done|]. repeat split; done.
Qed.

(** X11.  [SSHConfigRequest.Validate] never touches the data, changes the
    type only from empty to "user", and is idempotent: a request it has
    accepted is accepted again, unchanged.  It accepts the empty type, which
    it rewrites to "user", and the types "user" and "host", which it leaves
    as they are; it refuses every other type, with the error that names the
    type, and leaves a refused request as it was. *)
Theorem SSHConfigRequest_Validate_idempotent (r : api.SSHConfigRequest) :
  let '(r', err) := api.SSHConfigRequest_Validate r in
  api.Data r' = api.Data r
  /\ (err = None -> api.SSHConfigRequest_Validate r' = (r', None))
  /\ (api.Type_ r <> "" -> r' = r)
  /\ (err <> None ->
      err = Some (errors_New ("unsupported type " +:+ api.Type_ r))
      /\ api.Type_ r <> "" /\ api.Type_ r <> provisioner.SSHUserCert
      /\ api.Type_ r <> provisioner.SSHHostCert)
  /\ (api.Type_ r = "" ->
      r' = api.mkSSHConfigRequest provisioner.SSHUserCert (api.Data r) /\ err = None)
  /\ (api.Type_ r = provisioner.SSHUserCert \/ api.Type_ r = provisioner.SSHHostCert ->
      r' = r /\ err = None)
  /\ (api.Type_ r <> "" -> api.Type_ r <> provisioner.SSHUserCert ->
      api.Type_ r <> provisioner.SSHHostCert ->
      r' = r /\ err = Some (errors_New ("unsupported type " +:+ api.Type_ r))).
Proof.
  unfold api.SSHConfigRequest_Validate.
  destruct (String.eqb (api.Type_ r) "") eqn:He.
  { apply String.eqb_eq in He.
    assert (Hno : ~ (api.Type_ r = provisioner.SSHUserCert
                     \/ api.Type_ r = provisioner.SSHHostCert))
      by (rewrite He; by intros [|]).
    repeat split; first [done | by destruct Hno]. }
  apply String.eqb_neq in He as He'.
  destruct (String.eqb (api.Type_ r) provisioner.SSHUserCert) eqn:Hu; simpl.
  { apply String.eqb_eq in Hu as Hu'. repeat split; try done.
    intros _. by rewrite He, Hu. }
  destruct (String.eqb (api.Type_ r) provisioner.SSHHostCert) eqn:Hh; simpl.
  { apply String.eqb_eq in Hh as Hh'. repeat split; try done.
    intros _. by rewrite He, Hu, Hh. }
  apply String.eqb_neq in Hu, Hh.
  assert (Hno : ~ (api.Type_ r = provisioner.SSHUserCert
                   \/ api.Type_ r = provisioner.SSHHostCert)) by (by intros [|]).
  repeat split; first [done | by destruct Hno].
Qed.

(** X12.  The sign handler has three kinds of run.  It reports an error made
    with [BadRequest] and has called nothing; or it reports the error of
    [Authorize], made with [Unauthorized], and has called [Authorize] alone,
    with the token of the request; or it has called [Authorize] and then
    [SignSSH] (and possibly [SignSSHAddUser] after them) and reports an error
    made with [Forbidden] or writes the status Created and the certificates.
    So a request refused as malformed has not used up its token, and nothing
    is signed without a call to [Authorize] before. *)
Theorem SignSSH_answer_and_calls h (read : result SignSSHRequest) :
  let '(resp, calls) := api.SignSSH_handler h read in
  ((exists err, resp = api.WriteError (api.BadRequest err)) /\ calls = [])
  \/ (exists body err,
        read = Ok body
        /\ api.Authorize h api.SignSSHMethod (api.OTT body) = Err err
        /\ resp = api.WriteError (api.Unauthorized err)
        /\ calls = [api.CallAuthorize api.SignSSHMethod (api.OTT body)])
  \/ (((exists err, resp = api.WriteError (api.Forbidden err))
       \/ exists v, resp = api.JSON StatusCreated v)
      /\ exists ott key opts signOpts rest,
           calls = api.CallAuthorize api.SignSSHMethod ott
                   :: api.CallSignSSH key opts signOpts :: rest).
Proof.
  SignSSH_cases h read;
    first [ left; split; [by eexists|done]
          | right; left; eexists _, _; by repeat split
          | right; right; split; [left; by eexists|by repeat eexists]
          | right; right; split; [right; by eexists|by repeat eexists] ].
Qed.

(** X13.  Where the arguments of the sign handler's calls come from.
    [Authorize] is called only with the method [SignSSHMethod] and the token
    of a request that was read, that [Validate] accepted and whose keys (the
    add-user key too, when there is one) were parsed; and for every such
    request it is called, first of all calls.  [SignSSH] is called
    only with the parsed public key of the request, the options copied from
    the request (type, principals, validity bounds, each in its own field)
    and the sign options that [Authorize] returned for its token. *)
Theorem SignSSH_call_provenance h (read : result SignSSHRequest) resp calls :
  api.SignSSH_handler h read = (resp, calls) ->
  (forall m ott, api.CallAuthorize m ott ∈ calls ->
     m = api.SignSSHMethod
     /\ exists body publicKey,
          read = Ok body /\ ott = api.OTT body
          /\ api.SignSSHRequest_Validate body = None
          /\ ssh.ParsePublicKey (api.PublicKey_ body) = Ok publicKey
          /\ (forall bytes, api.AddUserPublicKey body = Some bytes ->
                exists key, ssh.ParsePublicKey bytes = Ok key))
  /\ (forall body publicKey,
        read = Ok body ->
        api.SignSSHRequest_Validate body = None ->
        ssh.ParsePublicKey (api.PublicKey_ body) = Ok publicKey ->
        (forall bytes, api.AddUserPublicKey body = Some bytes ->
           exists key, ssh.ParsePublicKey bytes = Ok key) ->
        exists rest, calls = api.CallAuthorize api.SignSSHMethod (api.OTT body) :: rest)
  /\ (forall publicKey opts signOpts,
        api.CallSignSSH publicKey opts signOpts ∈ calls ->
        exists body,
          read = Ok body
          /\ ssh.ParsePublicKey (api.PublicKey_ body) = Ok publicKey
          /\ opts = api.mkSSHOptions (api.CertType body) (api.Principals body)
                      (api.ValidAfter body) (api.ValidBefore body)
          /\ api.Authorize h api.SignSSHMethod (api.OTT body) = Ok signOpts).
Proof.
  revert resp calls. SignSSH_cases h read; intros resp calls [= <- <-];
    (split; [|split];
     [ intros m ott Hin; elem_of_cases Hin; injection Hin as -> ->;
       (split; [done|]); eexists _, _; repeat split; try done;
       intros ? ?; simplify_eq; by eexists
     | intros body' publicKey Hread Hv Hk Hadd'; simplify_eq;
       first [ by eexists | congruence
             | edestruct Hadd' as [? ?]; [done|]; congruence ]
     | intros publicKey opts signOpts Hin; elem_of_cases Hin; injection Hin as -> -> ->;
       eexists; by repeat split ]).
Qed.
(** X14.  The config handler either reports an error made with [BadRequest]
    without calling the authority (the body could not be read, or its type
    is not empty, "user" or "host"), or calls [GetSSHConfig] once, with the
    validated type ("user" for an empty one) and the data of the request, and
    writes the status OK and a configuration, or reports the error that call
    returned, made with [InternalServerError]. *)
Theorem SSHConfig_answer_and_calls h (read : result api.SSHConfigRequest) :
  let '(resp, calls) := api.SSHConfig_handler h read in
  (calls = []
   /\ ((exists err,
          read = Err err
          /\ resp = api.WriteError
                      (api.BadRequest (errors_Wrap err "error reading request body")))
       \/ exists body,
            read = Ok body
            /\ api.Type_ body <> "" /\ api.Type_ body <> provisioner.SSHUserCert
            /\ api.Type_ body <> provisioner.SSHHostCert
            /\ resp = api.WriteError
                        (api.BadRequest
                           (errors_New ("unsupported type " +:+ api.Type_ body)))))
  \/ (exists body typ,
        read = Ok body
        /\ calls = [api.CallGetSSHConfig typ (api.Data body)]
        /\ (typ = provisioner.SSHUserCert \/ typ = provisioner.SSHHostCert)
        /\ (api.Type_ body = typ \/ api.Type_ body = "" /\ typ = provisioner.SSHUserCert)
        /\ match api.GetSSHConfig h typ (api.Data body) with
           | Ok _ => exists config, resp = api.JSON StatusOK config
           | Err err => resp = api.WriteError (api.InternalServerError err)
           end).
Proof.
  unfold api.SSHConfig_handler, api.SSHConfig_body, api.call, run. monad_unfold.
  destruct read as [body|err]; simpl.
  2: { left. split; [done|]. left. by eexists. }
  unfold api.SSHConfigRequest_Validate.
  destruct (String.eqb (api.Type_ body) "") eqn:He; simpl.
  { apply String.eqb_eq in He.
    destruct (api.GetSSHConfig h _ _) as [ts|err] eqn:Hget; simpl;
      right; exists body, provisioner.SSHUserCert; rewrite Hget;
      (split; [done|]); (split; [done|]); (split; [by left|]); (split; [by right|by eexists]). }
  apply String.eqb_neq in He.
  destruct (String.eqb (api.Type_ body) provisioner.SSHUserCert) eqn:Hu; simpl.
  { apply String.eqb_eq in Hu. rewrite !Hu.
    destruct (api.GetSSHConfig h _ _) as [ts|err] eqn:Hget; simpl;
      right; exists body, provisioner.SSHUserCert; rewrite Hget;
      (split; [done|]); (split; [done|]); (split; [by left|]); (split; [by left|by eexists]). }
  destruct (String.eqb (api.Type_ body) provisioner.SSHHostCert) eqn:Hh; simpl.
  { apply String.eqb_eq in Hh. rewrite !Hh.
    destruct (api.GetSSHConfig h _ _) as [ts|err] eqn:Hget; simpl;
      right; exists body, provisioner.SSHHostCert; rewrite Hget;
      (split; [done|]); (split; [done|]); (split; [by right|]); (split; [by left|by eexists]). }
  apply String.eqb_neq in Hu, Hh. left. split; [done|].
  right. by exists body.
Qed.

Context `{KW : !ssh.KeyWire}.

Lemma SSHPublicKey_roundtrip (p0 : api.SSHPublicKey) (pub : PublicKey) :
  ssh.PublicKey_Marshal pub <> "" ->
  ssh.ParsePublicKey (ssh.PublicKey_Marshal pub) = Ok pub ->
  api.SSHPublicKey_UnmarshalJSON p0
    (api.quote (base64.EncodeToString (ssh.PublicKey_Marshal pub)))
  = (api.mkSSHPublicKey (Some pub), None).
Proof.
  intros Hne Hparse. unfold api.SSHPublicKey_UnmarshalJSON.
  rewrite Unmarshal_string_quote by apply EncodeToString_plain.
  rewrite (proj2 (String.eqb_neq _ _)) by (by apply EncodeToString_nonempty).
  by rewrite DecodeString_EncodeToString, Hparse.
Qed.

(** X15.  The public key codec.  A key or certificate whose wire form the
    SSH library reads back survives the round trip.  A nil receiver and a
    nil key both encode as [null]; [null] and the empty string literal
    decode to a nil key, with no error. *)
Theorem SSHPublicKey_codec (p0 : api.SSHPublicKey) :
  (forall pub : PublicKey,
     ssh.PublicKey_Marshal pub <> "" ->
     ssh.ParsePublicKey (ssh.PublicKey_Marshal pub) = Ok pub ->
     exists data,
       api.SSHPublicKey_MarshalJSON (Some (api.mkSSHPublicKey (Some pub))) = Ok data
       /\ api.SSHPublicKey_UnmarshalJSON p0 data = (api.mkSSHPublicKey (Some pub), None))
  /\ api.SSHPublicKey_MarshalJSON None = Ok "null"
  /\ api.SSHPublicKey_MarshalJSON (Some (api.mkSSHPublicKey None)) = Ok "null"
  /\ api.SSHPublicKey_UnmarshalJSON p0 "null" = (api.mkSSHPublicKey None, None)
  /\ api.SSHPublicKey_UnmarshalJSON p0 (api.quote "") = (api.mkSSHPublicKey None, None).
Proof.
  split; [|by repeat split].
  intros pub Hne Hparse. eexists. split; [reflexivity|].
  by apply SSHPublicKey_roundtrip.
Qed.

(** X16.  The two codecs against each other.  What
    [SSHCertificate.MarshalJSON] writes for a certificate,
    [SSHPublicKey.UnmarshalJSON] reads as that certificate: a public key
    field takes certificates.  What [SSHPublicKey.MarshalJSON] writes for a
    bare key, [SSHCertificate.UnmarshalJSON] refuses with the type-mismatch
    error, leaving the receiver as it was. *)
Theorem SSHPublicKey_reads_certificates (p0 : api.SSHPublicKey) (c0 : api.SSHCertificate) :
  (forall cert : ssh.Certificate,
     ssh.Certificate_Marshal cert <> "" ->
     ssh.ParsePublicKey (ssh.Certificate_Marshal cert) = Ok (ssh.PKCert cert) ->
     exists data,
       api.SSHCertificate_MarshalJSON (api.mkSSHCertificate (Some cert)) = Ok data
       /\ api.SSHPublicKey_UnmarshalJSON p0 data
          = (api.mkSSHPublicKey (Some (ssh.PKCert cert)), None))
  /\ (forall k : ssh.Key,
        ssh.Key_Marshal k <> "" ->
        ssh.ParsePublicKey (ssh.Key_Marshal k) = Ok (ssh.PKKey k) ->
        exists data,
          api.SSHPublicKey_MarshalJSON (Some (api.mkSSHPublicKey (Some (ssh.PKKey k))))
          = Ok data
          /\ api.SSHCertificate_UnmarshalJSON c0 data
             = (c0, Some (errors_New ("error decoding ssh certificate: "
                                      +:+ ssh.Key_GoType k
                                      +:+ " is not an *ssh.Certificate")))).
Proof.
  split.
  - intros cert Hne Hparse. eexists. split; [reflexivity|].
    by apply (SSHPublicKey_roundtrip p0 (ssh.PKCert cert)).
  - intros k Hne Hparse. eexists. split; [reflexivity|].
    unfold api.SSHCertificate_UnmarshalJSON. simpl ssh.PublicKey_Marshal.
    rewrite Unmarshal_string_quote by apply EncodeToString_plain.
    rewrite (proj2 (String.eqb_neq _ _)) by (by apply EncodeToString_nonempty).
    by rewrite DecodeString_EncodeToString, Hparse.
Qed.

(** X17.  The keys handler calls [GetSSHKeys] once.  On an error it reports
    that error, made with [NotFound].  Otherwise it writes the keys as JSON;
    a key the authority does not have is absent from the response, and a key
    it has, once encoded by
    [SSHPublicKey.MarshalJSON] and decoded by [SSHPublicKey.UnmarshalJSON],
    is that key again: the user key under [UserKey], the host key under
    [HostKey]. *)
Theorem SSHKeys_client_roundtrip h (p0 : api.SSHPublicKey) :
  match api.GetSSHKeys h with
  | Err err =>
      api.SSHKeys_handler h = (api.WriteError (api.NotFound err), [api.CallGetSSHKeys])
  | Ok keys =>
      exists resp,
        api.SSHKeys_handler h = (api.JSON StatusOK resp, [api.CallGetSSHKeys])
        /\ (api.UserKey resp = None <-> api.keys_UserKey keys = None)
        /\ (api.HostKey resp = None <-> api.keys_HostKey keys = None)
        /\ forall pub : PublicKey,
             ssh.PublicKey_Marshal pub <> "" ->
             ssh.ParsePublicKey (ssh.PublicKey_Marshal pub) = Ok pub ->
             (api.keys_UserKey keys = Some pub ->
              exists data,
                api.SSHPublicKey_MarshalJSON (api.UserKey resp) = Ok data
                /\ api.SSHPublicKey_UnmarshalJSON p0 data
                   = (api.mkSSHPublicKey (Some pub), None))
             /\ (api.keys_HostKey keys = Some pub ->
                 exists data,
                   api.SSHPublicKey_MarshalJSON (api.HostKey resp) = Ok data
                   /\ api.SSHPublicKey_UnmarshalJSON p0 data
                      = (api.mkSSHPublicKey (Some pub), None))
  end.
Proof.
  unfold api.SSHKeys_handler, api.SSHKeys_body, api.call, run. monad_unfold.
  destruct (api.GetSSHKeys h) as [keys|err]; simpl; [|done].
  eexists. split; [reflexivity|]. simpl.
  split; [by destruct (api.keys_UserKey keys)|].
  split; [by destruct (api.keys_HostKey keys)|].
  intros pub Hne Hparse. split; intros ->; simpl;
    (eexists; split; [reflexivity|by apply SSHPublicKey_roundtrip]).
Qed.

End HandlerMore.

(** *** The certificate codec on its own output *)
Section CodecMore.
Context `{SL : ssh.Lib}.

Lemma EncodeToString_inj (s1 s2 : string) :
  base64.EncodeToString s1 = base64.EncodeToString s2 -> s1 = s2.
Proof.
  intros Heq. apply (f_equal base64.DecodeString) in Heq.
  rewrite !DecodeString_EncodeToString in Heq. congruence.
Qed.

Lemma append_inj_r (s1 s2 t : string) : s1 +:+ t = s2 +:+ t -> s1 = s2.
Proof.
  revert s2. induction s1 as [|c s1 IH]; intros [|d s2]; rewrite ?append_nil, ?append_cons.
  - done.
  - intros Heq. apply (f_equal String.length) in Heq.
    rewrite <- append_cons, string_length_app in Heq. simpl in Heq. lia.
  - intros Heq. apply (f_equal String.length) in Heq.
    rewrite <- append_cons, string_length_app in Heq. simpl in Heq. lia.
  - intros [= -> Heq]. by rewrite (IH _ Heq).
Qed.

(** X18.  [UnmarshalJSON] on what [MarshalJSON] wrote for a certificate
    never fails in the JSON or the base64 layer: the outcome is what
    [ssh.ParsePublicKey] makes of the wire form of the certificate.  The one
    exception is a certificate with an empty wire form, which is written as
    the empty string literal and read back as an absent certificate. *)
Theorem SSHCertificate_reads_own_output (c0 : api.SSHCertificate) (cert : ssh.Certificate) :
  exists data,
    api.SSHCertificate_MarshalJSON (api.mkSSHCertificate (Some cert)) = Ok data
    /\ api.SSHCertificate_UnmarshalJSON c0 data =
         if String.eqb (ssh.Certificate_Marshal cert) "" then
           (api.mkSSHCertificate None, None)
         else
           match ssh.ParsePublicKey (ssh.Certificate_Marshal cert) with
           | Err err => (c0, Some (errors_Wrap err "error parsing ssh certificate"))
           | Ok (ssh.PKKey k) =>
               (c0, Some (errors_New ("error decoding ssh certificate: "
                                      +:+ ssh.Key_GoType k
                                      +:+ " is not an *ssh.Certificate")))
           | Ok (ssh.PKCert cert') => (api.mkSSHCertificate (Some cert'), None)
           end.
Proof.
  eexists. split; [reflexivity|].
  unfold api.SSHCertificate_UnmarshalJSON.
  rewrite Unmarshal_string_quote by apply EncodeToString_plain.
  destruct (String.eqb_spec (ssh.Certificate_Marshal cert) "") as [->|Hne]; [done|].
  rewrite (proj2 (String.eqb_neq _ _)) by (by apply EncodeToString_nonempty).
  by rewrite DecodeString_EncodeToString.
Qed.

(** X19.  [MarshalJSON] loses nothing.  Two values with the same encoding
    are both absent (and the encoding is [null]), or are two certificates
    with the same wire form; an absent certificate and a certificate never
    share an encoding. *)
Theorem SSHCertificate_MarshalJSON_injective (c1 c2 : api.SSHCertificate) (data : string) :
  api.SSHCertificate_MarshalJSON c1 = Ok data ->
  api.SSHCertificate_MarshalJSON c2 = Ok data ->
  match api.Certificate c1, api.Certificate c2 with
  | None, None => data = "null"
  | Some cert1, Some cert2 =>
      ssh.Certificate_Marshal cert1 = ssh.Certificate_Marshal cert2
  | _, _ => False
  end.
Proof.
  unfold api.SSHCertificate_MarshalJSON.
  destruct (api.Certificate c1) as [cert1|], (api.Certificate c2) as [cert2|];
    intros [= <-] Heq.
  - injection Heq as Heq. by apply append_inj_r, EncodeToString_inj in Heq.
  - unfold api.quote in Heq. rewrite append_cons in Heq. discriminate Heq.
  - unfold api.quote in Heq. rewrite append_cons in Heq. discriminate Heq.
  - done.
Qed.

End CodecMore.

(** *** On the test doubles *)

(** X13 at a concrete input: a user request for "alice" with the token
    "good". *)
Lemma SignSSH_call_provenance_witness :
  let body := @api.mkSignSSHRequest unit "wire:alice-key" "good" "user" ["alice"] tt tt
                None in
  let key : ssh.PublicKey string fixtures.cert := ssh.PKKey "alice-key" in
  let opts := @api.mkSSHOptions unit "user" ["alice"] tt tt in
  let calls : list (@api.Call fixtures.ssh_lib unit unit) :=
    [api.CallAuthorize api.SignSSHMethod "good";
     api.CallSignSSH (SL := fixtures.ssh_lib) key opts [tt]] in
  exists body',
    Ok body = Ok body'
    /\ @ssh.ParsePublicKey fixtures.ssh_lib (api.PublicKey_ body') = Ok key
    /\ opts = api.mkSSHOptions (api.CertType body') (api.Principals body')
                (api.ValidAfter body') (api.ValidBefore body')
    /\ api.Authorize fixtures.api_authority api.SignSSHMethod (api.OTT body') = Ok [tt].
Proof.
  intros body key opts calls.
  destruct (@SignSSH_call_provenance fixtures.ssh_lib unit unit string fixtures.errors
              fixtures.api_authority (Ok body)
              (api.SignSSH_handler fixtures.api_authority (Ok body)).1 calls eq_refl)
    as (_ & _ & Hsign).
  apply (Hsign key opts [tt]). right. left.
Defined.

(** X17 at a concrete input: the authority that holds a user key only. *)
Lemma SSHKeys_client_roundtrip_witness :
  let p0 := api.mkSSHPublicKey (SL := fixtures.ssh_lib) None in
  exists resp,
    api.SSHKeys_handler fixtures.keys_authority
    = (api.JSON StatusOK resp, [api.CallGetSSHKeys])
    /\ api.HostKey resp = None
    /\ exists data,
         api.SSHPublicKey_MarshalJSON (KW := fixtures.key_wire) (api.UserKey resp) = Ok data
         /\ api.SSHPublicKey_UnmarshalJSON p0 data
            = (api.mkSSHPublicKey (SL := fixtures.ssh_lib) (Some fixtures.alice_key), None).
Proof.
  intros p0.
  destruct (@SSHKeys_client_roundtrip fixtures.ssh_lib unit unit string fixtures.errors
              fixtures.key_wire fixtures.keys_authority p0)
    as (resp & Hrun & _ & Hhost & Hkeys).
  exists resp. split; [exact Hrun|]. split; [by apply Hhost|].
  destruct (Hkeys fixtures.alice_key) as [Huser _];
    [discriminate|reflexivity|].
  by apply Huser.
Defined.

(** X15 at a concrete input: the bare key of alice. *)
Lemma SSHPublicKey_codec_witness :
  let p0 := api.mkSSHPublicKey (SL := fixtures.ssh_lib) None in
  let alice := api.mkSSHPublicKey (SL := fixtures.ssh_lib) (Some fixtures.alice_key) in
  exists data,
    api.SSHPublicKey_MarshalJSON (KW := fixtures.key_wire) (Some alice) = Ok data
    /\ api.SSHPublicKey_UnmarshalJSON p0 data = (alice, None).
Proof.
  intros p0 alice.
  destruct (@SSHPublicKey_codec fixtures.ssh_lib fixtures.key_wire p0) as [Hrt _].
  apply (Hrt fixtures.alice_key);
    [discriminate|reflexivity].
Defined.

(** X16 at concrete inputs: the certificate of alice in a public key field,
    and her bare key in a certificate field. *)
Lemma SSHPublicKey_reads_certificates_witness :
  let p0 := api.mkSSHPublicKey (SL := fixtures.ssh_lib) None in
  let c0 := api.mkSSHCertificate (SL := fixtures.ssh_lib) None in
  (exists data,
     api.SSHCertificate_MarshalJSON
       (api.mkSSHCertificate (SL := fixtures.ssh_lib) (Some fixtures.alice_cert))
     = Ok data
     /\ api.SSHPublicKey_UnmarshalJSON p0 data
        = (api.mkSSHPublicKey (SL := fixtures.ssh_lib)
             (Some (ssh.PKCert fixtures.alice_cert)), None))
  /\ (exists data,
        api.SSHPublicKey_MarshalJSON (KW := fixtures.key_wire)
          (Some (api.mkSSHPublicKey (SL := fixtures.ssh_lib) (Some fixtures.alice_key)))
        = Ok data
        /\ api.SSHCertificate_UnmarshalJSON c0 data
           = (c0, Some (errors_New ("error decoding ssh certificate: "
                                    +:+ "ssh.ed25519PublicKey"
                                    +:+ " is not an *ssh.Certificate")))).
Proof.
  intros p0 c0.
  destruct (@SSHPublicKey_reads_certificates fixtures.ssh_lib fixtures.key_wire p0 c0)
    as [Hcert Hkey].
  split.
  - apply (Hcert fixtures.alice_cert); [discriminate|reflexivity].
  - apply (Hkey ("alice-key" : @ssh.Key fixtures.ssh_lib)); [discriminate|reflexivity].
Defined.

(** X19 at a concrete input: a certificate with the wire form of the
    certificate of alice has her encoding. *)
Lemma SSHCertificate_MarshalJSON_injective_witness :
  let alice := api.mkSSHCertificate (SL := fixtures.ssh_lib) (Some fixtures.alice_cert) in
  let other_cert := fixtures.mkCert "wire:alice-cert" ssh.HostCert [] "another-key" in
  let other := api.mkSSHCertificate (SL := fixtures.ssh_lib) (Some other_cert) in
  fixtures.wire fixtures.alice_cert = fixtures.wire other_cert.
Proof.
  intros alice other_cert other.
  apply (@SSHCertificate_MarshalJSON_injective fixtures.ssh_lib alice other
           (api.quote (base64.EncodeToString "wire:alice-cert")));
    reflexivity.
Defined.
